(** * DOMObserver and the keymap builder of the view package

    A shallow embedding of [DOMObserver] (the mutation-to-document
    reconciliation engine) and of the keymap construction code, followed by
    the properties established about them.

    The observer is a JavaScript object whose methods mutate its own
    fields and several registrations held by the host platform (mutation
    observer, event listeners, timers, intersection observer).  The
    embedding threads one record through every method: the object's fields,
    the host-side registrations made by the object, and the trace of calls
    made to the collaborators supplied by the caller. *)

From Stdlib Require Import ZArith QArith Qcanon List Bool String Ascii Lia Permutation.
From stdpp Require Import gmap strings list.
Import ListNotations.

Local Open Scope Z_scope.

(** ** Rendered tree and view tree *)

(** DOM nodes and view descriptors are JavaScript objects compared by
    identity; both are represented by their identity. *)
Definition Node := nat.
Definition Desc := nat.

(** The DOM around the editor and the view tree that describes it, as they
    stand when a method runs.  [parentNode], [previousSibling],
    [nextSibling] and [cmView] are the DOM properties read by [findChild].
    The class [ViewDesc] (file viewdesc) is not part of the sources at hand:
    its members used by the observer -- [nearest], [parent], [dom],
    [posAtStart], [posAtEnd], [posBefore], [posAfter] -- are taken as
    parameters.  [nodeCount] bounds the number of nodes of the document and
    only serves to bound the walk of [findChild]. *)
Record Tree := mkTree {
  parentNode : Node -> option Node;
  previousSibling : Node -> option Node;
  nextSibling : Node -> option Node;
  cmView : Node -> option Desc;
  nearest : Node -> option Desc;
  descParent : Desc -> option Desc;
  descDom : Desc -> option Node;
  posAtStart : Desc -> Z;
  posAtEnd : Desc -> Z;
  posBefore : Desc -> Desc -> Z;
  posAfter : Desc -> Desc -> Z;
  nodeCount : nat
}.


(** ** Mutation records *)

Inductive RecordType := childList | characterData.

Record MutationRecord := mkRecord {
  target : Node;
  type : RecordType;
  recPreviousSibling : option Node;
  recNextSibling : option Node;
  oldValue : option string
}.

#[global] Instance RecordType_eq_dec : EqDecision RecordType.
Proof. solve_decision. Defined.

#[global] Instance MutationRecord_eq_dec : EqDecision MutationRecord.
Proof. solve_decision. Defined.

Record Range := mkRange { from : Z; to : Z }.

(** ** findChild *)

(** One test of the loop body: [curDesc && curDesc.parent == desc]. *)
Definition ownedBy (t : Tree) (desc : Desc) (d : Node) : option Desc :=
  match cmView t d with
  | Some curDesc =>
      if decide (descParent t curDesc = Some desc) then Some curDesc else None
  | None => None
  end.

(** The node the loop moves to when the test fails. *)
Definition nextCandidate (t : Tree) (desc : Desc) (d : Node) (dir : Z) : option Node :=
  let parent := parentNode t d in
  if decide (parent <> descDom t desc) then parent
  else if 0 <? dir then nextSibling t d else previousSibling t d.

(** The [while (dom)] loop; the outer [None] means that the iteration budget
    ran out before the loop ended. *)
Fixpoint findChildLoop (fuel : nat) (t : Tree) (desc : Desc) (dom : option Node) (dir : Z)
  : option (option Desc) :=
  match dom with
  | None => Some None
  | Some d =>
      match fuel with
      | O => None
      | S fuel' =>
          match ownedBy t desc d with
          | Some curDesc => Some (Some curDesc)
          | None => findChildLoop fuel' t desc (nextCandidate t desc d dir) dir
          end
      end
  end.

Definition walkBudget (t : Tree) : nat := (2 * nodeCount t + 3)%nat.

Definition findChild (t : Tree) (desc : Desc) (dom : option Node) (dir : Z) : option Desc :=
  match findChildLoop (walkBudget t) t desc dom dir with
  | Some r => r
  | None => None
  end.

(** JavaScript [a || b] on node references. *)
Definition orElse {A} (a b : option A) : option A :=
  match a with Some _ => a | None => b end.

(** ** The observer *)

(** Calls made to the collaborators handed to the constructor. *)
Inductive Call :=
| OnDOMChange (from to : Z)
| OnSelectionChange
| OnIntersect
| DocViewSync.

Record IntersectionEntry := mkEntry {
  entryTarget : Node;
  intersectionRatio : Qc
}.

Record DOMObserver := mkDOMObserver {
  (* platform constants read by the class *)
  observer : bool;             (* this.observer is not null *)
  useCharData : bool;
  (* what the caller's onDOMChange does to docView.dirty *)
  dirtyAfterChange : bool -> bool;
  (* fields *)
  charDataQueue : list MutationRecord;
  charDataTimeout : option nat;
  active : bool;
  listening : bool;            (* captured by the focus and blur handlers *)
  (* registrations held by the host on behalf of this object *)
  observing : bool;            (* the mutation observer is connected *)
  pendingRecords : list MutationRecord;   (* its record queue *)
  charDataListener : bool;     (* DOMCharacterDataModified on this.dom *)
  selectionListener : bool;    (* selectionchange on ownerDocument *)
  focusListeners : bool;       (* focus and blur on this.dom *)
  observedElements : list Node;           (* intersection targets *)
  intersectionQueue : list IntersectionEntry;
  timers : list nat;           (* timeouts scheduled and not yet fired *)
  nextTimer : nat;
  (* the view tree's dirty flag *)
  dirty : bool;
  (* trace *)
  calls : list Call
}.

Definition setCharDataQueue (v : list MutationRecord) (s : DOMObserver) : DOMObserver :=
  mkDOMObserver (observer s) (useCharData s) (dirtyAfterChange s)
    v (charDataTimeout s) (active s) (listening s)
    (observing s) (pendingRecords s) (charDataListener s) (selectionListener s)
    (focusListeners s) (observedElements s) (intersectionQueue s) (timers s) (nextTimer s)
    (dirty s) (calls s).

Definition setCharDataTimeout (v : option nat) (s : DOMObserver) : DOMObserver :=
  mkDOMObserver (observer s) (useCharData s) (dirtyAfterChange s)
    (charDataQueue s) v (active s) (listening s)
    (observing s) (pendingRecords s) (charDataListener s) (selectionListener s)
    (focusListeners s) (observedElements s) (intersectionQueue s) (timers s) (nextTimer s)
    (dirty s) (calls s).

Definition setActive (v : bool) (s : DOMObserver) : DOMObserver :=
  mkDOMObserver (observer s) (useCharData s) (dirtyAfterChange s)
    (charDataQueue s) (charDataTimeout s) v (listening s)
    (observing s) (pendingRecords s) (charDataListener s) (selectionListener s)
    (focusListeners s) (observedElements s) (intersectionQueue s) (timers s) (nextTimer s)
    (dirty s) (calls s).

Definition setListening (v : bool) (s : DOMObserver) : DOMObserver :=
  mkDOMObserver (observer s) (useCharData s) (dirtyAfterChange s)
    (charDataQueue s) (charDataTimeout s) (active s) v
    (observing s) (pendingRecords s) (charDataListener s) (selectionListener s)
    (focusListeners s) (observedElements s) (intersectionQueue s) (timers s) (nextTimer s)
    (dirty s) (calls s).

Definition setObserving (v : bool) (s : DOMObserver) : DOMObserver :=
  mkDOMObserver (observer s) (useCharData s) (dirtyAfterChange s)
    (charDataQueue s) (charDataTimeout s) (active s)
    (listening s) v (pendingRecords s) (charDataListener s) (selectionListener s)
    (focusListeners s) (observedElements s) (intersectionQueue s) (timers s) (nextTimer s)
    (dirty s) (calls s).

Definition setPendingRecords (v : list MutationRecord) (s : DOMObserver) : DOMObserver :=
  mkDOMObserver (observer s) (useCharData s) (dirtyAfterChange s)
    (charDataQueue s) (charDataTimeout s) (active s)
    (listening s) (observing s) v (charDataListener s) (selectionListener s)
    (focusListeners s) (observedElements s) (intersectionQueue s) (timers s) (nextTimer s)
    (dirty s) (calls s).

Definition setCharDataListener (v : bool) (s : DOMObserver) : DOMObserver :=
  mkDOMObserver (observer s) (useCharData s) (dirtyAfterChange s)
    (charDataQueue s) (charDataTimeout s) (active s)
    (listening s) (observing s) (pendingRecords s) v (selectionListener s)
    (focusListeners s) (observedElements s) (intersectionQueue s) (timers s) (nextTimer s)
    (dirty s) (calls s).

Definition setSelectionListener (v : bool) (s : DOMObserver) : DOMObserver :=
  mkDOMObserver (observer s) (useCharData s) (dirtyAfterChange s)
    (charDataQueue s) (charDataTimeout s) (active s)
    (listening s) (observing s) (pendingRecords s) (charDataListener s) v
    (focusListeners s) (observedElements s) (intersectionQueue s) (timers s) (nextTimer s)
    (dirty s) (calls s).

Definition setFocusListeners (v : bool) (s : DOMObserver) : DOMObserver :=
  mkDOMObserver (observer s) (useCharData s) (dirtyAfterChange s)
    (charDataQueue s) (charDataTimeout s) (active s)
    (listening s) (observing s) (pendingRecords s) (charDataListener s) (selectionListener s)
    v (observedElements s) (intersectionQueue s) (timers s) (nextTimer s)
    (dirty s) (calls s).

Definition setObservedElements (v : list Node) (s : DOMObserver) : DOMObserver :=
  mkDOMObserver (observer s) (useCharData s) (dirtyAfterChange s)
    (charDataQueue s) (charDataTimeout s) (active s)
    (listening s) (observing s) (pendingRecords s) (charDataListener s) (selectionListener s)
    (focusListeners s) v (intersectionQueue s) (timers s) (nextTimer s)
    (dirty s) (calls s).

Definition setIntersectionQueue (v : list IntersectionEntry) (s : DOMObserver) : DOMObserver :=
  mkDOMObserver (observer s) (useCharData s) (dirtyAfterChange s)
    (charDataQueue s) (charDataTimeout s) (active s)
    (listening s) (observing s) (pendingRecords s) (charDataListener s) (selectionListener s)
    (focusListeners s) (observedElements s) v (timers s) (nextTimer s)
    (dirty s) (calls s).

Definition setTimers (v : list nat) (n : nat) (s : DOMObserver) : DOMObserver :=
  mkDOMObserver (observer s) (useCharData s) (dirtyAfterChange s)
    (charDataQueue s) (charDataTimeout s) (active s)
    (listening s) (observing s) (pendingRecords s) (charDataListener s) (selectionListener s)
    (focusListeners s) (observedElements s) (intersectionQueue s) v n
    (dirty s) (calls s).

Definition setDirty (v : bool) (s : DOMObserver) : DOMObserver :=
  mkDOMObserver (observer s) (useCharData s) (dirtyAfterChange s)
    (charDataQueue s) (charDataTimeout s) (active s)
    (listening s) (observing s) (pendingRecords s) (charDataListener s) (selectionListener s)
    (focusListeners s) (observedElements s) (intersectionQueue s) (timers s) (nextTimer s)
    v (calls s).

(** A collaborator is called: the call is appended to the trace.  The
    callbacks are code of the caller; they are taken not to call back into
    the observer. *)
Definition call (c : Call) (s : DOMObserver) : DOMObserver :=
  mkDOMObserver (observer s) (useCharData s) (dirtyAfterChange s)
    (charDataQueue s) (charDataTimeout s) (active s)
    (listening s) (observing s) (pendingRecords s) (charDataListener s) (selectionListener s)
    (focusListeners s) (observedElements s) (intersectionQueue s) (timers s) (nextTimer s)
    (dirty s) (calls s ++ [c]).

(** *** Host primitives *)

(** [setTimeout(() => this.flush(), 20)]: a fresh handle, now pending. *)
Definition setTimeout (s : DOMObserver) : DOMObserver * nat :=
  let id := nextTimer s in
  (setTimers (id :: timers s) (S id) s, id).

(** [clearTimeout(handle)]; a null handle is ignored. *)
Definition clearTimeout (handle : option nat) (s : DOMObserver) : DOMObserver :=
  match handle with
  | Some id => setTimers (List.filter (fun i => negb (Nat.eqb i id)) (timers s)) (nextTimer s) s
  | None => s
  end.

(** [this.observer.takeRecords()]: returns the record queue and empties it. *)
Definition takeRecords (s : DOMObserver) : DOMObserver * list MutationRecord :=
  (setPendingRecords [] s, pendingRecords s).

(** [this.observer.disconnect()]: stops observation; the record queue is
    emptied. *)
Definition disconnect (s : DOMObserver) : DOMObserver :=
  setPendingRecords [] (setObserving false s).

(** Modelled from the spec: [markDirty] of the view descriptors (file
    viewdesc, not at hand) marks the descriptor, which makes [docView.dirty]
    truthy. *)
Definition markDirty (s : DOMObserver) : DOMObserver := setDirty true s.

(** Modelled from the spec: [docView.sync()] (file viewdesc, not at hand)
    resyncs the view tree, after which no dirty mark is left. *)
Definition sync (s : DOMObserver) : DOMObserver := setDirty false (call DocViewSync s).

(** [this.onDOMChange(from, to)]: the caller's handler runs; of its effects
    the observer later reads only [docView.dirty]. *)
Definition notifyDOMChange (from to : Z) (s : DOMObserver) : DOMObserver :=
  setDirty (dirtyAfterChange s (dirty s)) (call (OnDOMChange from to) s).

(** *** readMutation *)

Definition readMutation (t : Tree) (s : DOMObserver) (rec : MutationRecord)
  : DOMObserver * option Range :=
  match nearest t (target rec) with
  | None => (s, None)
  | Some desc =>
      let s := markDirty s in
      match type rec with
      | childList =>
          let childBefore :=
            findChild t desc (orElse (recPreviousSibling rec) (previousSibling t (target rec))) (-1) in
          let childAfter :=
            findChild t desc (orElse (recNextSibling rec) (nextSibling t (target rec))) 1 in
          (s, Some {| from := match childBefore with
                              | Some c => posAfter t desc c
                              | None => posAtStart t desc
                              end;
                      to := match childAfter with
                            | Some c => posBefore t desc c
                            | None => posAtEnd t desc
                            end |})
      | characterData =>
          (s, Some {| from := posAtStart t desc; to := posAtEnd t desc |})
      end
  end.

(** *** applyMutations *)

(** Lines 100-105: the legacy queue is folded into the batch. *)
Definition drainCharData (s : DOMObserver) (records : list MutationRecord)
  : DOMObserver * list MutationRecord :=
  match charDataQueue s with
  | [] => (s, records)
  | _ :: _ =>
      let s1 := clearTimeout (charDataTimeout s) s in
      let s2 := setCharDataTimeout None s1 in
      let records := records ++ charDataQueue s2 in
      (setCharDataQueue [] s2, records)
  end.

(** Body of the [for] loop, once [range] has been read. *)
Definition accumulate (acc : Z * Z) (range : option Range) : Z * Z :=
  match range with
  | None => acc
  | Some r =>
      if fst acc =? -1 then (from r, to r)
      else (Z.min (from r) (fst acc), Z.max (to r) (snd acc))
  end.

(** The [for] loop over the records. *)
Fixpoint readRecords (t : Tree) (s : DOMObserver) (records : list MutationRecord) (acc : Z * Z)
  : DOMObserver * (Z * Z) :=
  match records with
  | [] => (s, acc)
  | rec :: rest =>
      let '(s', range) := readMutation t s rec in
      readRecords t s' rest (accumulate acc range)
  end.

Definition applyMutations (t : Tree) (s : DOMObserver) (records : list MutationRecord)
  : DOMObserver * bool :=
  let '(s, records) := drainCharData s records in
  match records with
  | [] => (s, false)
  | _ :: _ =>
      let '(s, (from, to)) := readRecords t s records (-1, -1) in
      let apply := (-1 <? from) && active s in
      let s := if apply then notifyDOMChange from to s else s in
      let s := if dirty s then sync s else s in
      (s, apply)
  end.

Definition flush (t : Tree) (s : DOMObserver) : DOMObserver * bool :=
  let '(s, records) := if observer s then takeRecords s else (s, []) in
  applyMutations t s records.

(** *** Lifecycle *)

Definition start (s : DOMObserver) : DOMObserver :=
  if active s then s
  else
    let s := if observer s then setObserving true s else s in
    let s := if useCharData s then setCharDataListener true s else s in
    let s := setIntersectionQueue [] s in
    setActive true s.

Definition stop (t : Tree) (s : DOMObserver) : DOMObserver :=
  if negb (active s) then s
  else
    let s := setActive false s in
    let s := if observer s then disconnect (fst (flush t s)) else s in
    if useCharData s then setCharDataListener false s else s.

(** How a statement completes: normally, or by raising a value. *)
Inductive Completion (E : Type) := Normal | Throw (e : E).
Arguments Normal {E}.
Arguments Throw {E} e.

(** [try { this.stop(); f() } finally { this.start() }].  The action [f]
    is any caller code: it may change the observer in any way and may
    raise. *)
Definition withoutListening {E} (t : Tree) (f : DOMObserver -> DOMObserver * Completion E)
  (s : DOMObserver) : DOMObserver * Completion E :=
  let s := stop t s in
  let '(s, outcome) := f s in
  (start s, outcome).

(** *** Selection *)

(** What the DOM says when a handler runs: whether [root.activeElement] is
    [this.dom], and [hasSelection(this.dom)]. *)
Record Env := mkEnv { hasFocus : bool; hasSelection : bool }.

Definition readSelection (t : Tree) (env : Env) (s : DOMObserver) : DOMObserver :=
  if negb (active s) || negb (hasFocus env) || negb (hasSelection env) then s
  else
    let '(s, applied) := flush t s in
    if negb applied then call OnSelectionChange s else s.

Definition onFocus (t : Tree) (env : Env) (s : DOMObserver) : DOMObserver :=
  if listening s then s
  else
    let s := setSelectionListener true s in
    let s := setListening true s in
    if hasSelection env then readSelection t env s else s.

Definition onBlur (s : DOMObserver) : DOMObserver :=
  if negb (listening s) then s
  else setListening false (setSelectionListener false s).

Definition listenForSelectionChanges (s : DOMObserver) : DOMObserver :=
  setFocusListeners true (setListening false s).

(** *** Legacy character data events *)

Definition onCharData (eventTarget : Node) (prevValue : option string) (s : DOMObserver)
  : DOMObserver :=
  let s := setCharDataQueue
             (charDataQueue s ++ [mkRecord eventTarget characterData None None prevValue]) s in
  match charDataTimeout s with
  | None => let '(s, id) := setTimeout s in setCharDataTimeout (Some id) s
  | Some _ => s
  end.

(** *** Intersection *)

Definition observeIntersection (dom : list Node) (s : DOMObserver) : DOMObserver :=
  setObservedElements dom (setObservedElements [] s).

Definition onIntersection (entries : list IntersectionEntry) (s : DOMObserver) : DOMObserver :=
  if existsb (fun e => bool_decide (0 < intersectionRatio e)%Qc) entries
  then call OnIntersect s else s.

(** *** Construction and teardown *)

(** The object before the constructor body runs.  [onDOMChange] is one of
    the constructor's arguments; [handler] is its effect on [docView.dirty]. *)
Definition fresh (hasMutationObserver legacy docDirty : bool) (handler : bool -> bool)
  : DOMObserver :=
  mkDOMObserver hasMutationObserver legacy handler [] None false false
    false [] false false false [] [] [] 0%nat docDirty [].

Definition construct (hasMutationObserver legacy docDirty : bool) (handler : bool -> bool)
  : DOMObserver :=
  start (listenForSelectionChanges (fresh hasMutationObserver legacy docDirty handler)).

Definition destroy (t : Tree) (s : DOMObserver) : DOMObserver :=
  setSelectionListener false (stop t s).

(** ** What the host does *)

(** The events the host can raise around one observer, and the calls its
    owner can make.  A mutation is queued by the mutation observer only
    while it is connected; a listener runs only while it is registered; a
    timeout fires only while it is pending. *)
Inductive Event :=
| Mutated (rec : MutationRecord)
| CharDataModified (eventTarget : Node) (prevValue : option string)
| RecordsDelivered
| TimerFired (id : nat)
| SelectionChanged (env : Env)
| Focused (env : Env)
| Blurred
| Intersected (entry : IntersectionEntry)
| IntersectionsDelivered
| CallStart
| CallStop
| CallFlush
| CallObserveIntersection (dom : list Node)
| CallDestroy.

Definition dispatch (t : Tree) (ev : Event) (s : DOMObserver) : DOMObserver :=
  match ev with
  | Mutated rec =>
      if observing s then setPendingRecords (pendingRecords s ++ [rec]) s else s
  | CharDataModified n v =>
      if charDataListener s then onCharData n v s else s
  | RecordsDelivered =>
      match pendingRecords s with
      | [] => s
      | _ :: _ => let '(s, records) := takeRecords s in fst (applyMutations t s records)
      end
  | TimerFired id =>
      if existsb (Nat.eqb id) (timers s)
      then fst (flush t (clearTimeout (Some id) s))
      else s
  | SelectionChanged env =>
      if selectionListener s then readSelection t env s else s
  | Focused env =>
      if focusListeners s then onFocus t env s else s
  | Blurred =>
      if focusListeners s then onBlur s else s
  | Intersected entry =>
      if existsb (Nat.eqb (entryTarget entry)) (observedElements s)
      then setIntersectionQueue (intersectionQueue s ++ [entry]) s else s
  | IntersectionsDelivered =>
      match intersectionQueue s with
      | [] => s
      | _ :: _ => onIntersection (intersectionQueue s) (setIntersectionQueue [] s)
      end
  | CallStart => start s
  | CallStop => stop t s
  | CallFlush => fst (flush t s)
  | CallObserveIntersection dom => observeIntersection dom s
  | CallDestroy => destroy t s
  end.

Fixpoint runEvents (t : Tree) (evs : list Event) (s : DOMObserver) : DOMObserver :=
  match evs with
  | [] => s
  | ev :: rest => runEvents t rest (dispatch t ev s)
  end.

(** Ways in which mutation records reach the pipeline: an explicit
    [flush()], a direct [applyMutations(records)], the mutation observer's
    callback handed [records], or a record placed in the observer's
    queue. *)
Inductive Processing :=
| ViaFlush
| ViaApplyMutations (records : list MutationRecord)
| ViaCallback (records : list MutationRecord)
| Injected (rec : MutationRecord).

Definition process (t : Tree) (p : Processing) (s : DOMObserver) : DOMObserver :=
  match p with
  | ViaFlush => fst (flush t s)
  | ViaApplyMutations records => fst (applyMutations t s records)
  | ViaCallback records => fst (applyMutations t s records)
  | Injected rec => setPendingRecords (pendingRecords s ++ [rec]) s
  end.

Fixpoint processAll (t : Tree) (ps : list Processing) (s : DOMObserver) : DOMObserver :=
  match ps with
  | [] => s
  | p :: rest => processAll t rest (process t p s)
  end.

Definition isDOMChange (c : Call) : bool :=
  match c with OnDOMChange _ _ => true | _ => false end.

Definition isSelectionChange (c : Call) : bool :=
  match c with OnSelectionChange => true | _ => false end.

Definition countCalls (p : Call -> bool) (l : list Call) : nat :=
  List.length (List.filter p l).

(** Exactly one of [onDOMChange] and [onSelectionChange] among the calls. *)
Definition exactlyOneNotification (l : list Call) : Prop :=
  (countCalls isDOMChange l + countCalls isSelectionChange l = 1)%nat.

(** "No duplicate notification" in the documentation's words: an edit
    reaches the observer as a mutation record and as a selection-change
    event; whatever the host does in between, exactly one of the two
    callbacks is called for it. *)
Definition editNotifiesOnce (t : Tree) (rec : MutationRecord) (between : list Event)
  (env : Env) (s : DOMObserver) : Prop :=
  exists extra,
    calls (runEvents t (Mutated rec :: between ++ [SelectionChanged env]) s) = calls s ++ extra /\
    exactlyOneNotification extra.

(** The range each record resolves to, in order, unresolved ones left out. *)
Definition resolved (t : Tree) (s : DOMObserver) (records : list MutationRecord) : list Range :=
  omap (fun rec => snd (readMutation t s rec)) records.

(** Several calls in a row. *)
Definition callAll (cs : list Call) (s : DOMObserver) : DOMObserver :=
  fold_left (fun s c => call c s) cs s.

(** Whether the target of a record lies under a tracked descriptor. *)
Definition tracked (t : Tree) (rec : MutationRecord) : bool :=
  match nearest t (target rec) with Some _ => true | None => false end.

(** The least start and the greatest end of a non-empty list of ranges. *)
Definition minFrom (r : Range) (rs : list Range) : Z :=
  fold_right (fun x m => Z.min (from x) m) (from r) rs.
Definition maxTo (r : Range) (rs : list Range) : Z :=
  fold_right (fun x m => Z.max (to x) m) (to r) rs.

(** The range the loop of [applyMutations] arrives at for a batch. *)
Definition mergedRange (t : Tree) (s : DOMObserver) (batch : list MutationRecord) : Z * Z :=
  snd (readRecords t s batch (-1, -1)).

(** The queue of the legacy path and its timer handle go together: an empty
    queue has no timer. *)
Definition queueTimerConsistent (s : DOMObserver) : Prop :=
  charDataQueue s = [] -> charDataTimeout s = None.

(** "Drain on stop" in the documentation's words: when the pending records
    (batched ones and the legacy queue) resolve to at least one range,
    [stop()] calls [onDOMChange] once, with a range covering all of them, and
    leaves the legacy queue empty and its timer cleared. *)
Definition drainOnStopAsDocumented (t : Tree) (s : DOMObserver) : Prop :=
  forall r rs,
    resolved t s (pendingRecords s ++ charDataQueue s) = r :: rs ->
    exists f e,
      List.filter isDOMChange (calls (stop t s))
      = List.filter isDOMChange (calls s) ++ [OnDOMChange f e] /\
      (f <= minFrom r rs) /\ (maxTo r rs <= e) /\
      charDataQueue (stop t s) = [] /\ charDataTimeout (stop t s) = None.

(** ** Predicates on traces, events and states *)

Definition isIntersect (c : Call) : bool :=
  match c with OnIntersect => true | _ => false end.

(** The events by which the host reports a change of the DOM. *)
Definition isHostMutation (ev : Event) : bool :=
  match ev with Mutated _ | CharDataModified _ _ => true | _ => false end.

Definition isDestroy (ev : Event) : bool :=
  match ev with CallDestroy => true | _ => false end.

(** The record [onCharData] queues for an event on [n] with previous value
    [v]. *)
Definition charDataRecord (e : Node * option string) : MutationRecord :=
  mkRecord (fst e) characterData None None (snd e).

(** The mutation observer is connected and the legacy listener registered
    exactly while the observer is active (and the platform has them); a
    disconnected mutation observer holds no records. *)
Definition registrationsFollowActive (s : DOMObserver) : Prop :=
  observing s = active s && observer s /\
  charDataListener s = active s && useCharData s /\
  (observing s = false -> pendingRecords s = []).

(** The selection listener is registered exactly while the focus handler
    has left [listening] set. *)
Definition selectionListenerFollowsFocus (s : DOMObserver) : Prop :=
  selectionListener s = listening s /\ focusListeners s = true.

(** ** Two concrete documents *)

(** Root element 0 with three tracked children: nodes 1, 2, 3 carry the
    descriptors A = 1, B = 2, C = 3, children of the document descriptor 0,
    at positions [0,5), [5,9), [9,14). *)
Definition childStart (c : Desc) : Z :=
  match c with 1%nat => 0 | 2%nat => 5 | 3%nat => 9 | _ => 0 end.
Definition childEnd (c : Desc) : Z :=
  match c with 1%nat => 5 | 2%nat => 9 | 3%nat => 14 | _ => 14 end.

Definition scenarioTree : Tree :=
  {| parentNode := fun n => match n with 1%nat | 2%nat | 3%nat => Some 0%nat | _ => None end;
     previousSibling := fun n => match n with 2%nat => Some 1%nat | 3%nat => Some 2%nat | _ => None end;
     nextSibling := fun n => match n with 1%nat => Some 2%nat | 2%nat => Some 3%nat | _ => None end;
     cmView := fun n => match n with 0%nat | 1%nat | 2%nat | 3%nat => Some n | _ => None end;
     nearest := fun n => match n with 0%nat | 1%nat | 2%nat | 3%nat => Some n | _ => None end;
     descParent := fun d => match d with 1%nat | 2%nat | 3%nat => Some 0%nat | _ => None end;
     descDom := fun d => match d with 0%nat | 1%nat | 2%nat | 3%nat => Some d | _ => None end;
     posAtStart := fun d => childStart d;
     posAtEnd := fun d => childEnd d;
     posBefore := fun _ c => childStart c;
     posAfter := fun _ c => childEnd c;
     nodeCount := 4 |}.

(** The removal between A and B of the scenario. *)
Definition removalBetweenAB : MutationRecord :=
  mkRecord 0%nat childList (Some 1%nat) (Some 2%nat) None.



(** A change under node 7, which lies outside every tracked subtree. *)
Definition changeOutside : MutationRecord :=
  mkRecord 7%nat childList None None None.

(** A text change inside B. *)
Definition textChangeInB : MutationRecord :=
  mkRecord 2%nat characterData None None (Some "old"%string).

(** An observer on a platform with mutation observers and without the
    legacy events, freshly constructed over a clean view. *)
Definition modern : DOMObserver := construct true false false (fun d => d).

(** The same on the legacy platform. *)
Definition legacy : DOMObserver := construct true true false (fun d => d).

(** ** Key bindings *)

Module Keymap.

(** [throw new Error(message)] or a normal return. *)
Inductive Result (A : Type) := Ok (a : A) | Error (message : string).
Arguments Ok {A} a.
Arguments Error {A} message.

Definition bind {A B} (r : Result A) (k : A -> Result B) : Result B :=
  match r with
  | Ok a => k a
  | Error e => Error e
  end.

Notation "'do' x <- e ; k" := (bind e (fun x => k))
  (at level 10, x name, e at level 100, k at level 200).

Fixpoint mapM {A B} (f : A -> Result B) (l : list A) : Result (list B) :=
  match l with
  | [] => Ok []
  | a :: rest => do b <- f a; do bs <- mapM f rest; Ok (b :: bs)
  end.

Fixpoint foldM {A S} (f : A -> S -> Result S) (l : list A) (st : S) : Result S :=
  match l with
  | [] => Ok st
  | a :: rest => do st' <- f a st; foldM f rest st'
  end.

(** Commands are functions of the caller, compared by identity; the command
    installed for a multi-stroke prefix closes over the prefix and scope. *)
Inductive Command :=
| UserCommand (id : nat)
| StorePrefix (prefix scope : string).

Record KeyBinding := mkKeyBinding {
  key : option string;
  mac : option string;
  win : option string;
  linux : option string;
  run : Command;
  shift : option Command;
  scope : option string;
  preventDefault : option bool
}.

Inductive PlatformName := onMac | onWin | onLinux | onKey.

(** *** String helpers of the JavaScript library *)

(** [s.split(/c(?!$)/)]: cut at every [c] that is not the last character. *)
Fixpoint splitNotLast (c : ascii) (s : string) : list string :=
  match s with
  | EmptyString => [EmptyString]
  | String a rest =>
      if Ascii.eqb a c && negb (String.eqb rest EmptyString)
      then EmptyString :: splitNotLast c rest
      else match splitNotLast c rest with
           | [] => [String a EmptyString]
           | p :: ps => String a p :: ps
           end
  end.

(** [s.split(c)] for a one-character string [c]. *)
Fixpoint splitAll (c : ascii) (s : string) : list string :=
  match s with
  | EmptyString => [EmptyString]
  | String a rest =>
      if Ascii.eqb a c then EmptyString :: splitAll c rest
      else match splitAll c rest with
           | [] => [String a EmptyString]
           | p :: ps => String a p :: ps
           end
  end.

(** Case folding of the [i] flag on the letters A-Z; other characters
    only match themselves. *)
Definition foldCase (a : ascii) : ascii :=
  let n := nat_of_ascii a in
  if (65 <=? n)%nat && (n <=? 90)%nat then ascii_of_nat (n + 32) else a.

Fixpoint lowercase (s : string) : string :=
  match s with
  | EmptyString => EmptyString
  | String a rest => String (foldCase a) (lowercase rest)
  end.

(** [/^(w1|w2|...)$/i.test(s)] for lower-case words. *)
Definition matchesAny (words : list string) (s : string) : bool :=
  existsb (String.eqb (lowercase s)) words.

(** JavaScript truthiness of an optional string. *)
Definition truthy (s : option string) : option string :=
  match s with
  | Some EmptyString => None
  | _ => s
  end.

(** *** normalizeKeyName *)

Record Modifiers := mkModifiers { mAlt : bool; mCtrl : bool; mShift : bool; mMeta : bool }.

Fixpoint readModifiers (platform : PlatformName) (mods : list string) (m : Modifiers)
  : Result Modifiers :=
  match mods with
  | [] => Ok m
  | modName :: rest =>
      if matchesAny ["cmd"; "meta"; "m"] modName
      then readModifiers platform rest (mkModifiers (mAlt m) (mCtrl m) (mShift m) true)
      else if matchesAny ["a"; "alt"] modName
      then readModifiers platform rest (mkModifiers true (mCtrl m) (mShift m) (mMeta m))
      else if matchesAny ["c"; "ctrl"; "control"] modName
      then readModifiers platform rest (mkModifiers (mAlt m) true (mShift m) (mMeta m))
      else if matchesAny ["s"; "shift"] modName
      then readModifiers platform rest (mkModifiers (mAlt m) (mCtrl m) true (mMeta m))
      else if matchesAny ["mod"] modName
      then match platform with
           | onMac => readModifiers platform rest (mkModifiers (mAlt m) (mCtrl m) (mShift m) true)
           | _ => readModifiers platform rest (mkModifiers (mAlt m) true (mShift m) (mMeta m))
           end
      else Error ("Unrecognized modifier name: " +:+ modName)
  end.

Definition normalizeKeyName (name : string) (platform : PlatformName) : Result string :=
  let parts := splitNotLast "-" name in
  let result := List.last parts EmptyString in
  let result := if String.eqb result "Space" then " "%string else result in
  do m <- readModifiers platform (List.removelast parts) (mkModifiers false false false false);
  let result := if mAlt m then "Alt-" +:+ result else result in
  let result := if mCtrl m then "Ctrl-" +:+ result else result in
  let result := if mMeta m then "Meta-" +:+ result else result in
  let result := if mShift m then "Shift-" +:+ result else result in
  Ok result.

(** *** buildKeymap *)

Record Binding := mkBinding { bindingPreventDefault : bool; commands : list Command }.

(** The two objects the builder fills: [bound], from scope to key to
    binding, and [isPrefix]. *)
Record Builder := mkBuilder {
  bound : gmap string (gmap string Binding);
  isPrefix : gmap string bool
}.

Definition conflictMessage (name : string) : string :=
  "Key binding " +:+ name +:+ " is used both as a regular binding and as a multi-stroke prefix".

Definition checkPrefix (name : string) (isP : bool) (st : Builder) : Result Builder :=
  match isPrefix st !! name with
  | None => Ok (mkBuilder (bound st) (<[name := isP]> (isPrefix st)))
  | Some current =>
      if Bool.eqb current isP then Ok st else Error (conflictMessage name)
  end.

(** [parts.slice(0, i).join(" ")] for [i] from 1 below [parts.length]. *)
Definition prefixesOf (parts : list string) : list string :=
  List.map (fun i => String.concat " " (take i parts)) (seq 1 (List.length parts - 1)).

(** One turn of the loop over the prefixes, on the scope object. *)
Definition addPrefix (scopeName prefix : string) (acc : gmap string Binding * Builder)
  : Result (gmap string Binding * Builder) :=
  let '(scopeObj, st) := acc in
  do st <- checkPrefix prefix true st;
  match scopeObj !! prefix with
  | Some _ => Ok (scopeObj, st)
  | None => Ok (<[prefix := mkBinding true [StorePrefix prefix scopeName]]> scopeObj, st)
  end.

Definition add (platform : PlatformName) (scopeName keyName : string) (command : Command)
  (prevent : option bool) (st : Builder) : Result Builder :=
  let scopeObj := default ∅ (bound st !! scopeName) in
  do parts <- mapM (fun k => normalizeKeyName k platform) (splitNotLast " " keyName);
  do acc <- foldM (addPrefix scopeName) (prefixesOf parts) (scopeObj, st);
  let '(scopeObj, st) := acc in
  let full := String.concat " " parts in
  do st <- checkPrefix full false st;
  let binding := default (mkBinding false []) (scopeObj !! full) in
  let binding := mkBinding (bindingPreventDefault binding) (commands binding ++ [command]) in
  let binding := match prevent with
                 | Some true => mkBinding true (commands binding)
                 | _ => binding
                 end in
  Ok (mkBuilder (<[scopeName := <[full := binding]> scopeObj]> (bound st)) (isPrefix st)).

(** [b[platform] || b.key], when truthy. *)
Definition effectiveName (platform : PlatformName) (b : KeyBinding) : option string :=
  let own := match platform with
             | onMac => mac b
             | onWin => win b
             | onLinux => linux b
             | onKey => key b
             end in
  truthy (orElse (truthy own) (key b)).

Definition scopesOf (b : KeyBinding) : list string :=
  match truthy (scope b) with
  | Some s => splitAll " " s
  | None => ["editor"%string]
  end.

(** Body of the inner loop. *)
Definition addBinding (platform : PlatformName) (name : string) (b : KeyBinding)
  (scopeName : string) (st : Builder) : Result Builder :=
  do st <- add platform scopeName name (run b) (preventDefault b) st;
  match shift b with
  | Some command => add platform scopeName ("Shift-" +:+ name) command (preventDefault b) st
  | None => Ok st
  end.

(** Body of the outer loop. *)
Definition addBindings (platform : PlatformName) (b : KeyBinding) (st : Builder) : Result Builder :=
  match effectiveName platform b with
  | None => Ok st
  | Some name => foldM (addBinding platform name b) (scopesOf b) st
  end.

Definition buildKeymap (bindings : list KeyBinding) (platform : PlatformName)
  : Result (gmap string (gmap string Binding)) :=
  do st <- foldM (addBindings platform) bindings (mkBuilder ∅ ∅);
  Ok (bound st).

(** *** getKeymap and the keydown handler *)

(** The editor state belongs to the state package; of it only the value of
    the [keymap] facet is read.  A facet defined without a combining
    function holds the array of the values it was given; [facetId] is the
    identity of that array, the key of the [Keymaps] weak map. *)
Record EditorState := mkEditorState {
  facetId : nat;
  keymapFacet : list (list KeyBinding)
}.

(** Installing key bindings: the state is created with the bindings as the
    facet's inputs.  Nothing of this file runs at that point: [keymap] is
    defined with [enables: handleKeyEvents] only, and [getKeymap] and
    [buildKeymap] are private to the file, reached from the [keydown]
    handler and from [runScopeHandlers], which both take a key event. *)
Definition configure (id : nat) (keymaps : list (list KeyBinding)) : Result EditorState :=
  Ok (mkEditorState id keymaps).

Definition getKeymap (platform : PlatformName) (state : EditorState)
  (Keymaps : gmap nat (gmap string (gmap string Binding)))
  : Result (gmap string (gmap string Binding)) * gmap nat (gmap string (gmap string Binding)) :=
  match Keymaps !! facetId state with
  | Some map => (Ok map, Keymaps)
  | None =>
      match buildKeymap (concat (keymapFacet state)) platform with
      | Ok map => (Ok map, <[facetId state := map]> Keymaps)
      | Error e => (Error e, Keymaps)
      end
  end.

(** The [keydown] handler of [handleKeyEvents].  [runHandlers] consults
    tables of the keyname package and runs the caller's commands; it is
    taken as a parameter. *)
Definition keydown {Ev} (runHandlers : gmap string (gmap string Binding) -> Ev -> string -> bool)
  (platform : PlatformName) (state : EditorState)
  (Keymaps : gmap nat (gmap string (gmap string Binding))) (event : Ev)
  : Result bool * gmap nat (gmap string (gmap string Binding)) :=
  match getKeymap platform state Keymaps with
  | (Ok map, Keymaps) => (Ok (runHandlers map event "editor"%string), Keymaps)
  | (Error e, Keymaps) => (Error e, Keymaps)
  end.

(** [runScopeHandlers(view, event, scope)]. *)
Definition runScopeHandlers {Ev}
  (runHandlers : gmap string (gmap string Binding) -> Ev -> string -> bool)
  (platform : PlatformName) (state : EditorState)
  (Keymaps : gmap nat (gmap string (gmap string Binding))) (event : Ev) (scopeName : string)
  : Result bool * gmap nat (gmap string (gmap string Binding)) :=
  match getKeymap platform state Keymaps with
  | (Ok map, Keymaps) => (Ok (runHandlers map event scopeName), Keymaps)
  | (Error e, Keymaps) => (Error e, Keymaps)
  end.

(** Key events handled one after the other, the cache passed along. *)
Fixpoint keydowns {Ev} (runHandlers : gmap string (gmap string Binding) -> Ev -> string -> bool)
  (platform : PlatformName) (state : EditorState)
  (Keymaps : gmap nat (gmap string (gmap string Binding))) (events : list Ev)
  : list (Result bool) * gmap nat (gmap string (gmap string Binding)) :=
  match events with
  | [] => ([], Keymaps)
  | event :: rest =>
      let '(r, Keymaps) := keydown runHandlers platform state Keymaps event in
      let '(rs, Keymaps) := keydowns runHandlers platform state Keymaps rest in
      (r :: rs, Keymaps)
  end.

(** *** Modifier names *)

(** A stroke one of whose modifiers is none of the recognised names. *)
Definition recognised (modName : string) : bool :=
  matchesAny ["cmd"; "meta"; "m"; "a"; "alt"; "c"; "ctrl"; "control"; "s"; "shift"; "mod"] modName.

Definition strokeHasUnknownModifier (stroke : string) : bool :=
  existsb (fun modName => negb (recognised modName)) (List.removelast (splitNotLast "-" stroke)).

Definition descriptive (message : string) : Prop :=
  (exists modName, message = "Unrecognized modifier name: " +:+ modName) \/
  (exists name, message = conflictMessage name).

(** [isPrefix] only grows: what a builder state records stays recorded. *)
Definition extends (st st' : Builder) : Prop :=
  forall name v, isPrefix st !! name = Some v -> isPrefix st' !! name = Some v.

(** The key sequence [parts] has been added: its full name is recorded as a
    regular binding and each proper beginning as a prefix. *)
Definition registered (parts : list string) (st : Builder) : Prop :=
  isPrefix st !! String.concat " " parts = Some false /\
  forall prefix, In prefix (prefixesOf parts) -> isPrefix st !! prefix = Some true.

(** The boundary contract in the documentation's words: installing
    malformed bindings fails, with a descriptive error. *)
Definition rejectedAtSetup (keymaps : list (list KeyBinding)) : Prop :=
  forall id, exists message, configure id keymaps = Error message /\ descriptive message.

(** *** Sample bindings *)

Definition plain (k : string) (id : nat) : KeyBinding :=
  mkKeyBinding (Some k) None None None (UserCommand id) None None None.

Definition unknownModifierBinding : KeyBinding := plain "Hyper-x" 0.
Definition saveChord : list KeyBinding := [plain "Ctrl-x" 1; plain "Ctrl-x Ctrl-s" 2].

(** *** Talking about key names *)

(** Whether the character [c] occurs in [s]. *)
Fixpoint hasChar (c : ascii) (s : string) : bool :=
  match s with
  | EmptyString => false
  | String a rest => Ascii.eqb a c || hasChar c rest
  end.

(** The key name [m1-m2-...-k]. *)
Definition withModifiers (mods : list string) (k : string) : string :=
  fold_right (fun m acc => m +:+ String "-" acc) k mods.

(** Which modifier a name stands for: the chain of tests in the loop of
    [normalizeKeyName], in its order. *)
Inductive ModKind := kMeta | kAlt | kCtrl | kShift.

Definition modifierKind (platform : PlatformName) (modName : string) : option ModKind :=
  if matchesAny ["cmd"; "meta"; "m"] modName then Some kMeta
  else if matchesAny ["a"; "alt"] modName then Some kAlt
  else if matchesAny ["c"; "ctrl"; "control"] modName then Some kCtrl
  else if matchesAny ["s"; "shift"] modName then Some kShift
  else if matchesAny ["mod"] modName
  then Some (match platform with onMac => kMeta | _ => kCtrl end)
  else None.

Definition setKind (m : Modifiers) (k : ModKind) : Modifiers :=
  match k with
  | kMeta => mkModifiers (mAlt m) (mCtrl m) (mShift m) true
  | kAlt => mkModifiers true (mCtrl m) (mShift m) (mMeta m)
  | kCtrl => mkModifiers (mAlt m) true (mShift m) (mMeta m)
  | kShift => mkModifiers (mAlt m) (mCtrl m) true (mMeta m)
  end.

(** The modifier names [normalizeKeyName] writes, in the order in which
    they end up in the result. *)
Definition writtenModifiers (m : Modifiers) : list string :=
  (if mShift m then ["Shift"%string] else []) ++ (if mMeta m then ["Meta"%string] else [])
  ++ (if mCtrl m then ["Ctrl"%string] else []) ++ (if mAlt m then ["Alt"%string] else []).

(** *** The calls of [add] a list of bindings stands for *)

(** One call [add(scope, key, command, preventDefault)]. *)
Record Addition := mkAddition {
  addScope : string;
  addKey : string;
  addCommand : Command;
  addPrevent : option bool
}.

Definition addOne (platform : PlatformName) (a : Addition) (st : Builder) : Result Builder :=
  add platform (addScope a) (addKey a) (addCommand a) (addPrevent a) st.

(** The calls made for one scope of a binding: its command, then its
    [shift] command under the name prefixed with [Shift-]. *)
Definition additionsIn (b : KeyBinding) (name scopeName : string) : list Addition :=
  mkAddition scopeName name (run b) (preventDefault b)
  :: match shift b with
     | Some command => [mkAddition scopeName ("Shift-" +:+ name) command (preventDefault b)]
     | None => []
     end.

Definition additionsOf (platform : PlatformName) (b : KeyBinding) : list Addition :=
  match effectiveName platform b with
  | None => []
  | Some name => flat_map (additionsIn b name) (scopesOf b)
  end.

(** All calls of [add] that [buildKeymap] makes, in order. *)
Definition additions (platform : PlatformName) (bindings : list KeyBinding) : list Addition :=
  flat_map (additionsOf platform) bindings.

(** The normalized strokes of a key name. *)
Definition strokes (platform : PlatformName) (name : string) : list string :=
  match mapM (fun k => normalizeKeyName k platform) (splitNotLast " " name) with
  | Ok parts => parts
  | Error _ => []
  end.

Definition fullName (platform : PlatformName) (a : Addition) : string :=
  String.concat " " (strokes platform (addKey a)).

Definition prefixNames (platform : PlatformName) (a : Addition) : list string :=
  prefixesOf (strokes platform (addKey a)).

(** *** What the documentation calls malformed *)

(** A key name that [buildKeymap] hands to [add] -- the name of a binding
    or, where [shift] is given, that name prefixed with [Shift-] -- has a
    stroke with an unrecognised modifier. *)
Definition hasUnknownModifier (platform : PlatformName) (bindings : list KeyBinding) : Prop :=
  exists a stroke,
    In a (additions platform bindings) /\
    In stroke (splitNotLast " " (addKey a)) /\ strokeHasUnknownModifier stroke = true.

(** A key sequence bound as a command by one call of [add] and used as the
    proper beginning of the sequence of another. *)
Definition hasPrefixConflict (platform : PlatformName) (bindings : list KeyBinding) : Prop :=
  exists a1 a2 parts1 parts2,
    In a1 (additions platform bindings) /\ In a2 (additions platform bindings) /\
    mapM (fun k => normalizeKeyName k platform) (splitNotLast " " (addKey a1)) = Ok parts1 /\
    mapM (fun k => normalizeKeyName k platform) (splitNotLast " " (addKey a2)) = Ok parts2 /\
    In (String.concat " " parts1) (prefixesOf parts2).

Definition malformed (platform : PlatformName) (bindings : list KeyBinding) : Prop :=
  hasUnknownModifier platform bindings \/ hasPrefixConflict platform bindings.

(** A binding with a [shift] command, and a sequence that begins with the
    key of that command. *)
Definition shiftConflict : list KeyBinding :=
  [mkKeyBinding (Some "x"%string) None None None (UserCommand 1) (Some (UserCommand 2)) None None;
   plain "Shift-x y" 3].

(** The addition binds its command to [name] in [scopeName]. *)
Definition bindsKey (platform : PlatformName) (scopeName name : string) (a : Addition) : bool :=
  String.eqb (addScope a) scopeName && String.eqb (fullName platform a) name.

(** [name] is a proper beginning of the addition's key sequence in [scopeName]. *)
Definition passesThrough (platform : PlatformName) (scopeName name : string) (a : Addition) : bool :=
  String.eqb (addScope a) scopeName && existsb (String.eqb name) (prefixNames platform a).

Definition prevents (a : Addition) : bool :=
  match addPrevent a with
  | Some true => true
  | _ => false
  end.

(** [map[scope]] and, when that is an object, its property [name]. *)
Definition bindingFor (map : gmap string (gmap string Binding)) (scopeName name : string)
  : option Binding :=
  match map !! scopeName with
  | Some scopeObj => scopeObj !! name
  | None => None
  end.

(** What a keymap holds for a key, told from the list of additions: the
    commands bound to exactly that key in that scope, in the order of the
    additions; failing those, the prefix command when the key begins a
    longer sequence. *)
Definition expectedBinding (platform : PlatformName) (adds : list Addition)
  (scopeName name : string) : option Binding :=
  match List.filter (bindsKey platform scopeName name) adds with
  | [] => if existsb (passesThrough platform scopeName name) adds
          then Some (mkBinding true [StorePrefix name scopeName])
          else None
  | direct => Some (mkBinding (existsb prevents direct) (List.map addCommand direct))
  end.

(** What holds of the builder after the additions [adds]. *)
Definition keymapInvariant (platform : PlatformName) (adds : list Addition) (st : Builder)
  : Prop :=
  (forall a, In a adds -> registered (strokes platform (addKey a)) st) /\
  (forall scopeName name,
      bindingFor (bound st) scopeName name = expectedBinding platform adds scopeName name).

(** Every stroke of every addition has recognised modifiers only. *)
Definition knownModifiers (adds : list Addition) : Prop :=
  forall a stroke, In a adds -> In stroke (splitNotLast " " (addKey a)) ->
    strokeHasUnknownModifier stroke = false.

(** No addition's key sequence is a proper beginning of an addition's. *)
Definition noPrefixConflict (platform : PlatformName) (adds : list Addition) : Prop :=
  forall a1 a2, In a1 adds -> In a2 adds ->
    ~ In (fullName platform a1) (prefixNames platform a2).

(** Every entry of [isPrefix] comes from one of the additions [adds]. *)
Definition soundPrefixes (platform : PlatformName) (adds : list Addition) (st : Builder)
  : Prop :=
  forall name v, isPrefix st !! name = Some v ->
    exists a, In a adds /\
      if v : bool then In name (prefixNames platform a) else fullName platform a = name.

(** Bindings with two chords on [Ctrl-x], one of them bound twice, and a
    binding with a [shift] command in two scopes. *)
Definition chords : list KeyBinding :=
  [plain "Ctrl-x Ctrl-s" 2;
   mkKeyBinding (Some "Mod-s"%string) None None None (UserCommand 4) (Some (UserCommand 5))
     (Some "editor search"%string) (Some true);
   plain "c-x C-f" 3;
   plain "Ctrl-x Ctrl-s" 6].


(** *** modifiers and runHandlers *)

(** Of a keyboard event the handlers read the key code and the four modifier
    flags; everything else of it goes through [keyName]. *)
Record KeyboardEvent := mkKeyboardEvent {
  keyCode : nat;
  altKey : bool;
  ctrlKey : bool;
  metaKey : bool;
  shiftKey : bool;
  eventKey : string
}.

Definition modifiers (name : string) (event : KeyboardEvent) (withShift : bool) : string :=
  let name := if altKey event then "Alt-" +:+ name else name in
  let name := if ctrlKey event then "Ctrl-" +:+ name else name in
  let name := if metaKey event then "Meta-" +:+ name else name in
  let name := if withShift && shiftKey event then "Shift-" +:+ name else name in
  name.

(** The object [{view, prefix, scope}] held by [storedPrefix]; [spObject]
    is its identity, which the timeout compares. *)
Record StoredPrefix := mkStoredPrefix {
  spObject : nat;
  spView : nat;
  spPrefix : string;
  spScope : string
}.

Definition PrefixTimeout : Z := 4000.

(** A string operand that may be [undefined], as [+] renders it. *)
Definition jsText (s : option string) : string := default "undefined"%string s.

Definition sameText (a b : option string) : bool :=
  match a, b with
  | Some x, Some y => String.eqb x y
  | None, None => true
  | _, _ => false
  end.

Section RunHandlers.

(** The state of the caller's commands, and the commands themselves: a
    command is run on a view and answers whether it handled the key.
    Commands are taken not to dispatch key events themselves. *)
Context {World : Type}.
Variable runUser : nat -> nat -> World -> World * bool.

(** The key name package and the tables of the input module. *)
Variable keyName : KeyboardEvent -> string.
Variable codePointAt : string -> nat.
Variable codePointSize : nat -> nat.
Variable base : nat -> option string.
Variable shiftTable : nat -> option string.
Variable modifierCodes : list nat.

(** The module's variable [storedPrefix], the timeouts it has pending, and
    the commands called so far, each with the view it was called on. *)
Record Handlers := mkHandlers {
  storedPrefix : option StoredPrefix;
  objects : nat;
  timeouts : list (nat * Z);
  world : World;
  called : list (Command * nat)
}.

Definition setStoredPrefix (p : option StoredPrefix) (st : Handlers) : Handlers :=
  mkHandlers p (objects st) (timeouts st) (world st) (called st).

(** [cmd(view)]. *)
Definition runCommand (view : nat) (cmd : Command) (st : Handlers) : Handlers * bool :=
  match cmd with
  | UserCommand id =>
      let '(w, handled) := runUser id view (world st) in
      (mkHandlers (storedPrefix st) (objects st) (timeouts st) w (called st ++ [(cmd, view)]),
       handled)
  | StorePrefix prefix scopeName =>
      let ourObj := mkStoredPrefix (objects st) view prefix scopeName in
      (mkHandlers (Some ourObj) (S (objects st)) (timeouts st ++ [(objects st, PrefixTimeout)])
         (world st) (called st ++ [(cmd, view)]),
       true)
  end.

(** The function given to [setTimeout] by the prefix command for [ourObj]. *)
Definition prefixTimeout (ourObj : nat) (st : Handlers) : Handlers :=
  let st := mkHandlers (storedPrefix st) (objects st)
              (List.filter (fun t => negb (Nat.eqb (fst t) ourObj)) (timeouts st))
              (world st) (called st) in
  match storedPrefix st with
  | Some sp => if Nat.eqb (spObject sp) ourObj then setStoredPrefix None st else st
  | None => st
  end.

(** [for (let cmd of binding.commands) if (cmd(view)) return true]. *)
Fixpoint runCommands (view : nat) (cmds : list Command) (st : Handlers) : Handlers * bool :=
  match cmds with
  | [] => (st, false)
  | cmd :: rest =>
      let '(st, handled) := runCommand view cmd st in
      if handled then (st, true) else runCommands view rest st
  end.

(** [runFor]; the variable [fallthrough] it assigns is passed in and out. *)
Definition runFor (view : nat) (binding : option Binding) (st : Handlers) (fallthrough : bool)
  : Handlers * bool * bool :=
  match binding with
  | Some b =>
      let '(st, handled) := runCommands view (commands b) st in
      if handled then (st, fallthrough, true)
      else (st, if bindingPreventDefault b then true else fallthrough, false)
  | None => (st, fallthrough, false)
  end.

Definition isChar (event : KeyboardEvent) : bool :=
  let name := keyName event in
  Nat.eqb (codePointSize (codePointAt name)) (String.length name)
  && negb (String.eqb name " ").

(** The first block of [runHandlers]: the prefix to look under, the initial
    [fallthrough], and the state after [storedPrefix = null]. *)
Definition takePrefix (event : KeyboardEvent) (view : nat) (scopeName : string) (st : Handlers)
  : string * bool * Handlers :=
  match storedPrefix st with
  | Some sp =>
      if Nat.eqb (spView sp) view && String.eqb (spScope sp) scopeName
      then let fallthrough := negb (existsb (Nat.eqb (keyCode event)) modifierCodes) in
           (spPrefix sp +:+ " ", fallthrough,
            if fallthrough then setStoredPrefix None st else st)
      else (EmptyString, false, st)
  | None => (EmptyString, false, st)
  end.

Definition runHandlers (map : gmap string (gmap string Binding)) (event : KeyboardEvent)
  (view : nat) (scopeName : string) (st : Handlers) : Handlers * bool :=
  let name := keyName event in
  let charCode := codePointAt name in
  let '(prefix, fallthrough, st) := takePrefix event view scopeName st in
  match map !! scopeName with
  | None => (st, fallthrough)
  | Some scopeObj =>
      let '(st, fallthrough, handled) :=
        runFor view (scopeObj !! (prefix +:+ modifiers name event (negb (isChar event))))
          st fallthrough in
      if handled then (st, true) else
      let otherwise :=
        if isChar event && shiftKey event
        then let '(st, fallthrough, handled) :=
               runFor view (scopeObj !! (prefix +:+ modifiers name event true)) st fallthrough in
             if handled then (st, true) else (st, fallthrough)
        else (st, fallthrough) in
      if isChar event
         && (shiftKey event || altKey event || metaKey event || Nat.ltb 127 charCode)
      then match truthy (base (keyCode event)) with
           | Some baseName =>
               if negb (String.eqb baseName name)
               then
                 let '(st, fallthrough, handled) :=
                   runFor view (scopeObj !! (prefix +:+ modifiers baseName event true))
                     st fallthrough in
                 if handled then (st, true) else
                 if shiftKey event
                    && negb (sameText (shiftTable (keyCode event)) (Some baseName))
                 then
                   let '(st, fallthrough, handled) :=
                     runFor view
                       (scopeObj !! (prefix +:+
                                     modifiers (jsText (shiftTable (keyCode event))) event false))
                       st fallthrough in
                   if handled then (st, true) else (st, fallthrough)
                 else (st, fallthrough)
               else otherwise
           | None => otherwise
           end
      else otherwise
  end.

(** The key names [runHandlers] may look up for an event, each after the
    prefix. *)
Definition candidates (event : KeyboardEvent) : list string :=
  let name := keyName event in
  modifiers name event (negb (isChar event))
  :: modifiers name event true
  :: modifiers (jsText (shiftTable (keyCode event))) event false
  :: match truthy (base (keyCode event)) with
     | Some baseName => [modifiers baseName event true]
     | None => []
     end.

End RunHandlers.

Arguments Handlers World : clear implicits.

(** How a later state relates to an earlier one: the stored prefix is the
    same or an object created in between, and so are the timeouts. *)
Definition prefixFrom {World} (st st' : Handlers World) : Prop :=
  (objects st <= objects st')%nat /\
  (storedPrefix st' = storedPrefix st \/
   exists sp, storedPrefix st' = Some sp /\ (objects st <= spObject sp < objects st')%nat) /\
  (forall t, In t (timeouts st') ->
             In t (timeouts st) \/ (objects st <= fst t < objects st')%nat).

(** The calls [ran] were made on [view] with commands bound in [scopeName]. *)
Definition fromScope (map : gmap string (gmap string Binding)) (view : nat) (scopeName : string)
  (ran : list (Command * nat)) : Prop :=
  forall cmd v, In (cmd, v) ran ->
    v = view /\ exists name b, bindingFor map scopeName name = Some b /\ In cmd (commands b).

(** What happens to the handlers: a key event is run through a keymap for
    a view and scope, or a prefix timeout fires. *)
Inductive HandlerEvent :=
| KeyDown (map : gmap string (gmap string Binding)) (event : KeyboardEvent) (view : nat)
    (scopeName : string)
| TimeoutFired (ourObj : nat).

Section HandlerEvents.

Context {World : Type}.
Variable runUser : nat -> nat -> World -> World * bool.
Variable keyName : KeyboardEvent -> string.
Variable codePointAt : string -> nat.
Variable codePointSize : nat -> nat.
Variable base : nat -> option string.
Variable shiftTable : nat -> option string.
Variable modifierCodes : list nat.

Definition handle (ev : HandlerEvent) (st : Handlers World) : Handlers World :=
  match ev with
  | KeyDown map event view scopeName =>
      fst (runHandlers runUser keyName codePointAt codePointSize base shiftTable modifierCodes
             map event view scopeName st)
  | TimeoutFired ourObj => prefixTimeout ourObj st
  end.

Definition handleAll (evs : list HandlerEvent) (st : Handlers World) : Handlers World :=
  fold_left (fun st ev => handle ev st) evs st.

End HandlerEvents.

(** The module as loaded: [storedPrefix] is null and no timeout is pending. *)
Definition initialHandlers {World} (w : World) : Handlers World := mkHandlers None 0 [] w [].

(** Object identities in use are below the next one to be given out. *)
Definition freshObjects {World} (st : Handlers World) : Prop :=
  (forall sp, storedPrefix st = Some sp -> (spObject sp < objects st)%nat) /\
  (forall t, In t (timeouts st) -> (fst t < objects st)%nat).

(** *** A sample host *)

(** Commands that record their identity in the world and handle the key
    when that identity is even; key names read from [event.key]. *)
Definition sampleRunUser (id view : nat) (w : list nat) : list nat * bool :=
  (w ++ [id], Nat.even id).

Definition sampleKeyName (event : KeyboardEvent) : string := eventKey event.

Definition sampleCodePointAt (s : string) : nat :=
  match s with
  | String a _ => nat_of_ascii a
  | EmptyString => 0
  end.

Definition sampleCodePointSize (code : nat) : nat := 1.

Definition sampleTable (code : nat) : option string := None.

Definition sampleModifierCodes : list nat := [16; 17; 18; 20; 91; 92; 224; 225]%nat.

Definition sampleRunHandlers :=
  runHandlers sampleRunUser sampleKeyName sampleCodePointAt sampleCodePointSize
    sampleTable sampleTable sampleModifierCodes.

Definition press (code : nat) (ctrl : bool) (k : string) : KeyboardEvent :=
  mkKeyboardEvent code false ctrl false false k.

(** The shift key going down. *)
Definition pressShift : KeyboardEvent := mkKeyboardEvent 16 false false false true "Shift".

(** Three spellings of one key, bound to three commands. *)
Definition saves : list KeyBinding := [plain "Ctrl-s" 1; plain "c-s" 4; plain "Control-s" 6].

(** The keymap built from [bindings] where there is no platform property. *)
Definition built (bindings : list KeyBinding) : gmap string (gmap string Binding) :=
  match buildKeymap bindings onKey with
  | Ok map => map
  | Error _ => ∅
  end.

(** A prefix stored for view 0 in the editor scope, its timeout pending. *)
Definition afterCtrlX : Handlers (list nat) :=
  mkHandlers (Some (mkStoredPrefix 0 0 "Ctrl-x" "editor")) 1 [(0%nat, PrefixTimeout)] [] [].

End Keymap.


(** * Properties *)

Import Keymap.

(** ** Frame lemmas for the observer *)

Lemma setDirty_same (s : DOMObserver) : setDirty (dirty s) s = s.
Proof. destruct s; reflexivity. Qed.

Lemma setDirty_twice (a b : bool) (s : DOMObserver) : setDirty a (setDirty b s) = setDirty a s.
Proof. reflexivity. Qed.

Lemma readMutation_fst (t : Tree) (s : DOMObserver) (rec : MutationRecord) :
  fst (readMutation t s rec) = setDirty (dirty s || tracked t rec) s.
Proof.
  unfold readMutation, tracked.
  destruct (nearest t (target rec)) as [desc|]; simpl.
  - rewrite orb_true_r. destruct (type rec); reflexivity.
  - rewrite orb_false_r. symmetry. apply setDirty_same.
Qed.

Lemma readMutation_snd_indep (t : Tree) (s s' : DOMObserver) (rec : MutationRecord) :
  snd (readMutation t s rec) = snd (readMutation t s' rec).
Proof.
  unfold readMutation.
  destruct (nearest t (target rec)); [destruct (type rec)|]; reflexivity.
Qed.

Lemma readMutation_untracked (t : Tree) (s : DOMObserver) (rec : MutationRecord) :
  tracked t rec = false -> snd (readMutation t s rec) = None.
Proof.
  unfold readMutation, tracked. destruct (nearest t (target rec)); [discriminate|reflexivity].
Qed.

Lemma readMutation_tracked (t : Tree) (s : DOMObserver) (rec : MutationRecord) :
  tracked t rec = true -> exists r, snd (readMutation t s rec) = Some r.
Proof.
  unfold readMutation, tracked.
  destruct (nearest t (target rec)); [|discriminate].
  intros _. destruct (type rec); eexists; reflexivity.
Qed.

Lemma readRecords_fst (t : Tree) (records : list MutationRecord) :
  forall s acc,
    fst (readRecords t s records acc) = setDirty (dirty s || existsb (tracked t) records) s.
Proof.
  induction records as [|rec rest IH]; intros s acc; simpl.
  - rewrite orb_false_r. symmetry. apply setDirty_same.
  - pose proof (readMutation_fst t s rec) as Hf.
    destruct (readMutation t s rec) as [s' range]; simpl in Hf; subst s'.
    rewrite IH. simpl. rewrite orb_assoc. reflexivity.
Qed.

Lemma readRecords_snd (t : Tree) (records : list MutationRecord) :
  forall s s0 acc,
    snd (readRecords t s records acc)
    = fold_left accumulate (List.map (fun rec => snd (readMutation t s0 rec)) records) acc.
Proof.
  induction records as [|rec rest IH]; intros s s0 acc; simpl; [reflexivity|].
  pose proof (readMutation_snd_indep t s s0 rec) as Hs.
  destruct (readMutation t s rec) as [s' range]; simpl in Hs; subst range.
  apply IH.
Qed.

Lemma mergedRange_indep (t : Tree) (s s' : DOMObserver) (batch : list MutationRecord) :
  mergedRange t s batch = mergedRange t s' batch.
Proof. unfold mergedRange. rewrite (readRecords_snd t batch s s'), (readRecords_snd t batch s' s'). reflexivity. Qed.

Lemma resolved_indep (t : Tree) (s s' : DOMObserver) (records : list MutationRecord) :
  resolved t s records = resolved t s' records.
Proof.
  unfold resolved. induction records as [|rec rest IH]; simpl; [reflexivity|].
  rewrite (readMutation_snd_indep t s s' rec).
  destruct (snd (readMutation t s' rec)); [f_equal|]; exact IH.
Qed.

(** ** The pipeline, step by step *)

Lemma drainCharData_eq (s : DOMObserver) (records : list MutationRecord) :
  drainCharData s records =
  match charDataQueue s with
  | [] => (s, records)
  | _ :: _ =>
      (setCharDataQueue [] (setCharDataTimeout None (clearTimeout (charDataTimeout s) s)),
       records ++ charDataQueue s)
  end.
Proof.
  unfold drainCharData. destruct (charDataQueue s) eqn:Hq; [reflexivity|].
  f_equal. f_equal. destruct (charDataTimeout s); simpl; exact Hq.
Qed.

Lemma clearTimeout_frame (h : option nat) (s : DOMObserver) :
  active (clearTimeout h s) = active s /\ dirty (clearTimeout h s) = dirty s /\
  calls (clearTimeout h s) = calls s /\ charDataQueue (clearTimeout h s) = charDataQueue s /\
  observer (clearTimeout h s) = observer s /\ pendingRecords (clearTimeout h s) = pendingRecords s.
Proof. destruct h; simpl; repeat split; reflexivity. Qed.

Lemma drainCharData_frame (s : DOMObserver) (records : list MutationRecord) :
  let s1 := fst (drainCharData s records) in
  active s1 = active s /\ dirty s1 = dirty s /\ calls s1 = calls s /\
  observer s1 = observer s /\ pendingRecords s1 = pendingRecords s /\
  dirtyAfterChange s1 = dirtyAfterChange s.
Proof.
  rewrite drainCharData_eq. destruct (charDataQueue s); simpl; [repeat split; reflexivity|].
  destruct (charDataTimeout s); simpl; repeat split; reflexivity.
Qed.

Lemma callAll_eq (cs : list Call) :
  forall s,
    callAll cs s =
    mkDOMObserver (observer s) (useCharData s) (dirtyAfterChange s)
      (charDataQueue s) (charDataTimeout s) (active s)
      (listening s) (observing s) (pendingRecords s) (charDataListener s) (selectionListener s)
      (focusListeners s) (observedElements s) (intersectionQueue s) (timers s) (nextTimer s)
      (dirty s) (calls s ++ cs).
Proof.
  unfold callAll. induction cs as [|c cs IH]; intros s; simpl.
  - rewrite app_nil_r. destruct s; reflexivity.
  - rewrite IH. simpl. rewrite <- app_assoc. reflexivity.
Qed.

(** [applyMutations] in one piece: the legacy queue is drained; for a
    non-empty batch the records are read, [onDOMChange] is called if a range
    came out and the observer is active, and the view is resynced if it is
    dirty then; no dirty mark is left. *)
Lemma applyMutations_eq (t : Tree) (s : DOMObserver) (records : list MutationRecord) :
  applyMutations t s records =
  let s1 := fst (drainCharData s records) in
  let batch := snd (drainCharData s records) in
  match batch with
  | [] => (s1, false)
  | _ :: _ =>
      let m := mergedRange t s batch in
      let d := dirty s || existsb (tracked t) batch in
      let apply := (-1 <? fst m) && active s in
      let d' := if apply then dirtyAfterChange s d else d in
      (setDirty false
         (callAll ((if apply then [OnDOMChange (fst m) (snd m)] else [])
                   ++ (if d' then [DocViewSync] else [])) s1),
       apply)
  end.
Proof.
  unfold applyMutations.
  destruct (drainCharData_frame s records) as (Ha & Hd & _ & _ & _ & Hh).
  destruct (drainCharData s records) as [s1 batch]; simpl in *.
  destruct batch as [|rec rest]; [reflexivity|].
  pose proof (readRecords_fst t (rec :: rest) s1 (-1, -1)) as Hf.
  pose proof (mergedRange_indep t s1 s (rec :: rest)) as Hm. unfold mergedRange in Hm.
  unfold mergedRange.
  destruct (readRecords t s1 (rec :: rest) (-1, -1)) as [s2 [f e]].
  cbn [fst snd] in Hf, Hm. rewrite <- Hm. subst s2. rewrite Hd. cbn [fst snd].
  set (d := dirty s || existsb (tracked t) (rec :: rest)).
  replace (active (setDirty d s1)) with (active s) by (symmetry; exact Ha).
  rewrite <- Hh.
  destruct ((-1 <? f) && active s).
  - unfold notifyDOMChange. cbn [dirty setDirty call dirtyAfterChange].
    destruct (dirtyAfterChange s1 d); reflexivity.
  - cbn [dirty setDirty]. destruct d; reflexivity.
Qed.

(** ** Merging ranges *)

Lemma accumulate_skips {A} (f : A -> option Range) (l : list A) :
  forall acc,
    fold_left accumulate (List.map f l) acc
    = fold_left accumulate (List.map Some (omap f l)) acc.
Proof.
  induction l as [|a l IH]; intros acc; simpl; [reflexivity|].
  destruct (f a) as [r|]; simpl; apply IH.
Qed.

Lemma min_step_out (a : Z) (rs : list Range) :
  forall f, fold_right (fun x m => Z.min (from x) m) (Z.min a f) rs
            = Z.min a (fold_right (fun x m => Z.min (from x) m) f rs).
Proof. induction rs as [|r rs IH]; intros f; simpl; [reflexivity|]. rewrite IH. lia. Qed.

Lemma max_step_out (a : Z) (rs : list Range) :
  forall e, fold_right (fun x m => Z.max (to x) m) (Z.max a e) rs
            = Z.max a (fold_right (fun x m => Z.max (to x) m) e rs).
Proof. induction rs as [|r rs IH]; intros e; simpl; [reflexivity|]. rewrite IH. lia. Qed.

Lemma accumulate_started (rs : list Range) :
  forall f e,
    0 <= f -> Forall (fun r => 0 <= from r) rs ->
    fold_left accumulate (List.map Some rs) (f, e)
    = (fold_right (fun x m => Z.min (from x) m) f rs,
       fold_right (fun x m => Z.max (to x) m) e rs).
Proof.
  induction rs as [|r rs IH]; intros f e Hf Hall; simpl; [reflexivity|].
  inversion Hall as [|? ? Hr Hrs]; subst.
  destruct (Z.eqb_spec f (-1)) as [->|_]; [lia|].
  rewrite IH by (trivial; lia).
  rewrite min_step_out, max_step_out. f_equal; lia.
Qed.

Lemma accumulate_from_sentinel (r : Range) (rs : list Range) :
  Forall (fun x => 0 <= from x) (r :: rs) ->
  fold_left accumulate (List.map Some (r :: rs)) (-1, -1) = (minFrom r rs, maxTo r rs).
Proof.
  intros Hall. inversion Hall as [|? ? Hr Hrs]; subst. simpl.
  apply accumulate_started; assumption.
Qed.

Lemma minFrom_least (r : Range) (rs : list Range) (x : Range) :
  In x (r :: rs) -> minFrom r rs <= from x.
Proof.
  unfold minFrom. induction rs as [|y rs IH]; simpl.
  - intros [->|[]]. lia.
  - intros [->|[->|Hin]]; [specialize (IH (or_introl eq_refl))| |specialize (IH (or_intror Hin))];
      simpl in *; lia.
Qed.

Lemma maxTo_greatest (r : Range) (rs : list Range) (x : Range) :
  In x (r :: rs) -> to x <= maxTo r rs.
Proof.
  unfold maxTo. induction rs as [|y rs IH]; simpl.
  - intros [->|[]]. lia.
  - intros [->|[->|Hin]]; [specialize (IH (or_introl eq_refl))| |specialize (IH (or_intror Hin))];
      simpl in *; lia.
Qed.

Lemma minFrom_attained (r : Range) (rs : list Range) :
  exists x, In x (r :: rs) /\ from x = minFrom r rs.
Proof.
  unfold minFrom. induction rs as [|y rs IH]; simpl.
  - exists r. auto.
  - destruct IH as (x & Hin & Hx).
    destruct (Z.min_spec (from y) (fold_right (fun x m => Z.min (from x) m) (from r) rs))
      as [[_ ->]|[_ ->]].
    + exists y. simpl. auto.
    + exists x. split; [|exact Hx]. destruct Hin as [->|Hin]; simpl; auto.
Qed.

Lemma maxTo_attained (r : Range) (rs : list Range) :
  exists x, In x (r :: rs) /\ to x = maxTo r rs.
Proof.
  unfold maxTo. induction rs as [|y rs IH]; simpl.
  - exists r. auto.
  - destruct IH as (x & Hin & Hx).
    destruct (Z.max_spec (to y) (fold_right (fun x m => Z.max (to x) m) (to r) rs))
      as [[_ ->]|[_ ->]].
    + exists x. split; [|exact Hx]. destruct Hin as [->|Hin]; simpl; auto.
    + exists y. simpl. auto.
Qed.

Lemma minFrom_maxTo_permutation (r r' : Range) (rs rs' : list Range) :
  Permutation (r :: rs) (r' :: rs') ->
  minFrom r rs = minFrom r' rs' /\ maxTo r rs = maxTo r' rs'.
Proof.
  intros Hp.
  destruct (minFrom_attained r rs) as (a & Ha & Ea).
  destruct (minFrom_attained r' rs') as (a' & Ha' & Ea').
  destruct (maxTo_attained r rs) as (b & Hb & Eb).
  destruct (maxTo_attained r' rs') as (b' & Hb' & Eb').
  pose proof (minFrom_least r' rs' a (Permutation_in _ Hp Ha)).
  pose proof (minFrom_least r rs a' (Permutation_in _ (Permutation_sym Hp) Ha')).
  pose proof (maxTo_greatest r' rs' b (Permutation_in _ Hp Hb)).
  pose proof (maxTo_greatest r rs b' (Permutation_in _ (Permutation_sym Hp) Hb')).
  lia.
Qed.

Lemma mergedRange_resolved (t : Tree) (s : DOMObserver) (batch : list MutationRecord) :
  mergedRange t s batch = fold_left accumulate (List.map Some (resolved t s batch)) (-1, -1).
Proof.
  unfold mergedRange, resolved.
  rewrite (readRecords_snd t batch s s). apply accumulate_skips.
Qed.

Lemma resolved_permutation (t : Tree) (s : DOMObserver) (batch batch' : list MutationRecord) :
  Permutation batch batch' -> Permutation (resolved t s batch) (resolved t s batch').
Proof.
  unfold resolved. induction 1 as [|x l l' _ IH|x y l|l l' l'' _ IH1 _ IH2]; simpl.
  - constructor.
  - destruct (snd (readMutation t s x)); [apply perm_skip|]; exact IH.
  - destruct (snd (readMutation t s x)), (snd (readMutation t s y));
      try apply Permutation_refl. apply perm_swap.
  - eapply Permutation_trans; eassumption.
Qed.

Lemma resolved_tracked (t : Tree) (s : DOMObserver) (batch : list MutationRecord) :
  existsb (tracked t) batch = match resolved t s batch with [] => false | _ :: _ => true end.
Proof.
  unfold resolved. induction batch as [|rec rest IH]; simpl; [reflexivity|].
  destruct (tracked t rec) eqn:Ht.
  - destruct (readMutation_tracked t s rec Ht) as [r ->]. reflexivity.
  - rewrite (readMutation_untracked t s rec Ht). exact IH.
Qed.

(** C4.  The range a flush arrives at for a batch whose records resolve to
    the non-empty list of ranges [r :: rs] (document positions, hence not
    negative) is [(min of all from, max of all to)]: the least start and the
    greatest end, both attained; it is what an active observer passes to
    [onDOMChange] (after which the view is resynced unless the handler left
    it clean); and it is the same for every reordering of the batch.  For
    a batch that resolves to no range the sentinel [from = -1] is kept,
    [applyMutations] returns false and [onDOMChange] is not called. *)
Theorem merge_is_min_max_in_any_order (t : Tree) (s : DOMObserver) (batch : list MutationRecord) :
  Forall (fun r => 0 <= from r) (resolved t s batch) ->
  (forall r rs, resolved t s batch = r :: rs ->
     mergedRange t s batch = (minFrom r rs, maxTo r rs) /\
     (forall x, In x (r :: rs) -> minFrom r rs <= from x /\ to x <= maxTo r rs) /\
     (exists x, In x (r :: rs) /\ from x = minFrom r rs) /\
     (exists x, In x (r :: rs) /\ to x = maxTo r rs) /\
     (forall batch', Permutation batch batch' ->
        mergedRange t s batch' = mergedRange t s batch) /\
     (forall records, snd (drainCharData s records) = batch -> active s = true ->
        snd (applyMutations t s records) = true /\
        calls (fst (applyMutations t s records))
        = calls s ++ OnDOMChange (minFrom r rs) (maxTo r rs)
                     :: (if dirtyAfterChange s true then [DocViewSync] else []))) /\
  (resolved t s batch = [] ->
     fst (mergedRange t s batch) = -1 /\
     (forall records, snd (drainCharData s records) = batch ->
        snd (applyMutations t s records) = false /\
        List.filter isDOMChange (calls (fst (applyMutations t s records)))
        = List.filter isDOMChange (calls s))).
Proof.
  intros Hall. split.
  - intros r rs Hres.
    assert (Hm : mergedRange t s batch = (minFrom r rs, maxTo r rs)).
    { rewrite mergedRange_resolved, Hres. apply accumulate_from_sentinel.
      rewrite <- Hres. exact Hall. }
    split; [exact Hm|].
    split; [intros x Hx; split; [apply minFrom_least|apply maxTo_greatest]; exact Hx|].
    split; [apply minFrom_attained|]. split; [apply maxTo_attained|]. split.
    + intros batch' Hp.
      pose proof (resolved_permutation t s _ _ Hp) as Hp'. rewrite Hres in Hp'.
      destruct (resolved t s batch') as [|r' rs'] eqn:Hres'.
      { apply Permutation_sym, Permutation_nil in Hp'. discriminate. }
      rewrite Hm, mergedRange_resolved, Hres'.
      rewrite accumulate_from_sentinel.
      * destruct (minFrom_maxTo_permutation _ _ _ _ Hp') as [-> ->]. reflexivity.
      * rewrite Hres in Hall.
        apply List.Forall_forall. intros x Hx.
        rewrite List.Forall_forall in Hall. apply Hall.
        apply (Permutation_in _ (Permutation_sym Hp')). exact Hx.
    + intros records Hb Hact.
      pose proof (resolved_tracked t s batch) as Htr. rewrite Hres in Htr.
      rewrite applyMutations_eq. rewrite Hb. cbn zeta.
      destruct batch as [|rec rest]; [discriminate|].
      rewrite Htr, orb_true_r, Hm, Hact. cbn [fst snd].
      assert (Hpos : (-1 <? minFrom r rs) = true).
      { apply Z.ltb_lt. destruct (minFrom_attained r rs) as (x & Hx & <-).
        rewrite Hres in Hall. rewrite List.Forall_forall in Hall.
        specialize (Hall x Hx). simpl in Hall. lia. }
      rewrite Hpos. cbn [andb fst snd]. split; [reflexivity|].
      destruct (drainCharData_frame s records) as (_ & _ & Hc & _).
      rewrite callAll_eq. cbn [calls setDirty]. rewrite Hc. reflexivity.
  - intros Hres. split.
    + rewrite mergedRange_resolved, Hres. reflexivity.
    + intros records Hb.
      rewrite applyMutations_eq. rewrite Hb. cbn zeta.
      destruct (drainCharData_frame s records) as (_ & _ & Hc & _).
      destruct batch as [|rec rest]; [cbn [fst snd]; split; [reflexivity|rewrite Hc; reflexivity]|].
      rewrite mergedRange_resolved, Hres. cbn [fst snd List.map fold_left].
      replace (-1 <? -1) with false by reflexivity. cbn [andb].
      split; [reflexivity|].
      rewrite callAll_eq. cbn [calls setDirty]. rewrite Hc, List.filter_app.
      destruct (dirty s || existsb (tracked t) (rec :: rest)); simpl; apply app_nil_r.
Qed.

Lemma merge_is_min_max_in_any_order_witness :
  Forall (fun r => 0 <= from r)
         (resolved scenarioTree modern [textChangeInB; removalBetweenAB]) /\
  mergedRange scenarioTree modern [textChangeInB; removalBetweenAB] = (5, 9) /\
  mergedRange scenarioTree modern [removalBetweenAB; textChangeInB]
  = mergedRange scenarioTree modern [textChangeInB; removalBetweenAB].
Proof.
  assert (H : Forall (fun r => 0 <= from r)
                     (resolved scenarioTree modern [textChangeInB; removalBetweenAB])).
  { repeat constructor; simpl; lia. }
  split; [exact H|].
  destruct (merge_is_min_max_in_any_order _ _ _ H) as [Hne _].
  destruct (Hne (mkRange 5 9) [mkRange 5 5] eq_refl) as (Hm & _ & _ & _ & Hperm & _).
  split; [exact Hm|]. apply Hperm. apply perm_swap.
Defined.

(** The start position [-1] cannot be told from the sentinel: a range that
    starts there is forgotten by the loop.  Document positions are never
    negative, so this does not occur for resolved ranges. *)
Lemma accumulate_forgets_sentinel_start :
  fold_left accumulate [Some (mkRange (-1) 4); Some (mkRange 3 5)] (-1, -1) = (3, 5).
Proof. reflexivity. Qed.

(** ** The walk of findChild ends *)









(** ** Reading one mutation *)



(** ** What a pass of the pipeline calls *)

(** The calls made by [applyMutations]: [onDOMChange] exactly when it
    returns true, which needs an active observer, then possibly a resync. *)
Lemma applyMutations_calls (t : Tree) (s : DOMObserver) (records : list MutationRecord) :
  exists (f e : Z) (resync : list Call),
    calls (fst (applyMutations t s records))
    = calls s ++ (if snd (applyMutations t s records) then [OnDOMChange f e] else []) ++ resync /\
    (resync = [] \/ resync = [DocViewSync]) /\
    active (fst (applyMutations t s records)) = active s /\
    (snd (applyMutations t s records) = true -> active s = true).
Proof.
  rewrite applyMutations_eq. cbn zeta.
  destruct (drainCharData_frame s records) as (Ha & _ & Hc & _).
  destruct (snd (drainCharData s records)) as [|rec rest].
  - exists 0, 0, []. cbn [fst snd]. rewrite app_nil_r.
    repeat split; auto; discriminate.
  - set (m := mergedRange t s (rec :: rest)).
    set (d := dirty s || existsb (tracked t) (rec :: rest)).
    set (apply := (-1 <? fst m) && active s).
    exists (fst m), (snd m),
           (if (if apply then dirtyAfterChange s d else d) then [DocViewSync] else []).
    cbn [fst snd]. rewrite callAll_eq. cbn [calls active setDirty]. rewrite Hc, Ha.
    split; [reflexivity|].
    split; [destruct (if apply then dirtyAfterChange s d else d); auto|].
    split; [reflexivity|].
    subst apply. intros H. apply andb_true_iff in H. tauto.
Qed.

Lemma flush_eq (t : Tree) (s : DOMObserver) :
  flush t s =
  if observer s then applyMutations t (setPendingRecords [] s) (pendingRecords s)
  else applyMutations t s [].
Proof. unfold flush, takeRecords. destruct (observer s); reflexivity. Qed.

Lemma flush_calls (t : Tree) (s : DOMObserver) :
  exists (f e : Z) (resync : list Call),
    calls (fst (flush t s))
    = calls s ++ (if snd (flush t s) then [OnDOMChange f e] else []) ++ resync /\
    (resync = [] \/ resync = [DocViewSync]) /\
    active (fst (flush t s)) = active s /\
    (snd (flush t s) = true -> active s = true).
Proof.
  rewrite flush_eq. destruct (observer s).
  - apply (applyMutations_calls t (setPendingRecords [] s)).
  - apply applyMutations_calls.
Qed.

(** After [applyMutations] the legacy queue is empty; its timer handle is
    cleared whenever the queue held something. *)
Lemma applyMutations_queue (t : Tree) (s : DOMObserver) (records : list MutationRecord) :
  let s' := fst (applyMutations t s records) in
  charDataQueue s' = [] /\
  (charDataQueue s <> [] -> charDataTimeout s' = None) /\
  (charDataQueue s = [] -> charDataTimeout s' = charDataTimeout s) /\
  (forall id, charDataQueue s <> [] -> charDataTimeout s = Some id -> ~ In id (timers s')) /\
  (forall id, In id (timers s') -> In id (timers s)).
Proof.
  cbn zeta. rewrite applyMutations_eq. cbn zeta. rewrite drainCharData_eq.
  assert (Hfil : forall id l, ~ In id (List.filter (fun i => negb (Nat.eqb i id)) l)).
  { intros id l Hin. apply List.filter_In in Hin. destruct Hin as [_ Hin].
    rewrite Nat.eqb_refl in Hin. discriminate. }
  assert (Hsub : forall id i l, In i (List.filter (fun i => negb (Nat.eqb i id)) l) -> In i l).
  { intros id i l Hin. apply List.filter_In in Hin. tauto. }
  destruct (charDataQueue s) as [|q qs] eqn:Hq; cbn [fst snd].
  - destruct records as [|rec rest]; cbn [fst snd]; rewrite ?callAll_eq;
      cbn [charDataQueue charDataTimeout timers setDirty];
      repeat split; auto; congruence.
  - destruct (records ++ q :: qs) as [|rec rest] eqn:Hb; cbn [fst snd].
    + destruct records; discriminate.
    + rewrite callAll_eq. destruct (charDataTimeout s) as [h|]; simpl;
        repeat split; auto; try congruence;
        try (intros id _ Hid; injection Hid as ->; apply Hfil);
        try (intros id; apply Hsub).
Qed.

(** ** While the observer is paused *)

Lemma process_inactive (t : Tree) (p : Processing) (s : DOMObserver) :
  active s = false ->
  active (process t p s) = false /\
  exists resync, calls (process t p s) = calls s ++ resync /\
                 (resync = [] \/ resync = [DocViewSync]).
Proof.
  intros Hin. destruct p as [|records|records|rec]; cbn [process].
  - destruct (flush_calls t s) as (f & e & resync & Hc & Hr & Ha & Hs).
    destruct (snd (flush t s)); [specialize (Hs eq_refl); congruence|].
    split; [congruence|]. exists resync. auto.
  - destruct (applyMutations_calls t s records) as (f & e & resync & Hc & Hr & Ha & Hs).
    destruct (snd (applyMutations t s records)); [specialize (Hs eq_refl); congruence|].
    split; [congruence|]. exists resync. auto.
  - destruct (applyMutations_calls t s records) as (f & e & resync & Hc & Hr & Ha & Hs).
    destruct (snd (applyMutations t s records)); [specialize (Hs eq_refl); congruence|].
    split; [congruence|]. exists resync. auto.
  - split; [exact Hin|]. exists []. simpl. rewrite app_nil_r. auto.
Qed.

(** C2.  While the observer is inactive, no processing of mutation records
    -- by [flush()], by [applyMutations(records)], by the observer callback,
    whatever records are injected and in whatever order -- calls
    [onDOMChange]: the observer stays inactive and everything added to the
    trace is a resync of the view. *)
Theorem inactive_never_calls_onDOMChange (t : Tree) (ps : list Processing) (s : DOMObserver) :
  active s = false ->
  active (processAll t ps s) = false /\
  exists extra,
    calls (processAll t ps s) = calls s ++ extra /\
    Forall (fun c => c = DocViewSync) extra /\
    countCalls isDOMChange (calls (processAll t ps s)) = countCalls isDOMChange (calls s).
Proof.
  revert s. induction ps as [|p ps IH]; intros s Hin; cbn [processAll].
  - split; [exact Hin|]. exists []. rewrite app_nil_r. auto.
  - destruct (process_inactive t p s Hin) as (Hin' & resync & Hc & Hr).
    destruct (IH _ Hin') as (Hfin & extra & Hc' & Hall & Hcount).
    split; [exact Hfin|]. exists (resync ++ extra).
    split; [rewrite Hc', Hc, <- app_assoc; reflexivity|].
    split.
    + apply Forall_app. split; [|exact Hall].
      destruct Hr as [->| ->]; repeat constructor.
    + rewrite Hcount, Hc. unfold countCalls. rewrite List.filter_app.
      destruct Hr as [->| ->]; simpl; rewrite app_nil_r; reflexivity.
Qed.

Lemma inactive_never_calls_onDOMChange_witness :
  active (stop scenarioTree modern) = false /\
  countCalls isDOMChange
    (calls (processAll scenarioTree
              [Injected removalBetweenAB; ViaFlush; ViaCallback [textChangeInB];
               ViaApplyMutations [removalBetweenAB; textChangeInB]]
              (stop scenarioTree modern))) = 0%nat.
Proof.
  split; [reflexivity|].
  destruct (inactive_never_calls_onDOMChange scenarioTree
              [Injected removalBetweenAB; ViaFlush; ViaCallback [textChangeInB];
               ViaApplyMutations [removalBetweenAB; textChangeInB]]
              (stop scenarioTree modern) eq_refl) as (_ & extra & _ & _ & Hcount).
  rewrite Hcount. reflexivity.
Defined.

(** A selection change is not looked at either. *)
Lemma readSelection_inactive (t : Tree) (env : Env) (s : DOMObserver) :
  active s = false -> readSelection t env s = s.
Proof. intros H. unfold readSelection. rewrite H. reflexivity. Qed.

(** ** stop *)

Lemma start_active (s : DOMObserver) : active (start s) = true.
Proof.
  unfold start. destruct (active s) eqn:Ha; [exact Ha|].
  destruct (observer s), (useCharData s); reflexivity.
Qed.

Lemma stop_eq (t : Tree) (s : DOMObserver) :
  active s = true -> observer s = true ->
  stop t s =
  let s1 := fst (applyMutations t (setPendingRecords [] (setActive false s)) (pendingRecords s)) in
  let s2 := disconnect s1 in
  if useCharData s2 then setCharDataListener false s2 else s2.
Proof.
  intros Ha Ho. unfold stop. rewrite Ha. cbn [negb].
  replace (observer (setActive false s)) with true by (symmetry; exact Ho).
  rewrite flush_eq.
  replace (observer (setActive false s)) with true by (symmetry; exact Ho).
  reflexivity.
Qed.

(** C1, as the code has it.  [stop()] on an active observer (with a
    mutation observer) clears the active flag before it drains, so the drain
    calls [onDOMChange] not at all: the pending records, batched and legacy,
    are read, and the view is resynced if it is dirty.  Afterwards the
    observer is inactive and disconnected, its record queue and the legacy
    queue are empty, and the debounce timer is canceled. *)
Theorem stop_drains_without_onDOMChange (t : Tree) (s : DOMObserver) :
  active s = true ->
  observer s = true ->
  queueTimerConsistent s ->
  let batch := pendingRecords s ++ charDataQueue s in
  let s' := stop t s in
  active s' = false /\ observing s' = false /\ pendingRecords s' = [] /\
  charDataQueue s' = [] /\ charDataTimeout s' = None /\
  (forall id, charDataTimeout s = Some id -> ~ In id (timers s')) /\
  calls s' = calls s ++
             (if dirty s || existsb (tracked t) batch
              then match batch with [] => [] | _ :: _ => [DocViewSync] end
              else []) /\
  countCalls isDOMChange (calls s') = countCalls isDOMChange (calls s).
Proof.
  intros Ha Ho Hcons. cbn zeta. rewrite (stop_eq t s Ha Ho). cbn zeta.
  set (s0 := setPendingRecords [] (setActive false s)).
  destruct (applyMutations_queue t s0 (pendingRecords s)) as (Hq & Hsome & Hnone & Htim & _).
  assert (Hpre : forall u, active (if useCharData (disconnect u)
                                   then setCharDataListener false (disconnect u)
                                   else disconnect u) = active u /\
                           observing (if useCharData (disconnect u)
                                      then setCharDataListener false (disconnect u)
                                      else disconnect u) = false /\
                           pendingRecords (if useCharData (disconnect u)
                                           then setCharDataListener false (disconnect u)
                                           else disconnect u) = [] /\
                           charDataQueue (if useCharData (disconnect u)
                                          then setCharDataListener false (disconnect u)
                                          else disconnect u) = charDataQueue u /\
                           charDataTimeout (if useCharData (disconnect u)
                                            then setCharDataListener false (disconnect u)
                                            else disconnect u) = charDataTimeout u /\
                           timers (if useCharData (disconnect u)
                                   then setCharDataListener false (disconnect u)
                                   else disconnect u) = timers u /\
                           calls (if useCharData (disconnect u)
                                  then setCharDataListener false (disconnect u)
                                  else disconnect u) = calls u).
  { intros u. destruct (useCharData (disconnect u)); repeat split; reflexivity. }
  destruct (Hpre (fst (applyMutations t s0 (pendingRecords s))))
    as (Ea & Eo & Ep & Eq & Et & Eti & Ec).
  rewrite Ea, Eo, Ep, Eq, Et, Eti, Ec. clear Hpre Ea Eo Ep Eq Et Eti Ec.
  assert (Hcalls :
    calls (fst (applyMutations t s0 (pendingRecords s))) = calls s ++
      (if dirty s || existsb (tracked t) (pendingRecords s ++ charDataQueue s)
       then match pendingRecords s ++ charDataQueue s with [] => [] | _ :: _ => [DocViewSync] end
       else [])).
  { rewrite applyMutations_eq. cbn zeta. rewrite drainCharData_eq.
    change (charDataQueue s0) with (charDataQueue s).
    change (charDataTimeout s0) with (charDataTimeout s).
    change (dirty s0) with (dirty s). change (active s0) with false.
    rewrite andb_false_r.
    destruct (charDataQueue s) as [|q qs] eqn:Eq; cbn [fst snd].
    - rewrite (List.app_nil_r (pendingRecords s)).
      destruct (pendingRecords s) as [|rec rest]; cbn [fst snd].
      + simpl. destruct (dirty s); simpl; rewrite app_nil_r; reflexivity.
      + destruct (dirty s || existsb (tracked t) (rec :: rest)); simpl;
          rewrite ?app_nil_r; reflexivity.
    - destruct (pendingRecords s ++ q :: qs) as [|rec rest] eqn:Eb; cbn [fst snd].
      + destruct (pendingRecords s); discriminate.
      + destruct (dirty s || existsb (tracked t) (rec :: rest));
          destruct (charDataTimeout s); simpl; rewrite ?app_nil_r; reflexivity. }
  split; [destruct (applyMutations_calls t s0 (pendingRecords s)) as (_ & _ & _ & _ & _ & E & _);
          exact E|].
  split; [reflexivity|]. split; [reflexivity|]. split; [exact Hq|].
  split.
  { change (charDataQueue s0) with (charDataQueue s) in *.
    change (charDataTimeout s0) with (charDataTimeout s) in *.
    destruct (charDataQueue s) as [|q qs] eqn:Eq.
    - rewrite (Hnone eq_refl). apply Hcons. exact Eq.
    - apply Hsome. discriminate. }
  split.
  { intros id Hid.
    change (charDataQueue s0) with (charDataQueue s) in *.
    change (charDataTimeout s0) with (charDataTimeout s) in *.
    destruct (charDataQueue s) as [|q qs] eqn:Eq.
    - rewrite (Hcons Eq) in Hid. discriminate.
    - apply Htim; [discriminate|exact Hid]. }
  split; [exact Hcalls|].
  rewrite Hcalls. unfold countCalls. rewrite List.filter_app.
  destruct (dirty s || existsb (tracked t) (pendingRecords s ++ charDataQueue s));
    [destruct (pendingRecords s ++ charDataQueue s)|]; simpl; rewrite app_nil_r; reflexivity.
Qed.

Lemma stop_drains_without_onDOMChange_witness :
  let s := runEvents scenarioTree [CharDataModified 2%nat None; Mutated removalBetweenAB] legacy in
  active s = true /\ observer s = true /\ queueTimerConsistent s /\
  charDataTimeout s = Some 0%nat /\ timers s = [0%nat] /\
  calls (stop scenarioTree s) = [DocViewSync] /\
  charDataQueue (stop scenarioTree s) = [] /\
  charDataTimeout (stop scenarioTree s) = None /\
  ~ In 0%nat (timers (stop scenarioTree s)).
Proof.
  cbn zeta.
  assert (Hcons : queueTimerConsistent
            (runEvents scenarioTree [CharDataModified 2%nat None; Mutated removalBetweenAB] legacy)).
  { intros H. discriminate H. }
  split; [reflexivity|]. split; [reflexivity|]. split; [exact Hcons|].
  split; [reflexivity|]. split; [reflexivity|].
  destruct (stop_drains_without_onDOMChange scenarioTree
              (runEvents scenarioTree [CharDataModified 2%nat None; Mutated removalBetweenAB] legacy)
              eq_refl eq_refl Hcons) as (_ & _ & _ & Hq & Ht & Hti & Hc & _).
  split; [exact Hc|]. split; [exact Hq|]. split; [exact Ht|].
  apply Hti. reflexivity.
Defined.

(** C1, as the documentation has it, fails: with one pending record that
    resolves to the range (5, 5), [stop()] on the active observer calls
    [onDOMChange] not once but never. *)
Lemma stop_calls_onDOMChange_counterexample :
  active (dispatch scenarioTree (Mutated removalBetweenAB) modern) = true /\
  pendingRecords (dispatch scenarioTree (Mutated removalBetweenAB) modern) = [removalBetweenAB] /\
  calls (stop scenarioTree (dispatch scenarioTree (Mutated removalBetweenAB) modern))
  = [DocViewSync] /\
  ~ drainOnStopAsDocumented scenarioTree (dispatch scenarioTree (Mutated removalBetweenAB) modern).
Proof.
  split; [reflexivity|]. split; [reflexivity|]. split; [reflexivity|].
  intros H. destruct (H (mkRange 5 5) [] eq_refl) as (f & e & Hc & _).
  vm_compute in Hc. discriminate Hc.
Qed.

(** ** The legacy queue and its timer *)

Lemma applyMutations_consistent (t : Tree) (s : DOMObserver) (records : list MutationRecord) :
  queueTimerConsistent s -> queueTimerConsistent (fst (applyMutations t s records)).
Proof.
  intros Hcons _.
  destruct (applyMutations_queue t s records) as (_ & Hsome & Hnone & _).
  destruct (charDataQueue s) as [|q qs] eqn:Eq.
  - rewrite (Hnone eq_refl). apply Hcons. exact Eq.
  - apply Hsome. discriminate.
Qed.

Lemma flush_consistent (t : Tree) (s : DOMObserver) :
  queueTimerConsistent s -> queueTimerConsistent (fst (flush t s)).
Proof.
  intros Hcons. rewrite flush_eq. destruct (observer s);
    apply applyMutations_consistent; exact Hcons.
Qed.

Lemma readSelection_consistent (t : Tree) (env : Env) (s : DOMObserver) :
  queueTimerConsistent s -> queueTimerConsistent (readSelection t env s).
Proof.
  intros Hcons. unfold readSelection.
  destruct (negb (active s) || negb (hasFocus env) || negb (hasSelection env)); [exact Hcons|].
  pose proof (flush_consistent t s Hcons) as Hf.
  destruct (flush t s) as [s' applied]. destruct applied; exact Hf.
Qed.

Lemma stop_consistent (t : Tree) (s : DOMObserver) :
  queueTimerConsistent s -> queueTimerConsistent (stop t s).
Proof.
  intros Hcons. unfold stop. destruct (active s); cbn [negb]; [|exact Hcons].
  destruct (observer (setActive false s)).
  - pose proof (flush_consistent t (setActive false s) Hcons) as Hf.
    destruct (useCharData (disconnect (fst (flush t (setActive false s))))); exact Hf.
  - destruct (useCharData (setActive false s)); exact Hcons.
Qed.

(** The invariant holds of a new observer and is kept by everything that can
    happen to it. *)
Lemma queueTimerConsistent_construct (mo legacyEvents docDirty : bool) (handler : bool -> bool) :
  queueTimerConsistent (construct mo legacyEvents docDirty handler).
Proof. destruct mo, legacyEvents; intros _; reflexivity. Qed.

Lemma queueTimerConsistent_dispatch (t : Tree) (ev : Event) (s : DOMObserver) :
  queueTimerConsistent s -> queueTimerConsistent (dispatch t ev s).
Proof.
  intros Hcons. destruct ev; cbn [dispatch].
  - destruct (observing s); exact Hcons.
  - destruct (charDataListener s); [|exact Hcons].
    intros Hq. unfold onCharData in Hq. exfalso.
    destruct (charDataTimeout _) in Hq; simpl in Hq;
      destruct (charDataQueue s); discriminate.
  - destruct (pendingRecords s) eqn:Ep; [exact Hcons|].
    apply (applyMutations_consistent t (setPendingRecords [] s)). exact Hcons.
  - destruct (existsb (Nat.eqb id) (timers s)); [|exact Hcons].
    apply flush_consistent. exact Hcons.
  - destruct (selectionListener s); [apply readSelection_consistent|]; exact Hcons.
  - destruct (focusListeners s); [|exact Hcons]. unfold onFocus.
    destruct (listening s); [exact Hcons|].
    destruct (hasSelection env); [apply readSelection_consistent|]; exact Hcons.
  - destruct (focusListeners s); [|exact Hcons]. unfold onBlur.
    destruct (listening s); exact Hcons.
  - destruct (existsb _ _); exact Hcons.
  - destruct (intersectionQueue s); [exact Hcons|]. unfold onIntersection.
    destruct (existsb _ _); exact Hcons.
  - unfold start. destruct (active s); [exact Hcons|].
    destruct (observer s); simpl; destruct (useCharData s); exact Hcons.
  - apply stop_consistent. exact Hcons.
  - apply flush_consistent. exact Hcons.
  - exact Hcons.
  - apply (stop_consistent t s). exact Hcons.
Qed.

Lemma queueTimerConsistent_reachable (t : Tree) (evs : list Event) :
  forall s, queueTimerConsistent s -> queueTimerConsistent (runEvents t evs s).
Proof.
  induction evs as [|ev evs IH]; intros s H; [exact H|].
  apply IH, queueTimerConsistent_dispatch, H.
Qed.

(** ** Delivery by the host *)

Lemma mergedRange_single (t : Tree) (s : DOMObserver) (rec : MutationRecord) :
  mergedRange t s [rec] = accumulate (-1, -1) (snd (readMutation t s rec)).
Proof. unfold mergedRange. rewrite (readRecords_snd t [rec] s s). reflexivity. Qed.

(** A mutation seen by an active, connected observer with nothing else
    pending is forwarded when the host delivers it. *)
Lemma delivery_forwards (t : Tree) (s : DOMObserver) (rec : MutationRecord) (r : Range) :
  active s = true -> observing s = true ->
  pendingRecords s = [] -> charDataQueue s = [] ->
  snd (readMutation t s rec) = Some r ->
  0 <= from r ->
  pendingRecords (dispatch t (Mutated rec) s) = [rec] /\
  calls (runEvents t [Mutated rec; RecordsDelivered] s)
  = calls s ++ OnDOMChange (from r) (to r)
               :: (if dirtyAfterChange s true then [DocViewSync] else []).
Proof.
  intros Ha Ho Hp Hq Hr Hpos.
  assert (Htr : tracked t rec = true).
  { destruct (tracked t rec) eqn:E; [reflexivity|].
    rewrite (readMutation_untracked t _ rec E) in Hr. discriminate. }
  assert (Hm : dispatch t (Mutated rec) s = setPendingRecords [rec] s).
  { cbn [dispatch]. rewrite Ho, Hp. reflexivity. }
  split; [rewrite Hm; reflexivity|].
  cbn [runEvents]. rewrite Hm.
  assert (Hs : dispatch t RecordsDelivered (setPendingRecords [rec] s)
               = fst (applyMutations t (setPendingRecords [] s) [rec])) by reflexivity.
  rewrite Hs, applyMutations_eq. cbn zeta.
  assert (Hd : drainCharData (setPendingRecords [] s) [rec] = (setPendingRecords [] s, [rec])).
  { rewrite drainCharData_eq. cbn [charDataQueue setPendingRecords]. rewrite Hq. reflexivity. }
  rewrite Hd. cbn [fst snd].
  rewrite mergedRange_single, (readMutation_snd_indep t _ s rec), Hr.
  cbn [accumulate fst snd existsb]. rewrite Htr, orb_true_r.
  replace (-1 =? -1) with true by reflexivity. cbn [fst snd].
  replace (-1 <? from r) with true by (symmetry; apply Z.ltb_lt; lia).
  cbn [active setPendingRecords dirtyAfterChange]. rewrite Ha. cbn [andb].
  rewrite callAll_eq. reflexivity.
Qed.

(** ** withoutListening *)

(** C5.  [withoutListening(action)] calls [start()] after the action however
    the action completes: the observer is active afterwards, and the
    completion of the action -- the value it raised, if it raised -- is the
    completion of [withoutListening]. *)
Theorem withoutListening_always_resumes {E : Type} (t : Tree)
  (action : DOMObserver -> DOMObserver * Completion E) (s : DOMObserver) :
  fst (withoutListening t action s) = start (fst (action (stop t s))) /\
  active (fst (withoutListening t action s)) = true /\
  snd (withoutListening t action s) = snd (action (stop t s)) /\
  (forall e, snd (action (stop t s)) = Throw e ->
             snd (withoutListening t action s) = Throw e /\
             active (fst (withoutListening t action s)) = true).
Proof.
  unfold withoutListening. destruct (action (stop t s)) as [s' outcome]. cbn [fst snd].
  repeat split; auto using start_active.
Qed.

Lemma withoutListening_always_resumes_witness :
  active (stop scenarioTree modern) = false /\
  snd (withoutListening scenarioTree (fun s => (s, Throw "failed"%string)) modern)
  = Throw "failed"%string /\
  active (fst (withoutListening scenarioTree (fun s => (s, Throw "failed"%string)) modern)) = true.
Proof.
  split; [reflexivity|].
  destruct (withoutListening_always_resumes scenarioTree
              (fun s => (s, Throw "failed"%string)) modern) as (_ & _ & _ & H).
  apply (H "failed"%string). reflexivity.
Defined.

(** ** The legacy queue is consumed once *)

Lemma resolved_In (t : Tree) (s : DOMObserver) (batch : list MutationRecord)
  (rec : MutationRecord) (r : Range) :
  In rec batch -> snd (readMutation t s rec) = Some r -> In r (resolved t s batch).
Proof.
  intros Hin Hr. apply list_elem_of_In. unfold resolved. apply list_elem_of_omap.
  exists rec. split; [apply list_elem_of_In; exact Hin|exact Hr].
Qed.

(** With the legacy queue not empty, one pass of [applyMutations] is the
    pass over the given records followed by the queued ones. *)
Lemma applyMutations_batch (t : Tree) (s : DOMObserver) (records : list MutationRecord) :
  charDataQueue s <> [] ->
  applyMutations t s records =
  let batch := records ++ charDataQueue s in
  let m := mergedRange t s batch in
  let d := dirty s || existsb (tracked t) batch in
  let apply := (-1 <? fst m) && active s in
  let d' := if apply then dirtyAfterChange s d else d in
  (setDirty false
     (callAll ((if apply then [OnDOMChange (fst m) (snd m)] else [])
               ++ (if d' then [DocViewSync] else []))
        (fst (drainCharData s records))),
   apply).
Proof.
  intros Hne. rewrite applyMutations_eq. cbn zeta.
  assert (Hb : snd (drainCharData s records) = records ++ charDataQueue s).
  { rewrite drainCharData_eq. destruct (charDataQueue s); [contradiction|reflexivity]. }
  rewrite Hb. destruct (records ++ charDataQueue s) as [|rec rest] eqn:E; [|reflexivity].
  apply app_eq_nil in E. destruct E as [_ E]. contradiction.
Qed.

(** A record of the batch that resolves to a range is covered by the range
    an active observer reports. *)
Lemma batch_record_reported (t : Tree) (s : DOMObserver) (records batch : list MutationRecord)
  (rec : MutationRecord) (r : Range) :
  snd (drainCharData s records) = batch ->
  In rec batch -> snd (readMutation t s rec) = Some r ->
  Forall (fun x => 0 <= from x) (resolved t s batch) ->
  active s = true ->
  snd (applyMutations t s records) = true /\
  exists f e,
    calls (fst (applyMutations t s records))
    = calls s ++ OnDOMChange f e :: (if dirtyAfterChange s true then [DocViewSync] else []) /\
    f <= from r /\ to r <= e.
Proof.
  intros Hb Hin Hr Hall Hact.
  pose proof (resolved_In t s batch rec r Hin Hr) as Hres.
  destruct (resolved t s batch) as [|r0 rs] eqn:E; [destruct Hres|].
  assert (Hm : mergedRange t s batch = (minFrom r0 rs, maxTo r0 rs)).
  { rewrite mergedRange_resolved, E. apply accumulate_from_sentinel. exact Hall. }
  pose proof (resolved_tracked t s batch) as Htr. rewrite E in Htr.
  assert (Hpos : (-1 <? minFrom r0 rs) = true).
  { apply Z.ltb_lt. destruct (minFrom_attained r0 rs) as (x & Hx & <-).
    rewrite List.Forall_forall in Hall. specialize (Hall x Hx). simpl in Hall. lia. }
  rewrite applyMutations_eq, Hb. cbn zeta.
  destruct batch as [|rec0 rest]; [destruct Hin|].
  rewrite Htr, orb_true_r, Hm, Hact. cbn [fst snd]. rewrite Hpos. cbn [andb fst snd].
  split; [reflexivity|]. exists (minFrom r0 rs), (maxTo r0 rs).
  destruct (drainCharData_frame s records) as (_ & _ & Hc & _).
  rewrite callAll_eq. cbn [calls setDirty]. rewrite Hc.
  split; [reflexivity|]. split; [apply minFrom_least|apply maxTo_greatest]; exact Hres.
Qed.

(** C6.  When [applyMutations] (hence a flush) finds the legacy queue not
    empty, then in that one step the debounce timer is canceled (its handle
    is no longer pending and the field is null), the queue is emptied, and
    the batch that is processed is the given records followed by the queued
    ones, each once: the result of [applyMutations] -- its return value, the
    range it reports, the resync -- is that of the loop over that batch, so
    a queued record that resolves to a range is covered by the range that an
    active observer passes to [onDOMChange].  A later pass finds nothing of
    them, and the canceled timer does nothing if the host were to run it.
    The same holds of [flush()], whose batch is the observer's records
    followed by the queue. *)
Theorem legacy_queue_consumed_once (t : Tree) (s : DOMObserver) (records : list MutationRecord) :
  charDataQueue s <> [] ->
  snd (drainCharData s records) = records ++ charDataQueue s /\
  (forall rec, count_occ MutationRecord_eq_dec
                 (snd (drainCharData s records)) rec
               = (count_occ MutationRecord_eq_dec records rec
                  + count_occ MutationRecord_eq_dec (charDataQueue s) rec)%nat) /\
  charDataQueue (fst (drainCharData s records)) = [] /\
  charDataTimeout (fst (drainCharData s records)) = None /\
  (forall id, charDataTimeout s = Some id -> ~ In id (timers (fst (drainCharData s records)))) /\
  charDataQueue (fst (applyMutations t s records)) = [] /\
  charDataTimeout (fst (applyMutations t s records)) = None /\
  (forall id, charDataTimeout s = Some id -> ~ In id (timers (fst (applyMutations t s records)))) /\
  (forall records', snd (drainCharData (fst (applyMutations t s records)) records') = records') /\
  (forall id, charDataTimeout s = Some id ->
     dispatch t (TimerFired id) (fst (applyMutations t s records))
     = fst (applyMutations t s records)) /\
  (observer s = true ->
   snd (drainCharData (fst (takeRecords s)) (snd (takeRecords s)))
   = pendingRecords s ++ charDataQueue s /\
   charDataQueue (fst (flush t s)) = [] /\ charDataTimeout (fst (flush t s)) = None) /\
  applyMutations t s records
  = (let batch := records ++ charDataQueue s in
     let m := mergedRange t s batch in
     let d := dirty s || existsb (tracked t) batch in
     let apply := (-1 <? fst m) && active s in
     let d' := if apply then dirtyAfterChange s d else d in
     (setDirty false
        (callAll ((if apply then [OnDOMChange (fst m) (snd m)] else [])
                  ++ (if d' then [DocViewSync] else []))
           (fst (drainCharData s records))),
      apply)) /\
  (forall rec r,
     In rec (charDataQueue s) -> snd (readMutation t s rec) = Some r ->
     Forall (fun x => 0 <= from x) (resolved t s (records ++ charDataQueue s)) ->
     active s = true ->
     snd (applyMutations t s records) = true /\
     exists f e,
       calls (fst (applyMutations t s records))
       = calls s ++ OnDOMChange f e :: (if dirtyAfterChange s true then [DocViewSync] else []) /\
       f <= from r /\ to r <= e) /\
  (observer s = true ->
   flush t s
   = (let batch := pendingRecords s ++ charDataQueue s in
      let m := mergedRange t s batch in
      let d := dirty s || existsb (tracked t) batch in
      let apply := (-1 <? fst m) && active s in
      let d' := if apply then dirtyAfterChange s d else d in
      (setDirty false
         (callAll ((if apply then [OnDOMChange (fst m) (snd m)] else [])
                   ++ (if d' then [DocViewSync] else []))
            (fst (drainCharData (setPendingRecords [] s) (pendingRecords s)))),
       apply)) /\
   forall rec r,
     In rec (charDataQueue s) -> snd (readMutation t s rec) = Some r ->
     Forall (fun x => 0 <= from x) (resolved t s (pendingRecords s ++ charDataQueue s)) ->
     active s = true ->
     snd (flush t s) = true /\
     exists f e,
       calls (fst (flush t s))
       = calls s ++ OnDOMChange f e :: (if dirtyAfterChange s true then [DocViewSync] else []) /\
       f <= from r /\ to r <= e).
Proof.
  intros Hne.
  destruct (applyMutations_queue t s records) as (Hq & Hsome & _ & Htim & _).
  cbn zeta in Hq, Hsome, Htim.
  assert (Hd : drainCharData s records
               = (setCharDataQueue [] (setCharDataTimeout None (clearTimeout (charDataTimeout s) s)),
                  records ++ charDataQueue s)).
  { rewrite drainCharData_eq. destruct (charDataQueue s); [contradiction|reflexivity]. }
  assert (Hfil : forall id l, ~ In id (List.filter (fun i => negb (Nat.eqb i id)) l)).
  { intros id l Hin. apply List.filter_In in Hin. destruct Hin as [_ Hin].
    rewrite Nat.eqb_refl in Hin. discriminate. }
  assert (Hbatch : snd (drainCharData s records) = records ++ charDataQueue s)
    by (rewrite Hd; reflexivity).
  split; [exact Hbatch|]. split; [intros rec; rewrite Hbatch; apply count_occ_app|].
  split; [rewrite Hd; reflexivity|]. split; [rewrite Hd; reflexivity|].
  split; [intros id Hid; rewrite Hd; cbn [fst]; rewrite Hid; simpl; apply Hfil|].
  split; [exact Hq|]. split; [exact (Hsome Hne)|].
  split; [intros id Hid; exact (Htim id Hne Hid)|].
  split; [intros records'; rewrite drainCharData_eq, Hq; reflexivity|].
  split.
  { intros id Hid. cbn [dispatch].
    destruct (existsb (Nat.eqb id) (timers (fst (applyMutations t s records)))) eqn:Hex;
      [|reflexivity].
    exfalso. apply existsb_exists in Hex. destruct Hex as (i & Hin & Hi).
    apply Nat.eqb_eq in Hi. subst i. exact (Htim id Hne Hid Hin). }
  split.
  { intros Ho. unfold takeRecords. cbn [fst snd].
    split; [rewrite drainCharData_eq; destruct (charDataQueue s) eqn:E;
            [contradiction|simpl; rewrite E; reflexivity]|].
    rewrite flush_eq, Ho.
    destruct (applyMutations_queue t (setPendingRecords [] s) (pendingRecords s))
      as (Hq' & Hsome' & _).
    split; [exact Hq'|exact (Hsome' Hne)]. }
  split; [exact (applyMutations_batch t s records Hne)|].
  split.
  { intros rec r Hin Hr Hall Hact.
    apply (batch_record_reported t s records (records ++ charDataQueue s) rec r Hbatch);
      [apply in_or_app; right; exact Hin|exact Hr|exact Hall|exact Hact]. }
  intros Ho. rewrite flush_eq, Ho. split.
  - rewrite (applyMutations_batch t (setPendingRecords [] s) (pendingRecords s) Hne).
    cbn zeta. cbn [charDataQueue setPendingRecords dirty active dirtyAfterChange].
    rewrite (mergedRange_indep t (setPendingRecords [] s) s). reflexivity.
  - intros rec r Hin Hr Hall Hact.
    assert (Hb' : snd (drainCharData (setPendingRecords [] s) (pendingRecords s))
                  = pendingRecords s ++ charDataQueue s).
    { rewrite drainCharData_eq. cbn [charDataQueue setPendingRecords].
      destruct (charDataQueue s); [contradiction|reflexivity]. }
    apply (batch_record_reported t (setPendingRecords [] s) (pendingRecords s)
             (pendingRecords s ++ charDataQueue s) rec r Hb');
      [apply in_or_app; right; exact Hin| | |exact Hact].
    + rewrite (readMutation_snd_indep t (setPendingRecords [] s) s rec). exact Hr.
    + rewrite (resolved_indep t (setPendingRecords [] s) s). exact Hall.
Qed.

Lemma legacy_queue_consumed_once_witness :
  let s := runEvents scenarioTree [CharDataModified 2%nat None; CharDataModified 2%nat None] legacy in
  charDataQueue s <> [] /\
  charDataTimeout s = Some 0%nat /\ In 0%nat (timers s) /\
  snd (drainCharData s []) = charDataQueue s /\
  charDataQueue (fst (applyMutations scenarioTree s [])) = [] /\
  charDataTimeout (fst (applyMutations scenarioTree s [])) = None /\
  ~ In 0%nat (timers (fst (applyMutations scenarioTree s []))) /\
  snd (applyMutations scenarioTree s []) = true /\
  calls (fst (applyMutations scenarioTree s [])) = [OnDOMChange 5 9; DocViewSync].
Proof.
  cbn zeta.
  assert (Hne : charDataQueue
                  (runEvents scenarioTree
                     [CharDataModified 2%nat None; CharDataModified 2%nat None] legacy) <> []).
  { discriminate. }
  split; [exact Hne|]. split; [reflexivity|]. split; [left; reflexivity|].
  destruct (legacy_queue_consumed_once scenarioTree _ [] Hne)
    as (Hb & _ & _ & _ & _ & Hq & Ht & Hti & _ & _ & _ & Happly & _).
  split; [exact Hb|]. split; [exact Hq|]. split; [exact Ht|].
  split; [apply Hti; reflexivity|].
  rewrite Happly. split; reflexivity.
Defined.

(** ** Construction *)


(** On the legacy path a text change right after construction is queued
    with a debounce timer, and forwarded when the timer fires. *)
Lemma legacy_delivery_forwards (t : Tree) (mo docDirty : bool) (handler : bool -> bool)
  (n : Node) (v : option string) (desc : Desc) :
  nearest t n = Some desc ->
  0 <= posAtStart t desc ->
  calls (runEvents t [CharDataModified n v; TimerFired 0%nat] (construct mo true docDirty handler))
  = OnDOMChange (posAtStart t desc) (posAtEnd t desc)
    :: (if handler true then [DocViewSync] else []).
Proof.
  intros Hn Hpos.
  remember (mkRecord n characterData None None v) as rec eqn:Hrec.
  assert (Hr : forall s, snd (readMutation t s rec)
                         = Some (mkRange (posAtStart t desc) (posAtEnd t desc))).
  { intros s. unfold readMutation. subst rec. cbn [target type]. rewrite Hn. reflexivity. }
  assert (Htr : tracked t rec = true).
  { unfold tracked. subst rec. cbn [target]. rewrite Hn. reflexivity. }
  cbn [runEvents].
  remember (dispatch t (CharDataModified n v) (construct mo true docDirty handler)) as s1 eqn:Hs1.
  assert (Hs1' : s1 = onCharData n v (construct mo true docDirty handler)).
  { subst s1. cbn [dispatch]. destruct mo; reflexivity. }
  assert (Ht : timers s1 = [0%nat]) by (rewrite Hs1'; destruct mo; reflexivity).
  assert (Hq : charDataQueue s1 = [rec]) by (rewrite Hs1', Hrec; destruct mo; reflexivity).
  assert (Ha : active s1 = true) by (rewrite Hs1'; destruct mo; reflexivity).
  assert (Hc : calls s1 = []) by (rewrite Hs1'; destruct mo; reflexivity).
  assert (Hh : dirtyAfterChange s1 = handler) by (rewrite Hs1'; destruct mo; reflexivity).
  assert (Hp : pendingRecords s1 = []) by (rewrite Hs1'; destruct mo; reflexivity).
  clear Hs1 Hs1' Hrec.
  cbn [dispatch]. rewrite Ht. cbn [existsb Nat.eqb orb].
  assert (Hcalls : forall s0, charDataQueue s0 = [rec] -> active s0 = true -> calls s0 = [] ->
                     dirtyAfterChange s0 = handler ->
                     calls (fst (applyMutations t s0 []))
                     = OnDOMChange (posAtStart t desc) (posAtEnd t desc)
                       :: (if handler true then [DocViewSync] else [])).
  { intros s0 Hq0 Ha0 Hc0 Hh0.
    rewrite applyMutations_eq. cbn zeta. rewrite drainCharData_eq, Hq0. cbn [fst snd app].
    rewrite mergedRange_single, Hr. cbn [accumulate fst snd existsb from to].
    replace (-1 =? -1) with true by reflexivity. cbn [fst snd from to].
    replace (-1 <? posAtStart t desc) with true by (symmetry; apply Z.ltb_lt; lia).
    rewrite Htr, Ha0, orb_true_r, Hh0. cbn [andb].
    rewrite callAll_eq. cbn [calls setDirty setCharDataQueue setCharDataTimeout].
    destruct (charDataTimeout s0); cbn [clearTimeout calls setTimers]; rewrite Hc0; reflexivity. }
  rewrite flush_eq.
  destruct (observer (clearTimeout (Some 0%nat) s1)).
  - replace (pendingRecords (clearTimeout (Some 0%nat) s1)) with (@nil MutationRecord)
      by (symmetry; exact Hp).
    apply Hcalls; [exact Hq|exact Ha|exact Hc|exact Hh].
  - apply Hcalls; [exact Hq|exact Ha|exact Hc|exact Hh].
Qed.

(** C10.  The constructor ends with [start()]: a new observer is active, its
    mutation observer (where the platform has one) is connected and the
    legacy listener (where needed) is registered.  A mutation that happens
    right after construction is therefore queued, and its delivery calls
    [onDOMChange] with the range it resolves to, without any call of
    [start()] by the owner; on the legacy path a text change is forwarded
    when its debounce timer fires. *)
Theorem constructed_observer_is_active (mo legacyEvents docDirty : bool)
  (handler : bool -> bool) :
  construct mo legacyEvents docDirty handler
  = start (listenForSelectionChanges (fresh mo legacyEvents docDirty handler)) /\
  active (fresh mo legacyEvents docDirty handler) = false /\
  active (construct mo legacyEvents docDirty handler) = true /\
  observing (construct mo legacyEvents docDirty handler) = mo /\
  charDataListener (construct mo legacyEvents docDirty handler) = legacyEvents /\
  (forall (t : Tree) (rec : MutationRecord) (r : Range),
     mo = true ->
     snd (readMutation t (construct mo legacyEvents docDirty handler) rec) = Some r ->
     0 <= from r ->
     pendingRecords (dispatch t (Mutated rec) (construct mo legacyEvents docDirty handler))
     = [rec] /\
     calls (runEvents t [Mutated rec; RecordsDelivered]
              (construct mo legacyEvents docDirty handler))
     = OnDOMChange (from r) (to r) :: (if handler true then [DocViewSync] else [])) /\
  (forall (t : Tree) (n : Node) (v : option string) (desc : Desc),
     legacyEvents = true ->
     nearest t n = Some desc ->
     0 <= posAtStart t desc ->
     calls (runEvents t [CharDataModified n v; TimerFired 0%nat]
              (construct mo legacyEvents docDirty handler))
     = OnDOMChange (posAtStart t desc) (posAtEnd t desc)
       :: (if handler true then [DocViewSync] else [])).
Proof.
  split; [reflexivity|]. split; [reflexivity|].
  split; [apply start_active|].
  split; [destruct mo, legacyEvents; reflexivity|].
  split; [destruct mo, legacyEvents; reflexivity|].
  split; [|intros t n v desc -> Hn Hpos; apply legacy_delivery_forwards; assumption].
  intros t rec r -> Hr Hpos.
  assert (Hc : calls (construct true legacyEvents docDirty handler) = [])
    by (destruct legacyEvents; reflexivity).
  assert (Hh : dirtyAfterChange (construct true legacyEvents docDirty handler) = handler)
    by (destruct legacyEvents; reflexivity).
  destruct (delivery_forwards t (construct true legacyEvents docDirty handler) rec r)
    as [Hp Hcalls];
    try assumption; try (destruct legacyEvents; reflexivity).
  split; [exact Hp|]. rewrite Hcalls, Hc, Hh. reflexivity.
Qed.

Lemma constructed_observer_is_active_witness :
  snd (readMutation scenarioTree (construct true false false (fun d => d)) removalBetweenAB)
  = Some (mkRange 5 5) /\
  0 <= from (mkRange 5 5) /\
  calls (runEvents scenarioTree [Mutated removalBetweenAB; RecordsDelivered]
           (construct true false false (fun d => d)))
  = [OnDOMChange 5 5; DocViewSync] /\
  calls (runEvents scenarioTree [Mutated removalBetweenAB; RecordsDelivered]
           (construct true false false (fun _ => false)))
  = [OnDOMChange 5 5].
Proof.
  split; [reflexivity|]. split; [simpl; lia|].
  split.
  - destruct (constructed_observer_is_active true false false (fun d => d))
      as (_ & _ & _ & _ & _ & H & _).
    destruct (H scenarioTree removalBetweenAB (mkRange 5 5) eq_refl eq_refl) as [_ Hc].
    + simpl. lia.
    + exact Hc.
  - destruct (constructed_observer_is_active true false false (fun _ => false))
      as (_ & _ & _ & _ & _ & H & _).
    destruct (H scenarioTree removalBetweenAB (mkRange 5 5) eq_refl eq_refl) as [_ Hc].
    + simpl. lia.
    + exact Hc.
Defined.

(** ** Teardown *)

(** What [destroy()] leaves behind (C8).  After [destroy()] the intersection
    observer still watches its targets and delivers to [onIntersect]; the
    focus and blur listeners are still registered, and a later focus event
    registers the selection listener again; on a platform without mutation
    observers a pending debounce timer survives and runs the pipeline when it
    fires. *)
Lemma destroy_leaves_registrations :
  let s := runEvents scenarioTree [CallObserveIntersection [1%nat]; CallDestroy] modern in
  let old := runEvents scenarioTree [CharDataModified 2%nat None; CallDestroy]
               (construct false true false (fun d => d)) in
  active s = false /\ observing s = false /\ selectionListener s = false /\
  observedElements s = [1%nat] /\
  calls (runEvents scenarioTree [Intersected (mkEntry 1%nat 1%Qc); IntersectionsDelivered] s)
  = [OnIntersect] /\
  focusListeners s = true /\
  selectionListener (dispatch scenarioTree (Focused (mkEnv true false)) s) = true /\
  timers old = [0%nat] /\
  calls (dispatch scenarioTree (TimerFired 0%nat) old) = [DocViewSync].
Proof. vm_compute. repeat split; reflexivity. Qed.

(** The pipeline does not touch the registrations. *)
Lemma applyMutations_frame (t : Tree) (s : DOMObserver) (records : list MutationRecord) :
  observer (fst (applyMutations t s records)) = observer s /\
  useCharData (fst (applyMutations t s records)) = useCharData s /\
  listening (fst (applyMutations t s records)) = listening s /\
  observing (fst (applyMutations t s records)) = observing s /\
  pendingRecords (fst (applyMutations t s records)) = pendingRecords s /\
  charDataListener (fst (applyMutations t s records)) = charDataListener s /\
  selectionListener (fst (applyMutations t s records)) = selectionListener s /\
  focusListeners (fst (applyMutations t s records)) = focusListeners s /\
  observedElements (fst (applyMutations t s records)) = observedElements s /\
  intersectionQueue (fst (applyMutations t s records)) = intersectionQueue s.
Proof.
  rewrite applyMutations_eq. cbn zeta. rewrite drainCharData_eq.
  destruct (charDataQueue s) as [|q qs]; cbn [fst snd];
    [destruct records as [|rec rest]|destruct (records ++ q :: qs) as [|rec rest]];
    cbn [fst snd];
    repeat match goal with
           | |- context [if ?b then _ else _] => destruct b
           end;
    try destruct (charDataTimeout s); repeat split; reflexivity.
Qed.

Lemma flush_frame (t : Tree) (s : DOMObserver) :
  observer (fst (flush t s)) = observer s /\
  useCharData (fst (flush t s)) = useCharData s /\
  listening (fst (flush t s)) = listening s /\
  observing (fst (flush t s)) = observing s /\
  charDataListener (fst (flush t s)) = charDataListener s /\
  selectionListener (fst (flush t s)) = selectionListener s /\
  focusListeners (fst (flush t s)) = focusListeners s /\
  observedElements (fst (flush t s)) = observedElements s /\
  intersectionQueue (fst (flush t s)) = intersectionQueue s.
Proof.
  rewrite flush_eq. destruct (observer s) eqn:Ho.
  - destruct (applyMutations_frame t (setPendingRecords [] s) (pendingRecords s))
      as (H1 & H2 & H3 & H4 & _ & H6 & H7 & H8 & H9 & H10).
    cbn [observer setPendingRecords] in H1. repeat split; try assumption. congruence.
  - destruct (applyMutations_frame t s []) as (H1 & H2 & H3 & H4 & _ & H6 & H7 & H8 & H9 & H10).
    repeat split; try assumption. congruence.
Qed.

(** ** Selection changes and edits *)

(** One handling of a selection change calls exactly one of the two
    callbacks. *)
Lemma readSelection_notifies_once (t : Tree) (env : Env) (s : DOMObserver) :
  active s = true ->
  hasFocus env = true ->
  hasSelection env = true ->
  readSelection t env s
  = (if snd (flush t s) then fst (flush t s) else call OnSelectionChange (fst (flush t s))) /\
  exists extra,
    calls (readSelection t env s) = calls s ++ extra /\
    (countCalls isSelectionChange extra = 1%nat <-> snd (flush t s) = false) /\
    (countCalls isDOMChange extra = 1%nat <-> snd (flush t s) = true) /\
    (countCalls isDOMChange extra + countCalls isSelectionChange extra = 1)%nat.
Proof.
  intros Ha Hf Hs.
  assert (Hread : readSelection t env s
                  = (if snd (flush t s) then fst (flush t s)
                     else call OnSelectionChange (fst (flush t s)))).
  { unfold readSelection. rewrite Ha, Hf, Hs. cbn [negb orb].
    destruct (flush t s) as [s' applied]. destruct applied; reflexivity. }
  split; [exact Hread|]. rewrite Hread.
  destruct (flush_calls t s) as (f & e & resync & Hc & Hr & _ & _).
  destruct (snd (flush t s)).
  - exists ([OnDOMChange f e] ++ resync). split; [exact Hc|].
    destruct Hr as [-> | ->]; cbn; repeat split; auto; discriminate.
  - exists (resync ++ [OnSelectionChange]). cbn [call calls]. rewrite Hc.
    split; [rewrite <- app_assoc; reflexivity|].
    destruct Hr as [-> | ->]; cbn; repeat split; auto; discriminate.
Qed.

(** After the host has delivered the one pending record, nothing is left
    for the flush of a selection change. *)
Lemma delivered_then_selection (t : Tree) (env : Env) (s : DOMObserver) (rec : MutationRecord)
  (r : Range) :
  active s = true -> hasFocus env = true -> hasSelection env = true ->
  observing s = true -> selectionListener s = true ->
  pendingRecords s = [] -> charDataQueue s = [] ->
  snd (readMutation t s rec) = Some r ->
  0 <= from r ->
  calls (runEvents t [Mutated rec; RecordsDelivered; SelectionChanged env] s)
  = calls s ++ (OnDOMChange (from r) (to r)
                :: (if dirtyAfterChange s true then [DocViewSync] else []))
            ++ [OnSelectionChange].
Proof.
  intros Ha Hf Hs Hobs Hsel Hp Hq Hr Hfrom.
  destruct (delivery_forwards t s rec r Ha Hobs Hp Hq Hr Hfrom) as [Hpend Hcalls].
  change (runEvents t [Mutated rec; RecordsDelivered; SelectionChanged env] s)
    with (dispatch t (SelectionChanged env) (runEvents t [Mutated rec; RecordsDelivered] s)).
  remember (runEvents t [Mutated rec; RecordsDelivered] s) as s2 eqn:Hs2.
  assert (Hs2' : s2 = fst (applyMutations t (setPendingRecords [] (dispatch t (Mutated rec) s))
                             [rec])).
  { rewrite Hs2. cbn [runEvents]. cbn [dispatch] in Hpend |- *. rewrite Hobs in Hpend |- *.
    cbn [pendingRecords setPendingRecords] in Hpend |- *. rewrite Hpend.
    unfold takeRecords. cbn [fst snd pendingRecords setPendingRecords]. reflexivity. }
  set (s1 := setPendingRecords [] (dispatch t (Mutated rec) s)) in Hs2'.
  assert (Hs1 : active s1 = true /\ selectionListener s1 = true /\ pendingRecords s1 = []).
  { subst s1. cbn [dispatch]. rewrite Hobs. cbn. auto. }
  destruct Hs1 as (Ha1 & Hsel1 & Hp1).
  destruct (applyMutations_frame t s1 [rec]) as (_ & _ & _ & _ & Hp2 & _ & Hsel2 & _).
  destruct (applyMutations_calls t s1 [rec]) as (_ & _ & _ & _ & _ & Ha2 & _).
  destruct (applyMutations_queue t s1 [rec]) as (Hq2 & _).
  cbn zeta in Hq2. rewrite <- Hs2' in Hp2, Hsel2, Ha2, Hq2.
  rewrite Hp1 in Hp2. rewrite Hsel1 in Hsel2. rewrite Ha1 in Ha2.
  cbn [dispatch]. rewrite Hsel2.
  destruct (readSelection_notifies_once t env s2 Ha2 Hf Hs) as [Hread _]. rewrite Hread.
  assert (Hflush : flush t s2 = (if observer s2 then setPendingRecords [] s2 else s2, false)).
  { rewrite flush_eq. destruct (observer s2); rewrite applyMutations_eq, drainCharData_eq;
      cbn [charDataQueue setPendingRecords]; rewrite Hq2, ?Hp2; reflexivity. }
  rewrite Hflush. cbn [fst snd call calls].
  replace (calls (if observer s2 then setPendingRecords [] s2 else s2)) with (calls s2)
    by (destruct (observer s2); reflexivity).
  rewrite Hcalls, <- List.app_assoc. reflexivity.
Qed.

(** C3, as the code has it.  On a selection change with the observer
    active, the root focused and a selection inside it, [flush()] runs first
    and [onSelectionChange] is called exactly when [flush()] returned false,
    so that one handling of a selection change calls exactly one of
    [onDOMChange] and [onSelectionChange].  For an edit that produces a
    mutation record and a selection change this gives exactly one callback
    when the record is still pending as the selection change is handled;
    when the host has delivered the record to the observer's callback before
    it, [onDOMChange] is called by the delivery and [onSelectionChange] by
    the selection change: both. *)
Theorem selection_change_notifies_exactly_once (t : Tree) (env : Env) (s : DOMObserver) :
  active s = true ->
  hasFocus env = true ->
  hasSelection env = true ->
  readSelection t env s
  = (if snd (flush t s) then fst (flush t s) else call OnSelectionChange (fst (flush t s))) /\
  (exists extra,
    calls (readSelection t env s) = calls s ++ extra /\
    (countCalls isSelectionChange extra = 1%nat <-> snd (flush t s) = false) /\
    (countCalls isDOMChange extra = 1%nat <-> snd (flush t s) = true) /\
    (countCalls isDOMChange extra + countCalls isSelectionChange extra = 1)%nat) /\
  (selectionListener s = true ->
   forall rec, editNotifiesOnce t rec [] env s) /\
  (selectionListener s = true -> observing s = true ->
   pendingRecords s = [] -> charDataQueue s = [] ->
   forall rec r,
     snd (readMutation t s rec) = Some r -> 0 <= from r ->
     calls (runEvents t [Mutated rec; RecordsDelivered; SelectionChanged env] s)
     = calls s ++ (OnDOMChange (from r) (to r)
                   :: (if dirtyAfterChange s true then [DocViewSync] else []))
               ++ [OnSelectionChange] /\
     ~ editNotifiesOnce t rec [RecordsDelivered] env s).
Proof.
  intros Ha Hf Hs.
  destruct (readSelection_notifies_once t env s Ha Hf Hs) as [Hread Hone].
  split; [exact Hread|]. split; [exact Hone|]. split.
  - intros Hsel rec. unfold editNotifiesOnce. cbn [app runEvents].
    set (s1 := dispatch t (Mutated rec) s).
    assert (Hs1 : active s1 = true /\ selectionListener s1 = true /\ calls s1 = calls s).
    { subst s1. cbn [dispatch]. destruct (observing s); cbn; auto. }
    destruct Hs1 as (Ha1 & Hsel1 & Hc1). cbn [dispatch]. rewrite Hsel1.
    destruct (readSelection_notifies_once t env s1 Ha1 Hf Hs) as [_ (extra & Hc & _ & _ & H1)].
    exists extra. rewrite <- Hc1. split; [exact Hc|exact H1].
  - intros Hsel Hobs Hp Hq rec r Hr Hfrom.
    pose proof (delivered_then_selection t env s rec r Ha Hf Hs Hobs Hsel Hp Hq Hr Hfrom) as Hc.
    split; [exact Hc|]. intros (extra & Hc' & H1). cbn [app] in Hc'.
    rewrite Hc in Hc'. apply app_inv_head in Hc'. subst extra.
    unfold exactlyOneNotification, countCalls in H1.
    destruct (dirtyAfterChange s true); cbn in H1; discriminate H1.
Qed.

Lemma selection_change_notifies_exactly_once_witness :
  let s := dispatch scenarioTree (Mutated textChangeInB) modern in
  active s = true /\ hasFocus (mkEnv true true) = true /\ hasSelection (mkEnv true true) = true /\
  calls (readSelection scenarioTree (mkEnv true true) s) = [OnDOMChange 5 9; DocViewSync] /\
  calls (readSelection scenarioTree (mkEnv true true) modern) = [OnSelectionChange].
Proof.
  cbn zeta. split; [reflexivity|]. split; [reflexivity|]. split; [reflexivity|].
  split.
  - rewrite (proj1 (selection_change_notifies_exactly_once scenarioTree (mkEnv true true)
                      (dispatch scenarioTree (Mutated textChangeInB) modern)
                      eq_refl eq_refl eq_refl)).
    reflexivity.
  - rewrite (proj1 (selection_change_notifies_exactly_once scenarioTree (mkEnv true true)
                      modern eq_refl eq_refl eq_refl)).
    reflexivity.
Defined.

(** C3, as the documentation has it, fails: the observer is active, the
    root focused with a selection inside; the host delivers the record of
    the edit to the observer's callback and then reports the selection
    change; both callbacks run for the one edit. *)
Lemma selection_change_notifies_twice_counterexample :
  let s := dispatch scenarioTree (Focused (mkEnv true false)) modern in
  active s = true /\ selectionListener s = true /\
  calls (runEvents scenarioTree
           [Mutated textChangeInB; RecordsDelivered; SelectionChanged (mkEnv true true)] s)
  = [OnDOMChange 5 9; DocViewSync; OnSelectionChange] /\
  ~ editNotifiesOnce scenarioTree textChangeInB [RecordsDelivered] (mkEnv true true) s.
Proof.
  cbn zeta. split; [reflexivity|]. split; [reflexivity|]. split; [reflexivity|].
  intros (extra & Hc & H1). vm_compute in Hc. subst extra. vm_compute in H1. discriminate H1.
Qed.


(** What [destroy()] does release: the mutation observer, the legacy
    listener and the selection listener; the observer is left inactive, so
    later selection changes call neither [onDOMChange] nor
    [onSelectionChange]. *)
Lemma destroy_releases (t : Tree) (s : DOMObserver) :
  active s = true ->
  active (destroy t s) = false /\
  (observer s = true -> observing (destroy t s) = false /\ pendingRecords (destroy t s) = []) /\
  (useCharData s = true -> charDataListener (destroy t s) = false) /\
  selectionListener (destroy t s) = false /\
  (forall env, readSelection t env (destroy t s) = destroy t s).
Proof.
  intros Ha.
  assert (Hact : active (destroy t s) = false).
  { unfold destroy, stop. rewrite Ha. cbn [negb].
    destruct (observer (setActive false s)).
    - destruct (flush_calls t (setActive false s)) as (_ & _ & _ & _ & _ & Hact' & _).
      destruct (useCharData (disconnect (fst (flush t (setActive false s))))); exact Hact'.
    - destruct (useCharData (setActive false s)); reflexivity. }
  destruct (flush_frame t (setActive false s)) as (_ & Hu & _).
  split; [exact Hact|].
  split.
  { intros Ho. unfold destroy, stop. rewrite Ha. cbn [negb].
    replace (observer (setActive false s)) with true by (symmetry; exact Ho).
    destruct (useCharData _); split; reflexivity. }
  split.
  { intros Hus. unfold destroy, stop. rewrite Ha. cbn [negb].
    destruct (observer (setActive false s)).
    - replace (useCharData (disconnect (fst (flush t (setActive false s))))) with true
        by (symmetry; etransitivity; [exact Hu|exact Hus]).
      reflexivity.
    - replace (useCharData (setActive false s)) with true by (symmetry; exact Hus).
      reflexivity. }
  split; [reflexivity|].
  intros env. apply readSelection_inactive. exact Hact.
Qed.

(** ** Building the keymap *)

Lemma mapM_fails {A B} (f : A -> Result B) (l : list A) (x : A) (e : string) :
  In x l -> f x = Error e -> exists e', mapM f l = Error e'.
Proof.
  induction l as [|a l IH]; intros Hin Hx; [contradiction|]. simpl.
  destruct Hin as [-> | Hin].
  - rewrite Hx. simpl. eauto.
  - destruct (f a); simpl; [|eauto].
    destruct (IH Hin Hx) as [e' ->]. simpl. eauto.
Qed.

Lemma mapM_error_from {A B} (f : A -> Result B) (l : list A) (e : string) :
  mapM f l = Error e -> exists x, In x l /\ f x = Error e.
Proof.
  induction l as [|a l IH]; simpl; [discriminate|].
  destruct (f a) as [b|e'] eqn:Ha; simpl.
  - destruct (mapM f l) as [bs|e'']; simpl; [discriminate|].
    intros H. injection H as ->. destruct (IH eq_refl) as (x & Hin & Hx). eauto.
  - intros H. injection H as ->. eauto.
Qed.

Lemma foldM_fails {A S} (f : A -> S -> Result S) (l : list A) (a : A) :
  In a l -> (forall st, exists e, f a st = Error e) ->
  forall st, exists e, foldM f l st = Error e.
Proof.
  intros Hin Hbad. induction l as [|x l IH]; [contradiction|]. intros st. simpl.
  destruct Hin as [-> | Hin].
  - destruct (Hbad st) as [e ->]. simpl. eauto.
  - destruct (f x st) as [st'|e]; simpl; [apply (IH Hin)|eauto].
Qed.

Lemma foldM_error_from {A S} (f : A -> S -> Result S) (l : list A) :
  forall st e, foldM f l st = Error e -> exists a st', In a l /\ f a st' = Error e.
Proof.
  induction l as [|x l IH]; intros st e; simpl; [discriminate|].
  destruct (f x st) as [st'|e'] eqn:Hx; simpl.
  - intros H. destruct (IH _ _ H) as (a & st'' & Hin & Ha). eauto.
  - intros H. injection H as ->. eauto.
Qed.

Lemma recognised_cases (modName : string) :
  recognised modName =
  matchesAny ["cmd"; "meta"; "m"]%string modName || matchesAny ["a"; "alt"]%string modName
  || matchesAny ["c"; "ctrl"; "control"]%string modName || matchesAny ["s"; "shift"]%string modName
  || matchesAny ["mod"]%string modName.
Proof.
  unfold recognised, matchesAny. simpl.
  rewrite ?orb_false_r, ?orb_assoc. reflexivity.
Qed.

Lemma readModifiers_unknown (platform : PlatformName) (mods : list string) :
  existsb (fun modName => negb (recognised modName)) mods = true ->
  forall m, exists modName,
    readModifiers platform mods m = Error ("Unrecognized modifier name: " +:+ modName).
Proof.
  induction mods as [|modName rest IH]; cbn [existsb readModifiers]; [discriminate|].
  intros H m. rewrite recognised_cases in H.
  destruct (matchesAny ["cmd"; "meta"; "m"]%string modName); [apply IH; exact H|].
  destruct (matchesAny ["a"; "alt"]%string modName); [apply IH; exact H|].
  destruct (matchesAny ["c"; "ctrl"; "control"]%string modName); [apply IH; exact H|].
  destruct (matchesAny ["s"; "shift"]%string modName); [apply IH; exact H|].
  destruct (matchesAny ["mod"]%string modName); [destruct platform; apply IH; exact H|].
  eauto.
Qed.

Lemma readModifiers_error (platform : PlatformName) (mods : list string) :
  forall m e, readModifiers platform mods m = Error e -> descriptive e.
Proof.
  induction mods as [|modName rest IH]; cbn [readModifiers]; intros m e; [discriminate|].
  destruct (matchesAny ["cmd"; "meta"; "m"]%string modName); [apply IH|].
  destruct (matchesAny ["a"; "alt"]%string modName); [apply IH|].
  destruct (matchesAny ["c"; "ctrl"; "control"]%string modName); [apply IH|].
  destruct (matchesAny ["s"; "shift"]%string modName); [apply IH|].
  destruct (matchesAny ["mod"]%string modName); [destruct platform; apply IH|].
  intros H. injection H as <-. left. eauto.
Qed.

Lemma normalizeKeyName_unknown (platform : PlatformName) (stroke : string) :
  strokeHasUnknownModifier stroke = true ->
  exists modName,
    normalizeKeyName stroke platform = Error ("Unrecognized modifier name: " +:+ modName).
Proof.
  intros H. unfold normalizeKeyName. cbn zeta.
  destruct (readModifiers_unknown platform _ H (mkModifiers false false false false))
    as [modName ->].
  simpl. eauto.
Qed.

Lemma normalizeKeyName_error (platform : PlatformName) (stroke e : string) :
  normalizeKeyName stroke platform = Error e -> descriptive e.
Proof.
  unfold normalizeKeyName. cbn zeta.
  destruct (readModifiers platform _ _) as [m|e'] eqn:Hm; simpl; [discriminate|].
  intros H. injection H as <-. eapply readModifiers_error. exact Hm.
Qed.

Lemma checkPrefix_error (name : string) (isP : bool) (st : Builder) (e : string) :
  checkPrefix name isP st = Error e -> descriptive e.
Proof.
  unfold checkPrefix. destruct (isPrefix st !! name) as [current|]; [|discriminate].
  destruct (Bool.eqb current isP); [discriminate|].
  intros H. injection H as <-. right. eauto.
Qed.

Lemma add_error (platform : PlatformName) (scopeName keyName : string) (command : Command)
  (prevent : option bool) (st : Builder) (e : string) :
  add platform scopeName keyName command prevent st = Error e -> descriptive e.
Proof.
  unfold add. cbn zeta.
  destruct (mapM _ (splitNotLast " " keyName)) as [parts|e'] eqn:Hparts; simpl.
  - destruct (foldM (addPrefix scopeName) (prefixesOf parts) _) as [[scopeObj st1]|e'] eqn:Hfold;
      simpl.
    + destruct (checkPrefix _ false st1) as [st2|e'] eqn:Hcheck; simpl; [discriminate|].
      intros H. injection H as <-. eapply checkPrefix_error. exact Hcheck.
    + intros H. injection H as <-.
      destruct (foldM_error_from _ _ _ _ Hfold) as (prefix & [scopeObj st1] & _ & Hp).
      unfold addPrefix in Hp.
      destruct (checkPrefix prefix true st1) as [st2|e''] eqn:Hcheck; simpl in Hp.
      * destruct (scopeObj !! prefix); discriminate.
      * injection Hp as <-. eapply checkPrefix_error. exact Hcheck.
  - intros H. injection H as <-.
    destruct (mapM_error_from _ _ _ Hparts) as (stroke & _ & Hs).
    eapply normalizeKeyName_error. exact Hs.
Qed.

(** Every error raised while a keymap is built is one of the two
    descriptive messages. *)
Lemma buildKeymap_error (platform : PlatformName) (bindings : list KeyBinding) (e : string) :
  buildKeymap bindings platform = Error e -> descriptive e.
Proof.
  unfold buildKeymap.
  destruct (foldM (addBindings platform) bindings _) as [st|e'] eqn:Hfold; simpl; [discriminate|].
  intros H. injection H as <-.
  destruct (foldM_error_from _ _ _ _ Hfold) as (b & st & _ & Hb).
  unfold addBindings in Hb. destruct (effectiveName platform b) as [name|]; [|discriminate].
  destruct (foldM_error_from _ _ _ _ Hb) as (scopeName & st' & _ & Hs).
  unfold addBinding in Hs.
  destruct (add platform scopeName name (run b) (preventDefault b) st') as [st''|e''] eqn:Ha;
    simpl in Hs.
  - destruct (shift b); [eapply add_error; exact Hs|discriminate].
  - injection Hs as <-. eapply add_error. exact Ha.
Qed.

Lemma splitAll_nonempty (c : ascii) (s : string) : splitAll c s <> [].
Proof.
  destruct s as [|a rest]; simpl; [discriminate|].
  destruct (Ascii.eqb a c); [discriminate|]. destruct (splitAll c rest); discriminate.
Qed.

Lemma scopesOf_nonempty (b : KeyBinding) : scopesOf b <> [].
Proof.
  unfold scopesOf. destruct (truthy (scope b)); [apply splitAll_nonempty|discriminate].
Qed.

Lemma add_unknown_modifier (platform : PlatformName) (scopeName keyName stroke : string)
  (command : Command) (prevent : option bool) (st : Builder) :
  In stroke (splitNotLast " " keyName) -> strokeHasUnknownModifier stroke = true ->
  exists e, add platform scopeName keyName command prevent st = Error e.
Proof.
  intros Hin Hbad. unfold add. cbn zeta.
  destruct (normalizeKeyName_unknown platform stroke Hbad) as [modName Hm].
  destruct (mapM_fails (fun k => normalizeKeyName k platform) _ stroke _ Hin Hm) as [e ->].
  simpl. eauto.
Qed.


(** *** What a successful addition records *)

Lemma extends_refl (st : Builder) : extends st st.
Proof. intros name v H. exact H. Qed.

Lemma extends_trans (st1 st2 st3 : Builder) :
  extends st1 st2 -> extends st2 st3 -> extends st1 st3.
Proof. intros H12 H23 name v H. apply H23, H12, H. Qed.

Lemma registered_extends (parts : list string) (st st' : Builder) :
  registered parts st -> extends st st' -> registered parts st'.
Proof.
  intros [Hfull Hpre] Hext. split; [apply Hext, Hfull|].
  intros prefix Hin. apply Hext, Hpre, Hin.
Qed.

Lemma checkPrefix_ok (name : string) (isP : bool) (st st' : Builder) :
  checkPrefix name isP st = Ok st' ->
  isPrefix st' !! name = Some isP /\ extends st st'.
Proof.
  unfold checkPrefix. destruct (isPrefix st !! name) as [current|] eqn:Hl.
  - destruct (Bool.eqb current isP) eqn:Heq; [|discriminate].
    intros H. injection H as <-. apply Bool.eqb_prop in Heq. subst current.
    split; [exact Hl|apply extends_refl].
  - intros H. injection H as <-. cbn [isPrefix]. split; [apply lookup_insert_eq|].
    intros k v Hk. cbn [isPrefix].
    destruct (decide (name = k)) as [->|Hne]; [congruence|].
    rewrite lookup_insert_ne by exact Hne. exact Hk.
Qed.

Lemma addPrefix_ok (scopeName prefix : string) (acc acc' : gmap string Binding * Builder) :
  addPrefix scopeName prefix acc = Ok acc' ->
  isPrefix (snd acc') !! prefix = Some true /\ extends (snd acc) (snd acc').
Proof.
  destruct acc as [scopeObj st]. unfold addPrefix.
  destruct (checkPrefix prefix true st) as [st1|e] eqn:Hc; simpl; [|discriminate].
  destruct (checkPrefix_ok _ _ _ _ Hc) as [Hp Hext].
  destruct (scopeObj !! prefix); intros H; injection H as <-; split; assumption.
Qed.

Lemma addPrefixes_ok (scopeName : string) (prefixes : list string) :
  forall acc acc',
    foldM (addPrefix scopeName) prefixes acc = Ok acc' ->
    (forall prefix, In prefix prefixes -> isPrefix (snd acc') !! prefix = Some true) /\
    extends (snd acc) (snd acc').
Proof.
  induction prefixes as [|p rest IH]; intros acc acc'; simpl.
  - intros H. injection H as <-. split; [intros ? []|apply extends_refl].
  - destruct (addPrefix scopeName p acc) as [acc1|e] eqn:Hp; simpl; [|discriminate].
    intros H. destruct (addPrefix_ok _ _ _ _ Hp) as [Hset Hext1].
    destruct (IH _ _ H) as [Hrest Hext2].
    split; [|eapply extends_trans; eassumption].
    intros prefix [<- | Hin]; [apply Hext2, Hset|apply Hrest, Hin].
Qed.

Lemma add_ok (platform : PlatformName) (scopeName keyName : string) (command : Command)
  (prevent : option bool) (st st' : Builder) :
  add platform scopeName keyName command prevent st = Ok st' ->
  extends st st' /\
  exists parts,
    mapM (fun k => normalizeKeyName k platform) (splitNotLast " " keyName) = Ok parts /\
    registered parts st'.
Proof.
  unfold add. cbn zeta.
  destruct (mapM _ (splitNotLast " " keyName)) as [parts|e] eqn:Hparts; simpl; [|discriminate].
  destruct (foldM (addPrefix scopeName) (prefixesOf parts) _) as [[scopeObj st1]|e] eqn:Hfold;
    simpl; [|discriminate].
  destruct (checkPrefix _ false st1) as [st2|e] eqn:Hcheck; simpl; [|discriminate].
  intros H. injection H as <-.
  destruct (addPrefixes_ok _ _ _ _ Hfold) as [Hpre Hext1]. cbn [snd] in Hpre, Hext1.
  destruct (checkPrefix_ok _ _ _ _ Hcheck) as [Hfull Hext2].
  split; [intros k v Hk; cbn [isPrefix]; apply Hext2, Hext1, Hk|].
  exists parts. split; [reflexivity|]. split; cbn [isPrefix]; [exact Hfull|].
  intros prefix Hin. apply Hext2, Hpre, Hin.
Qed.

Lemma addBinding_ok (platform : PlatformName) (name : string) (b : KeyBinding)
  (scopeName : string) (st st' : Builder) :
  addBinding platform name b scopeName st = Ok st' ->
  extends st st' /\
  exists parts,
    mapM (fun k => normalizeKeyName k platform) (splitNotLast " " name) = Ok parts /\
    registered parts st'.
Proof.
  unfold addBinding.
  destruct (add platform scopeName name (run b) (preventDefault b) st) as [st1|e] eqn:Ha;
    simpl; [|discriminate].
  destruct (add_ok _ _ _ _ _ _ _ Ha) as (Hext1 & parts & Hparts & Hreg).
  destruct (shift b) as [command|].
  - intros Hs. destruct (add_ok _ _ _ _ _ _ _ Hs) as (Hext2 & _).
    split; [eapply extends_trans; eassumption|].
    exists parts. split; [exact Hparts|]. eapply registered_extends; eassumption.
  - intros H. injection H as <-. split; [exact Hext1|]. eauto.
Qed.

Lemma addScopes_ok (platform : PlatformName) (name : string) (b : KeyBinding)
  (scopes : list string) :
  forall st st',
    foldM (addBinding platform name b) scopes st = Ok st' ->
    extends st st' /\
    (scopes <> [] ->
     exists parts,
       mapM (fun k => normalizeKeyName k platform) (splitNotLast " " name) = Ok parts /\
       registered parts st').
Proof.
  induction scopes as [|sc rest IH]; intros st st'; simpl.
  - intros H. injection H as <-. split; [apply extends_refl|]. intros Hne. contradiction.
  - destruct (addBinding platform name b sc st) as [st1|e] eqn:Hb; simpl; [|discriminate].
    intros H. destruct (addBinding_ok _ _ _ _ _ _ Hb) as (Hext1 & parts & Hparts & Hreg).
    destruct (IH _ _ H) as [Hext2 _].
    split; [eapply extends_trans; eassumption|].
    intros _. exists parts. split; [exact Hparts|].
    eapply registered_extends; eassumption.
Qed.

Lemma addBindings_ok (platform : PlatformName) (b : KeyBinding) (st st' : Builder) :
  addBindings platform b st = Ok st' ->
  extends st st' /\
  forall name, effectiveName platform b = Some name ->
    exists parts,
      mapM (fun k => normalizeKeyName k platform) (splitNotLast " " name) = Ok parts /\
      registered parts st'.
Proof.
  unfold addBindings. destruct (effectiveName platform b) as [name|].
  - intros H. destruct (addScopes_ok _ _ _ _ _ _ H) as [Hext Hreg].
    split; [exact Hext|]. intros name' Hn. injection Hn as <-.
    apply Hreg, scopesOf_nonempty.
  - intros H. injection H as <-. split; [apply extends_refl|]. discriminate.
Qed.

Lemma allBindings_ok (platform : PlatformName) (bindings : list KeyBinding) :
  forall st st',
    foldM (addBindings platform) bindings st = Ok st' ->
    extends st st' /\
    forall b name, In b bindings -> effectiveName platform b = Some name ->
      exists parts,
        mapM (fun k => normalizeKeyName k platform) (splitNotLast " " name) = Ok parts /\
        registered parts st'.
Proof.
  induction bindings as [|b rest IH]; intros st st'; simpl.
  - intros H. injection H as <-. split; [apply extends_refl|]. intros ? ? [].
  - destruct (addBindings platform b st) as [st1|e] eqn:Hb; simpl; [|discriminate].
    intros H. destruct (addBindings_ok _ _ _ _ Hb) as [Hext1 Hreg1].
    destruct (IH _ _ H) as [Hext2 Hreg2].
    split; [eapply extends_trans; eassumption|].
    intros b' name [<- | Hin] Hname.
    + destruct (Hreg1 name Hname) as (parts & Hparts & Hreg).
      exists parts. split; [exact Hparts|]. eapply registered_extends; eassumption.
    + eapply Hreg2; eassumption.
Qed.


(** *** When the bindings are checked *)

Lemma getKeymap_fresh (platform : PlatformName) (state : EditorState) :
  getKeymap platform state ∅ =
  match buildKeymap (concat (keymapFacet state)) platform with
  | Ok map => (Ok map, <[facetId state := map]> ∅)
  | Error e => (Error e, ∅)
  end.
Proof. unfold getKeymap. rewrite lookup_empty. reflexivity. Qed.

(** Well-formed bindings are built once, at the first key event, and the
    result is kept for the later ones. *)
Lemma getKeymap_caches (platform : PlatformName) (state : EditorState)
  (map : gmap string (gmap string Binding)) :
  buildKeymap (concat (keymapFacet state)) platform = Ok map ->
  getKeymap platform state ∅ = (Ok map, <[facetId state := map]> ∅) /\
  getKeymap platform state (<[facetId state := map]> ∅) = (Ok map, <[facetId state := map]> ∅).
Proof.
  intros Hb. split.
  - rewrite getKeymap_fresh, Hb. reflexivity.
  - unfold getKeymap. rewrite lookup_insert_eq. reflexivity.
Qed.

(** * Further properties of the observer *)

Lemma flush_pending (t : Tree) (s : DOMObserver) :
  pendingRecords (fst (flush t s)) = if observer s then [] else pendingRecords s.
Proof.
  rewrite flush_eq. destruct (observer s).
  - destruct (applyMutations_frame t (setPendingRecords [] s) (pendingRecords s))
      as (_ & _ & _ & _ & H & _). exact H.
  - destruct (applyMutations_frame t s []) as (_ & _ & _ & _ & H & _). exact H.
Qed.

Lemma flush_active (t : Tree) (s : DOMObserver) : active (fst (flush t s)) = active s.
Proof. destruct (flush_calls t s) as (_ & _ & _ & _ & _ & H & _). exact H. Qed.

Lemma stop_active (t : Tree) (s : DOMObserver) : active (stop t s) = false.
Proof.
  unfold stop. destruct (active s) eqn:Ha; cbn [negb]; [|exact Ha].
  destruct (observer (setActive false s)).
  - pose proof (flush_active t (setActive false s)) as E.
    destruct (useCharData (disconnect (fst (flush t (setActive false s))))); exact E.
  - destruct (useCharData (setActive false s)); reflexivity.
Qed.

(** [stop()] calls nothing but, possibly, one resync of the view. *)
Lemma stop_calls (t : Tree) (s : DOMObserver) :
  exists resync, calls (stop t s) = calls s ++ resync /\ (resync = [] \/ resync = [DocViewSync]).
Proof.
  unfold stop. destruct (active s); cbn [negb];
    [|exists []; rewrite app_nil_r; auto].
  destruct (observer (setActive false s)).
  - destruct (flush_calls t (setActive false s)) as (f & e & resync & Hc & Hr & _ & Hs).
    destruct (snd (flush t (setActive false s))); [specialize (Hs eq_refl); discriminate Hs|].
    exists resync. split; [|exact Hr].
    destruct (useCharData (disconnect (fst (flush t (setActive false s))))); exact Hc.
  - exists []. rewrite app_nil_r.
    destruct (useCharData (setActive false s)); auto.
Qed.

(** X1.  [start()] and [stop()] are idempotent: a second call in a row
    changes nothing, calls nothing and registers nothing. *)
Theorem start_stop_idempotent (t : Tree) (s : DOMObserver) :
  start (start s) = start s /\ stop t (stop t s) = stop t s.
Proof.
  split.
  - pose proof (start_active s) as Ha. unfold start at 1. rewrite Ha. reflexivity.
  - pose proof (stop_active t s) as Ha. unfold stop at 1. rewrite Ha. reflexivity.
Qed.

(** ** Registrations follow the active flag *)

Lemma applyMutations_registrations (t : Tree) (s : DOMObserver) (records : list MutationRecord) :
  registrationsFollowActive s -> registrationsFollowActive (fst (applyMutations t s records)).
Proof.
  intros (Ho & Hl & Hp).
  destruct (applyMutations_frame t s records) as (E1 & E2 & _ & E4 & E5 & E6 & _).
  destruct (applyMutations_calls t s records) as (_ & _ & _ & _ & _ & Ea & _).
  unfold registrationsFollowActive. rewrite E1, E2, E4, E5, E6, Ea. auto.
Qed.

Lemma flush_registrations (t : Tree) (s : DOMObserver) :
  registrationsFollowActive s -> registrationsFollowActive (fst (flush t s)).
Proof.
  intros (Ho & Hl & Hp). rewrite flush_eq. destruct (observer s) eqn:E.
  - apply applyMutations_registrations. unfold registrationsFollowActive. cbn. rewrite E. auto.
  - apply applyMutations_registrations. unfold registrationsFollowActive. rewrite E. auto.
Qed.

Lemma readSelection_registrations (t : Tree) (env : Env) (s : DOMObserver) :
  registrationsFollowActive s -> registrationsFollowActive (readSelection t env s).
Proof.
  intros H. unfold readSelection.
  destruct (negb (active s) || negb (hasFocus env) || negb (hasSelection env)); [exact H|].
  pose proof (flush_registrations t s H) as Hf.
  destruct (flush t s) as [s' applied]. destruct applied; exact Hf.
Qed.

Lemma start_registrations (s : DOMObserver) :
  registrationsFollowActive s -> registrationsFollowActive (start s).
Proof.
  intros (Ho & Hl & Hp). unfold start. destruct (active s) eqn:Ha.
  - unfold registrationsFollowActive. rewrite Ha. auto.
  - unfold registrationsFollowActive. cbn [andb] in Ho, Hl.
    destruct (observer s) eqn:Eo; cbn; rewrite ?Eo;
      destruct (useCharData s) eqn:Eu; cbn; rewrite ?Eo, ?Eu;
      repeat split; auto; discriminate.
Qed.

Lemma stop_registrations (t : Tree) (s : DOMObserver) :
  registrationsFollowActive s ->
  registrationsFollowActive (stop t s) /\
  observing (stop t s) = false /\ charDataListener (stop t s) = false /\
  pendingRecords (stop t s) = [].
Proof.
  intros (Ho & Hl & Hp). unfold stop. destruct (active s) eqn:Ha; cbn [negb].
  - destruct (flush_frame t (setActive false s)) as (E1 & E2 & _).
    cbn [observer useCharData setActive] in E1, E2.
    destruct (observer (setActive false s)) eqn:Eo; cbn [observer setActive] in Eo.
    + replace (useCharData (disconnect (fst (flush t (setActive false s)))))
        with (useCharData s) by (symmetry; exact E2).
      pose proof (flush_active t (setActive false s)) as Ea. cbn [active setActive] in Ea.
      destruct (flush_frame t (setActive false s)) as (_ & _ & _ & _ & E5 & _).
      cbn [charDataListener setActive] in E5.
      unfold registrationsFollowActive.
      destruct (useCharData s) eqn:Eu; cbn; rewrite ?Ea, ?E5, ?Hl; cbn; repeat split; auto.
    + rewrite Eo, andb_false_r in Ho.
      unfold registrationsFollowActive.
      destruct (useCharData (setActive false s)) eqn:Eu; cbn [useCharData setActive] in Eu;
        rewrite Eu in Hl; cbn; rewrite ?Ho, ?Eu, ?Hl; repeat split; auto.
  - cbn [andb] in Ho, Hl.
    unfold registrationsFollowActive. rewrite Ha, Ho, Hl. cbn [andb]. auto.
Qed.

Lemma dispatch_registrations (t : Tree) (ev : Event) (s : DOMObserver) :
  registrationsFollowActive s -> registrationsFollowActive (dispatch t ev s).
Proof.
  intros H. pose proof H as (Ho & Hl & Hp). destruct ev; cbn [dispatch].
  - destruct (observing s) eqn:E; [|exact H].
    unfold registrationsFollowActive. cbn. rewrite E. repeat split; auto. discriminate.
  - destruct (charDataListener s); [|exact H]. unfold onCharData. cbn.
    destruct (charDataTimeout s); exact H.
  - destruct (pendingRecords s) eqn:Ep; [exact H|].
    apply (applyMutations_registrations t (setPendingRecords [] s)).
    unfold registrationsFollowActive. cbn. auto.
  - destruct (existsb (Nat.eqb id) (timers s)); [|exact H].
    apply flush_registrations. exact H.
  - destruct (selectionListener s); [apply readSelection_registrations|]; exact H.
  - destruct (focusListeners s); [|exact H]. unfold onFocus.
    destruct (listening s); [exact H|].
    destruct (hasSelection env); [apply readSelection_registrations|]; exact H.
  - destruct (focusListeners s); [|exact H]. unfold onBlur.
    destruct (listening s); exact H.
  - destruct (existsb _ _); exact H.
  - destruct (intersectionQueue s); [exact H|]. unfold onIntersection.
    destruct (existsb _ _); exact H.
  - apply start_registrations. exact H.
  - apply stop_registrations. exact H.
  - apply flush_registrations. exact H.
  - exact H.
  - apply (stop_registrations t s H).
Qed.

(** X2.  In every state an observer can reach from its construction, the
    mutation observer is connected exactly while the observer is active (on
    a platform that has one), the legacy listener is registered exactly
    while it is active (where it is used), and a disconnected mutation
    observer holds no records. *)
Theorem registrations_follow_active (t : Tree) (evs : list Event)
  (mo legacyEvents docDirty : bool) (handler : bool -> bool) :
  registrationsFollowActive (runEvents t evs (construct mo legacyEvents docDirty handler)).
Proof.
  assert (H0 : registrationsFollowActive (construct mo legacyEvents docDirty handler)).
  { destruct mo, legacyEvents; repeat split; discriminate. }
  revert H0. generalize (construct mo legacyEvents docDirty handler).
  induction evs as [|ev evs IH]; intros s H; [exact H|].
  apply IH, dispatch_registrations, H.
Qed.

(** ** Pausing hides the caller's own DOM changes *)

Lemma host_mutations_unseen (t : Tree) (evs : list Event) :
  forall s, observing s = false -> charDataListener s = false ->
            forallb isHostMutation evs = true -> runEvents t evs s = s.
Proof.
  induction evs as [|ev evs IH]; intros s Ho Hl Hall; [reflexivity|].
  cbn [forallb] in Hall. apply andb_true_iff in Hall. destruct Hall as [Hev Hall].
  cbn [runEvents].
  assert (Hd : dispatch t ev s = s).
  { destruct ev; try discriminate Hev; cbn [dispatch]; [rewrite Ho|rewrite Hl]; reflexivity. }
  rewrite Hd. apply IH; assumption.
Qed.

Lemma start_frame (s : DOMObserver) :
  calls (start s) = calls s /\ pendingRecords (start s) = pendingRecords s /\
  charDataQueue (start s) = charDataQueue s.
Proof.
  unfold start. destruct (active s); [auto|].
  destruct (observer s); cbn; destruct (useCharData s); auto.
Qed.

(** X3.  Changes of the DOM made by the action of [withoutListening] are not
    seen: whatever mutations the host reports while the action runs, the
    observer ends exactly as after [stop()] followed by [start()], with no
    record pending and [onDOMChange] not called. *)
Theorem withoutListening_hides_mutations {E : Type} (t : Tree) (evs : list Event)
  (outcome : Completion E) (s : DOMObserver) :
  registrationsFollowActive s ->
  forallb isHostMutation evs = true ->
  withoutListening t (fun u => (runEvents t evs u, outcome)) s = (start (stop t s), outcome) /\
  pendingRecords (start (stop t s)) = [] /\
  countCalls isDOMChange (calls (start (stop t s))) = countCalls isDOMChange (calls s).
Proof.
  intros Hreg Hall.
  destruct (stop_registrations t s Hreg) as (_ & Ho & Hl & Hp).
  unfold withoutListening. rewrite (host_mutations_unseen t evs _ Ho Hl Hall).
  split; [reflexivity|].
  destruct (start_frame (stop t s)) as (Hc & Hpe & _).
  split; [rewrite Hpe; exact Hp|].
  rewrite Hc. destruct (stop_calls t s) as (resync & -> & Hr).
  unfold countCalls. rewrite List.filter_app.
  destruct Hr as [-> | ->]; simpl; rewrite app_nil_r; reflexivity.
Qed.

Lemma modern_registrations : registrationsFollowActive modern.
Proof. repeat split; discriminate. Defined.

Lemma withoutListening_hides_mutations_witness :
  registrationsFollowActive modern /\
  forallb isHostMutation [Mutated removalBetweenAB; Mutated textChangeInB] = true /\
  calls (fst (withoutListening scenarioTree
                (fun u => (runEvents scenarioTree
                             [Mutated removalBetweenAB; Mutated textChangeInB] u,
                           @Normal string)) modern)) = [] /\
  calls (runEvents scenarioTree
           [Mutated removalBetweenAB; Mutated textChangeInB; RecordsDelivered] modern)
  = [OnDOMChange 5 9; DocViewSync].
Proof.
  split; [exact modern_registrations|]. split; [reflexivity|].
  destruct (withoutListening_hides_mutations scenarioTree
              [Mutated removalBetweenAB; Mutated textChangeInB] (@Normal string) modern
              modern_registrations eq_refl) as (-> & _ & _).
  split; reflexivity.
Defined.

(** ** Records are delivered at most once *)

Lemma setPendingRecords_same (s : DOMObserver) :
  pendingRecords s = [] -> setPendingRecords [] s = s.
Proof. destruct s; cbn. intros ->. reflexivity. Qed.

(** X4.  A flush consumes what is pending: a second flush right after it
    finds nothing, returns false and changes nothing -- not even a resync of
    the view is made. *)
Theorem flush_twice (t : Tree) (s : DOMObserver) :
  flush t (fst (flush t s)) = (fst (flush t s), false).
Proof.
  pose proof (flush_pending t s) as Hp.
  destruct (flush_frame t s) as (Ho & _).
  assert (Hq : charDataQueue (fst (flush t s)) = []).
  { rewrite flush_eq. destruct (observer s).
    - destruct (applyMutations_queue t (setPendingRecords [] s) (pendingRecords s)) as (H & _).
      exact H.
    - destruct (applyMutations_queue t s []) as (H & _). exact H. }
  remember (fst (flush t s)) as s1 eqn:Hs1. clear Hs1.
  rewrite flush_eq, Ho. destruct (observer s).
  - rewrite Hp, (setPendingRecords_same s1 Hp).
    rewrite applyMutations_eq. cbn zeta. rewrite drainCharData_eq, Hq. reflexivity.
  - rewrite applyMutations_eq. cbn zeta. rewrite drainCharData_eq, Hq. reflexivity.
Qed.

(** ** Mutations outside the tracked tree *)

Lemma resolved_filter_tracked (t : Tree) (s : DOMObserver) (batch : list MutationRecord) :
  resolved t s (List.filter (tracked t) batch) = resolved t s batch.
Proof.
  unfold resolved. induction batch as [|rec rest IH]; [reflexivity|]. cbn [List.filter].
  destruct (tracked t rec) eqn:Ht.
  - cbn. destruct (snd (readMutation t s rec)); [f_equal|]; exact IH.
  - cbn. rewrite (readMutation_untracked t s rec Ht). exact IH.
Qed.

Lemma existsb_forallb_negb {A} (p : A -> bool) (l : list A) :
  forallb (fun a => negb (p a)) l = true -> existsb p l = false.
Proof.
  induction l as [|a l IH]; [reflexivity|]. cbn. intros H.
  apply andb_true_iff in H. destruct H as [Ha Hl].
  destruct (p a); [discriminate|]. exact (IH Hl).
Qed.

(** X5.  Records whose target has no tracked descriptor are ignored: they
    do not change the range a batch merges to, and a batch made only of such
    records, on a clean view, has no effect beyond draining the legacy
    queue -- no notification, no dirty mark, no resync, result false. *)
Theorem untracked_mutations_ignored (t : Tree) (s : DOMObserver)
  (records : list MutationRecord) :
  mergedRange t s (List.filter (tracked t) records) = mergedRange t s records /\
  (forallb (fun rec => negb (tracked t rec)) (snd (drainCharData s records)) = true ->
   dirty s = false ->
   applyMutations t s records = (fst (drainCharData s records), false)).
Proof.
  split.
  - rewrite !mergedRange_resolved, resolved_filter_tracked. reflexivity.
  - intros Hall Hd. rewrite applyMutations_eq. cbn zeta.
    destruct (drainCharData_frame s records) as (_ & Hd1 & _).
    destruct (snd (drainCharData s records)) as [|rec rest] eqn:Hb; [reflexivity|].
    pose proof (existsb_forallb_negb _ _ Hall) as Hex.
    assert (Hres : resolved t s (rec :: rest) = []).
    { pose proof (resolved_tracked t s (rec :: rest)) as H. rewrite Hex in H.
      destruct (resolved t s (rec :: rest)); [reflexivity|discriminate]. }
    rewrite mergedRange_resolved, Hres, Hex, Hd. cbn.
    f_equal. rewrite <- Hd, <- Hd1. apply setDirty_same.
Qed.

Lemma untracked_mutations_ignored_witness :
  forallb (fun rec => negb (tracked scenarioTree rec))
    (snd (drainCharData modern [changeOutside; changeOutside])) = true /\
  dirty modern = false /\
  applyMutations scenarioTree modern [changeOutside; changeOutside] = (modern, false) /\
  mergedRange scenarioTree modern [changeOutside; textChangeInB; changeOutside] = (5, 9).
Proof.
  split; [reflexivity|]. split; [reflexivity|].
  destruct (untracked_mutations_ignored scenarioTree modern [changeOutside; changeOutside])
    as [_ H].
  split; [rewrite (H eq_refl eq_refl); reflexivity|].
  destruct (untracked_mutations_ignored scenarioTree modern
              [changeOutside; textChangeInB; changeOutside]) as [<- _].
  reflexivity.
Defined.

(** ** The selection listener *)

Lemma readSelection_listener (t : Tree) (env : Env) (s : DOMObserver) :
  selectionListener (readSelection t env s) = selectionListener s /\
  listening (readSelection t env s) = listening s /\
  focusListeners (readSelection t env s) = focusListeners s.
Proof.
  unfold readSelection.
  destruct (negb (active s) || negb (hasFocus env) || negb (hasSelection env)); [auto|].
  destruct (flush_frame t s) as (_ & _ & H3 & _ & _ & H6 & H7 & _).
  destruct (flush t s) as [s' applied]. cbn [fst] in *. destruct applied; cbn; auto.
Qed.

Lemma stop_listener (t : Tree) (s : DOMObserver) :
  selectionListener (stop t s) = selectionListener s /\
  listening (stop t s) = listening s /\
  focusListeners (stop t s) = focusListeners s.
Proof.
  unfold stop. destruct (active s); cbn [negb]; [|auto].
  destruct (observer (setActive false s)).
  - destruct (flush_frame t (setActive false s)) as (_ & _ & H3 & _ & _ & H6 & H7 & _).
    destruct (useCharData (disconnect (fst (flush t (setActive false s))))); cbn; auto.
  - destruct (useCharData (setActive false s)); cbn; auto.
Qed.

Lemma dispatch_selection_listener (t : Tree) (ev : Event) (s : DOMObserver) :
  isDestroy ev = false ->
  selectionListenerFollowsFocus s -> selectionListenerFollowsFocus (dispatch t ev s).
Proof.
  intros Hev [Hs Hf]. unfold selectionListenerFollowsFocus.
  destruct ev; try discriminate Hev; cbn [dispatch].
  - destruct (observing s); cbn; auto.
  - destruct (charDataListener s); [|auto]. unfold onCharData. cbn.
    destruct (charDataTimeout s); cbn; auto.
  - destruct (pendingRecords s); [auto|].
    lazy beta iota zeta delta [takeRecords].
    destruct (applyMutations_frame t (setPendingRecords [] s) (pendingRecords s))
      as (_ & _ & H3 & _ & _ & _ & H7 & H8 & _).
    rewrite H3, H7, H8. cbn. auto.
  - destruct (existsb (Nat.eqb id) (timers s)); [|auto].
    destruct (flush_frame t (clearTimeout (Some id) s)) as (_ & _ & H3 & _ & _ & H6 & H7 & _).
    rewrite H3, H6, H7. cbn. auto.
  - destruct (selectionListener s) eqn:E; [|rewrite E; auto].
    destruct (readSelection_listener t env s) as (H1 & H2 & H3). rewrite H1, H2, H3, E. auto.
  - rewrite Hf. unfold onFocus. destruct (listening s) eqn:E; [rewrite E; auto|].
    destruct (hasSelection env).
    + destruct (readSelection_listener t env
                  (setListening true (setSelectionListener true s))) as (H1 & H2 & H3).
      rewrite H1, H2, H3. cbn. auto.
    + cbn. auto.
  - rewrite Hf. unfold onBlur. destruct (listening s) eqn:E; cbn; rewrite ?E; auto.
  - destruct (existsb _ _); cbn; auto.
  - destruct (intersectionQueue s); [auto|]. unfold onIntersection.
    destruct (existsb _ _); cbn; auto.
  - unfold start. destruct (active s); [auto|].
    destruct (observer s); cbn; destruct (useCharData s); cbn; auto.
  - destruct (stop_listener t s) as (H1 & H2 & H3). rewrite H1, H2, H3. auto.
  - destruct (flush_frame t s) as (_ & _ & H3 & _ & _ & H6 & H7 & _). rewrite H3, H6, H7. auto.
  - cbn. auto.
Qed.

(** X6.  Until [destroy()] is called, the selection-change listener is
    registered exactly while the root has been focused and not blurred since
    (the [listening] flag of the focus and blur handlers), whatever else
    happens to the observer; the focus and blur listeners themselves stay
    registered throughout. *)
Theorem selection_listener_follows_focus (t : Tree) (evs : list Event)
  (mo legacyEvents docDirty : bool) (handler : bool -> bool) :
  forallb (fun ev => negb (isDestroy ev)) evs = true ->
  selectionListener (runEvents t evs (construct mo legacyEvents docDirty handler))
  = listening (runEvents t evs (construct mo legacyEvents docDirty handler)) /\
  focusListeners (runEvents t evs (construct mo legacyEvents docDirty handler)) = true.
Proof.
  assert (H0 : selectionListenerFollowsFocus (construct mo legacyEvents docDirty handler)).
  { destruct mo, legacyEvents; split; reflexivity. }
  revert H0. generalize (construct mo legacyEvents docDirty handler).
  induction evs as [|ev evs IH]; intros s H Hall; [exact H|].
  cbn [forallb] in Hall. apply andb_true_iff in Hall. destruct Hall as [Hev Hall].
  cbn [runEvents]. apply IH; [|exact Hall].
  apply dispatch_selection_listener; [|exact H].
  destruct (isDestroy ev); [discriminate|reflexivity].
Qed.

Lemma selection_listener_follows_focus_witness :
  forallb (fun ev => negb (isDestroy ev))
    [Focused (mkEnv true true); CallStop; Blurred; CallStart; Focused (mkEnv true false)] = true /\
  selectionListener
    (runEvents scenarioTree
       [Focused (mkEnv true true); CallStop; Blurred; CallStart; Focused (mkEnv true false)]
       modern) = true /\
  selectionListener (runEvents scenarioTree [Focused (mkEnv true true); CallStop; Blurred] modern)
  = false.
Proof.
  split; [reflexivity|]. unfold modern.
  split.
  - rewrite (proj1 (selection_listener_follows_focus scenarioTree
                      [Focused (mkEnv true true); CallStop; Blurred; CallStart;
                       Focused (mkEnv true false)] true false false (fun d => d) eq_refl)).
    reflexivity.
  - rewrite (proj1 (selection_listener_follows_focus scenarioTree
                      [Focused (mkEnv true true); CallStop; Blurred]
                      true false false (fun d => d) eq_refl)).
    reflexivity.
Defined.

(** ** Debouncing the legacy events *)

Lemma runEvents_app (t : Tree) (evs1 evs2 : list Event) :
  forall s, runEvents t (evs1 ++ evs2) s = runEvents t evs2 (runEvents t evs1 s).
Proof. induction evs1 as [|ev evs1 IH]; intros s; [reflexivity|]. cbn. apply IH. Qed.

Lemma charData_events (t : Tree) (es : list (Node * option string)) :
  forall s,
    charDataListener s = true -> es <> [] ->
    let s' := runEvents t (List.map (fun e => CharDataModified (fst e) (snd e)) es) s in
    charDataQueue s' = charDataQueue s ++ List.map charDataRecord es /\
    charDataTimeout s'
    = Some (match charDataTimeout s with Some id => id | None => nextTimer s end) /\
    timers s'
    = match charDataTimeout s with Some _ => timers s | None => nextTimer s :: timers s end /\
    calls s' = calls s /\ active s' = active s.
Proof.
  induction es as [|e es IH]; intros s Hl Hne; [contradiction|]. cbn zeta.
  cbn [List.map runEvents]. cbn [dispatch]. rewrite Hl.
  set (s1 := onCharData (fst e) (snd e) s).
  assert (H1 : charDataListener s1 = true /\
               charDataQueue s1 = charDataQueue s ++ [charDataRecord e] /\
               charDataTimeout s1
               = Some (match charDataTimeout s with Some id => id | None => nextTimer s end) /\
               timers s1
               = match charDataTimeout s with Some _ => timers s | None => nextTimer s :: timers s end /\
               calls s1 = calls s /\ active s1 = active s).
  { subst s1. unfold onCharData. cbn.
    destruct (charDataTimeout s) eqn:E; cbn; rewrite ?E; repeat split; auto; reflexivity. }
  destruct H1 as (Hl1 & Hq1 & Ht1 & Hti1 & Hc1 & Ha1). clearbody s1.
  destruct es as [|e' es'].
  - cbn [List.map runEvents]. repeat split; assumption.
  - destruct (IH s1 Hl1 ltac:(discriminate)) as (Hq & Ht & Hti & Hc & Ha).
    cbn zeta in Hq, Ht, Hti, Hc, Ha.
    rewrite Hq, Ht, Hti, Hc, Ha, Hq1, Ht1, Hti1, Hc1, Ha1.
    repeat split; cbn; try reflexivity. rewrite <- app_assoc. reflexivity.
Qed.

Lemma charData_events_frame (t : Tree) (es : list (Node * option string)) :
  forall s,
    let s' := runEvents t (List.map (fun e => CharDataModified (fst e) (snd e)) es) s in
    pendingRecords s' = pendingRecords s /\ dirty s' = dirty s /\
    dirtyAfterChange s' = dirtyAfterChange s /\ observer s' = observer s.
Proof.
  induction es as [|e es IH]; intros s; cbn zeta; [auto|].
  cbn [List.map runEvents]. destruct (IH (dispatch t (CharDataModified (fst e) (snd e)) s))
    as (H1 & H2 & H3 & H4). cbn zeta in H1, H2, H3, H4. rewrite H1, H2, H3, H4.
  cbn [dispatch]. destruct (charDataListener s); [|auto].
  unfold onCharData. cbn. destruct (charDataTimeout s); cbn; auto.
Qed.

Lemma resolved_same_descriptor (t : Tree) (s : DOMObserver) (desc : Desc)
  (es : list (Node * option string)) :
  (forall e, In e es -> nearest t (fst e) = Some desc) ->
  resolved t s (List.map charDataRecord es)
  = List.map (fun _ => mkRange (posAtStart t desc) (posAtEnd t desc)) es.
Proof.
  unfold resolved. induction es as [|e es IH]; intros H; [reflexivity|].
  cbn [List.map]. cbn [omap list_omap]. unfold readMutation at 1. cbn [target charDataRecord type].
  rewrite (H e (or_introl eq_refl)). cbn [snd]. f_equal.
  apply IH. intros e' He'. apply H. right. exact He'.
Qed.

Lemma mergedRange_same_descriptor (t : Tree) (s : DOMObserver) (desc : Desc)
  (es : list (Node * option string)) :
  es <> [] ->
  (forall e, In e es -> nearest t (fst e) = Some desc) ->
  0 <= posAtStart t desc ->
  mergedRange t s (List.map charDataRecord es) = (posAtStart t desc, posAtEnd t desc).
Proof.
  intros Hne Hall Hpos. rewrite mergedRange_resolved, (resolved_same_descriptor t s desc es Hall).
  destruct es as [|e es]; [contradiction|]. cbn [List.map].
  set (r := mkRange (posAtStart t desc) (posAtEnd t desc)).
  set (rs := List.map (fun _ => r) es).
  assert (Hin : forall x, In x (r :: rs) -> x = r).
  { intros x [<- | Hx]; [reflexivity|]. subst rs. apply in_map_iff in Hx.
    destruct Hx as (_ & <- & _). reflexivity. }
  transitivity (minFrom r rs, maxTo r rs).
  - apply (accumulate_from_sentinel r rs).
    apply List.Forall_forall. intros x Hx. rewrite (Hin x Hx). exact Hpos.
  - destruct (minFrom_attained r rs) as (a & Ha & <-).
    destruct (maxTo_attained r rs) as (b & Hb & <-).
    rewrite (Hin a Ha), (Hin b Hb). reflexivity.
Qed.

(** X7.  Legacy character-data events are coalesced: however many arrive
    after a flush, they are queued in order behind a single debounce timer.
    When that timer fires the queue is emptied by one pass of the pipeline,
    which calls [onDOMChange] at most once; if the observer is active,
    nothing else is pending and the events all lie in one tracked
    descriptor, the call reports that descriptor's whole span. *)
Theorem char_data_events_share_one_timer (t : Tree) (es : list (Node * option string))
  (s : DOMObserver) :
  charDataListener s = true ->
  charDataQueue s = [] ->
  charDataTimeout s = None ->
  es <> [] ->
  let s' := runEvents t (List.map (fun e => CharDataModified (fst e) (snd e)) es) s in
  let s'' := dispatch t (TimerFired (nextTimer s)) s' in
  charDataQueue s' = List.map charDataRecord es /\
  charDataTimeout s' = Some (nextTimer s) /\
  timers s' = nextTimer s :: timers s /\
  calls s' = calls s /\
  charDataQueue s'' = [] /\
  charDataTimeout s'' = None /\
  (countCalls isDOMChange (calls s'') <= S (countCalls isDOMChange (calls s)))%nat /\
  (forall desc,
     active s = true -> pendingRecords s = [] ->
     (forall e, In e es -> nearest t (fst e) = Some desc) ->
     0 <= posAtStart t desc ->
     calls s'' = calls s ++ OnDOMChange (posAtStart t desc) (posAtEnd t desc)
                            :: (if dirtyAfterChange s true then [DocViewSync] else [])).
Proof.
  intros Hl Hq Ht Hne. cbn zeta.
  destruct (charData_events t es s Hl Hne) as (Hq' & Ht' & Hti' & Hc' & Ha').
  destruct (charData_events_frame t es s) as (Hp' & Hd' & Hh' & Ho').
  cbn zeta in Hq', Ht', Hti', Hc', Ha', Hp', Hd', Hh', Ho'.
  rewrite Hq, Ht in *. cbn [app] in Hq'.
  remember (runEvents t (List.map (fun e => CharDataModified (fst e) (snd e)) es) s) as s1 eqn:E.
  clear E.
  split; [exact Hq'|]. split; [exact Ht'|]. split; [exact Hti'|]. split; [exact Hc'|].
  assert (Hfire : dispatch t (TimerFired (nextTimer s)) s1
                  = fst (flush t (clearTimeout (Some (nextTimer s)) s1))).
  { cbn [dispatch]. rewrite Hti'. cbn [existsb]. rewrite Nat.eqb_refl. reflexivity. }
  rewrite Hfire. clear Hfire.
  set (s2 := clearTimeout (Some (nextTimer s)) s1).
  assert (F : charDataQueue s2 = List.map charDataRecord es /\ calls s2 = calls s /\
              active s2 = active s /\ pendingRecords s2 = pendingRecords s /\
              dirty s2 = dirty s /\ dirtyAfterChange s2 = dirtyAfterChange s /\
              observer s2 = observer s).
  { subst s2. cbn. auto 10. }
  destruct F as (Fq & Fc & Fa & Fp & Fd & Fh & Fo). clearbody s2.
  assert (Hqne : charDataQueue s2 <> []).
  { rewrite Fq. destruct es; [contradiction|discriminate]. }
  assert (Hflushq : charDataQueue (fst (flush t s2)) = [] /\
                    charDataTimeout (fst (flush t s2)) = None).
  { rewrite flush_eq. destruct (observer s2).
    - destruct (applyMutations_queue t (setPendingRecords [] s2) (pendingRecords s2))
        as (H1 & H2 & _). split; [exact H1|exact (H2 Hqne)].
    - destruct (applyMutations_queue t s2 []) as (H1 & H2 & _).
      split; [exact H1|exact (H2 Hqne)]. }
  destruct Hflushq as [Hfq Hft].
  split; [exact Hfq|]. split; [exact Hft|].
  split.
  { destruct (flush_calls t s2) as (f & e & resync & Hcalls & Hr & _).
    rewrite Hcalls, Fc. unfold countCalls. rewrite !List.filter_app, !length_app.
    destruct (snd (flush t s2)); destruct Hr as [-> | ->]; cbn; lia. }
  intros desc Hact Hpend Hall Hpos.
  assert (Hflush : flush t s2 = applyMutations t s2 []).
  { rewrite flush_eq. destruct (observer s2); [|reflexivity].
    rewrite Fp, Hpend. f_equal. apply setPendingRecords_same. rewrite Fp. exact Hpend. }
  rewrite Hflush, applyMutations_eq. cbn zeta. rewrite drainCharData_eq, Fq.
  destruct es as [|e0 es0]; [contradiction|].
  cbn [List.map app fst snd].
  change (charDataRecord e0 :: List.map charDataRecord es0)
    with (List.map charDataRecord (e0 :: es0)).
  rewrite (mergedRange_same_descriptor t s2 desc (e0 :: es0) Hne Hall Hpos).
  cbn [fst snd].
  replace (-1 <? posAtStart t desc) with true by (symmetry; apply Z.ltb_lt; lia).
  assert (Htr : existsb (tracked t) (List.map charDataRecord (e0 :: es0)) = true).
  { cbn [List.map existsb]. unfold tracked at 1. cbn [target charDataRecord].
    rewrite (Hall e0 (or_introl eq_refl)). reflexivity. }
  rewrite Htr, Fa, Hact, Fh, orb_true_r. cbn [andb].
  rewrite callAll_eq. destruct (charDataTimeout s2); cbn; rewrite Fc; reflexivity.
Qed.

Lemma char_data_events_share_one_timer_witness :
  charDataListener legacy = true /\ charDataQueue legacy = [] /\
  charDataTimeout legacy = None /\
  timers (runEvents scenarioTree
            [CharDataModified 2%nat None; CharDataModified 2%nat None;
             CharDataModified 2%nat None] legacy) = [0%nat] /\
  calls (runEvents scenarioTree
           [CharDataModified 2%nat None; CharDataModified 2%nat None;
            CharDataModified 2%nat None; TimerFired 0%nat] legacy)
  = [OnDOMChange 5 9; DocViewSync].
Proof.
  split; [reflexivity|]. split; [reflexivity|]. split; [reflexivity|].
  destruct (char_data_events_share_one_timer scenarioTree
              [(2%nat, None); (2%nat, None); (2%nat, None)] legacy
              eq_refl eq_refl eq_refl ltac:(discriminate))
    as (_ & _ & Hti & _ & _ & _ & _ & Hcalls).
  split; [exact Hti|].
  apply (Hcalls 2%nat); try reflexivity.
  - intros e [<- | [<- | [<- | []]]]; reflexivity.
  - cbn. lia.
Defined.

(** ** Intersection records *)

Lemma intersected_events (t : Tree) (entries : list IntersectionEntry) :
  forall s,
    let s' := runEvents t (List.map Intersected entries) s in
    calls s' = calls s /\ active s' = active s.
Proof.
  induction entries as [|e es IH]; intros s; cbn zeta; [auto|].
  cbn [List.map runEvents]. destruct (IH (dispatch t (Intersected e) s)) as [H1 H2].
  cbn zeta in H1, H2. rewrite H1, H2. cbn [dispatch].
  destruct (existsb _ _); auto.
Qed.

(** X8.  A delivery of intersection entries calls [onIntersect] at most
    once, namely when one of the entries has a positive ratio, and leaves no
    entry queued.  Entries queued while the observer was paused are dropped
    by [start()]: after resuming, a delivery calls nothing. *)
Theorem intersections_notify_once_and_stale_ones_are_dropped (t : Tree) (s : DOMObserver) :
  (calls (dispatch t IntersectionsDelivered s)
   = calls s ++ (if existsb (fun e => bool_decide (0 < intersectionRatio e)%Qc)
                      (intersectionQueue s)
                 then [OnIntersect] else []) /\
   intersectionQueue (dispatch t IntersectionsDelivered s) = []) /\
  (active s = false ->
   forall entries,
     calls (runEvents t (List.map Intersected entries ++ [CallStart; IntersectionsDelivered]) s)
     = calls s).
Proof.
  split.
  - cbn [dispatch]. destruct (intersectionQueue s) as [|e es] eqn:Hq.
    + cbn. rewrite app_nil_r. auto.
    + unfold onIntersection. cbn [intersectionQueue setIntersectionQueue].
      destruct (existsb _ (e :: es)); cbn; rewrite ?app_nil_r; auto.
  - intros Ha entries. rewrite runEvents_app.
    destruct (intersected_events t entries s) as [Hc Hact]. cbn zeta in Hc, Hact.
    remember (runEvents t (List.map Intersected entries) s) as s1 eqn:E. clear E.
    cbn [runEvents dispatch].
    assert (Hs : intersectionQueue (start s1) = [] /\ calls (start s1) = calls s1).
    { unfold start. rewrite Hact, Ha.
      destruct (observer s1); cbn; destruct (useCharData s1); cbn; auto. }
    destruct Hs as [Hq Hcs]. rewrite Hq. rewrite Hcs. exact Hc.
Qed.

Lemma intersections_notify_once_and_stale_ones_are_dropped_witness :
  active (stop scenarioTree (observeIntersection [1%nat] modern)) = false /\
  calls (runEvents scenarioTree
           [Intersected (mkEntry 1%nat 1%Qc); CallStart; IntersectionsDelivered]
           (stop scenarioTree (observeIntersection [1%nat] modern))) = [] /\
  calls (runEvents scenarioTree
           [Intersected (mkEntry 1%nat 1%Qc); Intersected (mkEntry 1%nat 1%Qc);
            IntersectionsDelivered]
           (observeIntersection [1%nat] modern)) = [OnIntersect].
Proof.
  split; [reflexivity|]. split.
  - exact (proj2 (intersections_notify_once_and_stale_ones_are_dropped scenarioTree
                    (stop scenarioTree (observeIntersection [1%nat] modern)))
                 eq_refl [mkEntry 1%nat 1%Qc]).
  - vm_compute. reflexivity.
Defined.

(** * Further properties of key names *)

Lemma splitNotLast_nonempty (c : ascii) (s : string) : splitNotLast c s <> [].
Proof.
  destruct s as [|a rest]; cbn; [discriminate|].
  destruct (Ascii.eqb a c && negb (String.eqb rest EmptyString)); [discriminate|].
  destruct (splitNotLast c rest); discriminate.
Qed.

Lemma splitNotLast_prefix (c : ascii) (m k : string) :
  hasChar c m = false -> k <> EmptyString ->
  splitNotLast c (m +:+ String c k) = m :: splitNotLast c k.
Proof.
  intros Hm Hk. induction m as [|a m IH].
  - simpl. rewrite Ascii.eqb_refl. destruct k; [contradiction|]. reflexivity.
  - cbn [hasChar] in Hm. apply orb_false_iff in Hm. destruct Hm as [Ha Hm].
    change (String a m +:+ String c k) with (String a (m +:+ String c k)).
    cbn [splitNotLast]. rewrite Ha. cbn [andb]. rewrite (IH Hm). reflexivity.
Qed.

Lemma withModifiers_nonempty (mods : list string) (k : string) :
  k <> EmptyString -> withModifiers mods k <> EmptyString.
Proof.
  intros Hk. destruct mods as [|m mods]; [exact Hk|]. cbn.
  destruct m; discriminate.
Qed.

Lemma splitNotLast_withModifiers (mods : list string) (k : string) :
  Forall (fun m => hasChar "-" m = false) mods -> k <> EmptyString ->
  splitNotLast "-" (withModifiers mods k) = mods ++ splitNotLast "-" k.
Proof.
  intros Hall Hk. induction Hall as [|m mods Hm _ IH]; [reflexivity|].
  change (withModifiers (m :: mods) k) with (m +:+ String "-" (withModifiers mods k)).
  cbn [app].
  rewrite (splitNotLast_prefix "-" m _ Hm (withModifiers_nonempty mods k Hk)).
  f_equal. exact IH.
Qed.

Lemma last_app_nonempty {A} (l l' : list A) (d : A) :
  l' <> [] -> List.last (l ++ l') d = List.last l' d.
Proof.
  intros Hne. induction l as [|a l IH]; [reflexivity|]. cbn [app].
  destruct (l ++ l') as [|x xs] eqn:E; [destruct l; [contradiction|discriminate]|].
  change (List.last (a :: x :: xs) d) with (List.last (x :: xs) d). exact IH.
Qed.

Lemma removelast_app_nonempty {A} (l l' : list A) :
  l' <> [] -> List.removelast (l ++ l') = l ++ List.removelast l'.
Proof. intros Hne. apply removelast_app. exact Hne. Qed.

Lemma readModifiers_kind (platform : PlatformName) (modName : string) (rest : list string)
  (m : Modifiers) :
  readModifiers platform (modName :: rest) m =
  match modifierKind platform modName with
  | Some k => readModifiers platform rest (setKind m k)
  | None => Error ("Unrecognized modifier name: " +:+ modName)
  end.
Proof.
  cbn [readModifiers]. unfold modifierKind.
  destruct (matchesAny ["cmd"; "meta"; "m"]%string modName); [reflexivity|].
  destruct (matchesAny ["a"; "alt"]%string modName); [reflexivity|].
  destruct (matchesAny ["c"; "ctrl"; "control"]%string modName); [reflexivity|].
  destruct (matchesAny ["s"; "shift"]%string modName); [reflexivity|].
  destruct (matchesAny ["mod"]%string modName); [destruct platform; reflexivity|reflexivity].
Qed.

Lemma setKind_comm (m : Modifiers) (a b : ModKind) :
  setKind (setKind m a) b = setKind (setKind m b) a.
Proof. destruct a, b; reflexivity. Qed.

Lemma readModifiers_append (platform : PlatformName) (l l' : list string) :
  forall m, readModifiers platform (l ++ l') m
            = match readModifiers platform l m with
              | Ok m' => readModifiers platform l' m'
              | Error e => Error e
              end.
Proof.
  induction l as [|x l IH]; intros m; [reflexivity|].
  cbn [app]. rewrite !readModifiers_kind.
  destruct (modifierKind platform x); [apply IH|reflexivity].
Qed.

Lemma readModifiers_permutation (platform : PlatformName) (l l' : list string) :
  Permutation l l' ->
  forall m r, readModifiers platform l m = Ok r -> readModifiers platform l' m = Ok r.
Proof.
  induction 1 as [|x l l' _ IH|x y l|l l' l'' _ IH1 _ IH2]; intros m r H.
  - exact H.
  - rewrite readModifiers_kind in H |- *. revert H.
    destruct (modifierKind platform x); [|intros H; cbv beta iota in H; discriminate H].
    apply IH.
  - rewrite readModifiers_kind in H. rewrite (readModifiers_kind platform x).
    destruct (modifierKind platform y) as [ky|] eqn:Ey; [|discriminate H].
    rewrite readModifiers_kind in H.
    destruct (modifierKind platform x) as [kx|] eqn:Ex; [|discriminate H].
    rewrite readModifiers_kind, Ey, setKind_comm. exact H.
  - apply IH2, IH1, H.
Qed.

Lemma readModifiers_same_kinds (platform : PlatformName) (l l' : list string) :
  Forall2 (fun a b => modifierKind platform a = modifierKind platform b) l l' ->
  forall m r, readModifiers platform l m = Ok r -> readModifiers platform l' m = Ok r.
Proof.
  induction 1 as [|a b l l' Hab _ IH]; intros m r H; [exact H|].
  rewrite readModifiers_kind in H |- *. rewrite <- Hab. revert H.
  destruct (modifierKind platform a); [apply IH|intros H; discriminate H].
Qed.

(** [normalizeKeyName] of a name written as modifiers and a key. *)
Lemma normalizeKeyName_withModifiers (platform : PlatformName) (mods : list string) (k : string) :
  Forall (fun m => hasChar "-" m = false) mods -> k <> EmptyString ->
  normalizeKeyName (withModifiers mods k) platform =
  let parts := splitNotLast "-" k in
  let result := List.last parts EmptyString in
  let result := if String.eqb result "Space" then " "%string else result in
  do m <- readModifiers platform (mods ++ List.removelast parts)
            (mkModifiers false false false false);
  let result := if mAlt m then "Alt-" +:+ result else result in
  let result := if mCtrl m then "Ctrl-" +:+ result else result in
  let result := if mMeta m then "Meta-" +:+ result else result in
  let result := if mShift m then "Shift-" +:+ result else result in
  Ok result.
Proof.
  intros Hall Hk. unfold normalizeKeyName.
  rewrite (splitNotLast_withModifiers mods k Hall Hk).
  rewrite (last_app_nonempty mods _ EmptyString (splitNotLast_nonempty "-" k)).
  rewrite (removelast_app_nonempty mods _ (splitNotLast_nonempty "-" k)).
  reflexivity.
Qed.

(** X9.  Modifiers can be given in any order: two key names that list the
    same modifiers before the same key, in different orders, normalize to
    the same name. *)
Theorem normalizeKeyName_modifier_order (platform : PlatformName) (mods mods' : list string)
  (k r : string) :
  Forall (fun m => hasChar "-" m = false) mods ->
  Permutation mods mods' ->
  k <> EmptyString ->
  normalizeKeyName (withModifiers mods k) platform = Ok r ->
  normalizeKeyName (withModifiers mods' k) platform = Ok r.
Proof.
  intros Hall Hperm Hk.
  assert (Hall' : Forall (fun m => hasChar "-" m = false) mods').
  { apply List.Forall_forall. intros x Hx. rewrite List.Forall_forall in Hall.
    apply Hall. apply (Permutation_in _ (Permutation_sym Hperm)). exact Hx. }
  rewrite (normalizeKeyName_withModifiers platform mods k Hall Hk).
  rewrite (normalizeKeyName_withModifiers platform mods' k Hall' Hk). cbn zeta.
  destruct (readModifiers platform (mods ++ _) _) as [m|e] eqn:Hm; [|discriminate].
  rewrite (readModifiers_permutation platform _ (mods' ++ List.removelast (splitNotLast "-" k))
             (Permutation_app_tail _ Hperm) _ _ Hm).
  intros H. exact H.
Qed.

Lemma normalizeKeyName_modifier_order_witness :
  Forall (fun m => hasChar "-" m = false) ["Ctrl"; "Alt"; "Shift"]%string /\
  Permutation ["Ctrl"; "Alt"; "Shift"]%string ["Shift"; "Ctrl"; "Alt"]%string /\
  normalizeKeyName "Ctrl-Alt-Shift-Enter" onKey = Ok "Shift-Ctrl-Alt-Enter"%string /\
  normalizeKeyName "Shift-Ctrl-Alt-Enter" onKey = Ok "Shift-Ctrl-Alt-Enter"%string.
Proof.
  assert (Hd : Forall (fun m => hasChar "-" m = false) ["Ctrl"; "Alt"; "Shift"]%string)
    by (repeat constructor).
  assert (Hp : Permutation ["Ctrl"; "Alt"; "Shift"]%string ["Shift"; "Ctrl"; "Alt"]%string).
  { apply Permutation_sym. apply (Permutation_cons_app ["Ctrl"; "Alt"]%string [] "Shift"%string).
    rewrite app_nil_r. apply Permutation_refl. }
  split; [exact Hd|]. split; [exact Hp|]. split; [reflexivity|].
  apply (normalizeKeyName_modifier_order onKey ["Ctrl"; "Alt"; "Shift"]%string
           ["Shift"; "Ctrl"; "Alt"]%string "Enter" _ Hd Hp); [discriminate|reflexivity].
Defined.

(** X10.  Modifier names are aliases of one another, whatever their case:
    replacing each modifier of a key name by another name of the same
    modifier ([c], [Ctrl], [CONTROL]; [Mod] for [Cmd] on macOS and for [Ctrl]
    elsewhere) does not change the normalized name. *)
Theorem normalizeKeyName_modifier_aliases (platform : PlatformName) (mods mods' : list string)
  (k r : string) :
  Forall (fun m => hasChar "-" m = false) mods ->
  Forall (fun m => hasChar "-" m = false) mods' ->
  Forall2 (fun a b => modifierKind platform a = modifierKind platform b) mods mods' ->
  k <> EmptyString ->
  normalizeKeyName (withModifiers mods k) platform = Ok r ->
  normalizeKeyName (withModifiers mods' k) platform = Ok r.
Proof.
  intros Hall Hall' Hsame Hk.
  rewrite (normalizeKeyName_withModifiers platform mods k Hall Hk).
  rewrite (normalizeKeyName_withModifiers platform mods' k Hall' Hk). cbn zeta.
  destruct (readModifiers platform (mods ++ _) _) as [m|e] eqn:Hm; [|discriminate].
  assert (Hs : Forall2 (fun a b => modifierKind platform a = modifierKind platform b)
                 (mods ++ List.removelast (splitNotLast "-" k))
                 (mods' ++ List.removelast (splitNotLast "-" k))).
  { apply Forall2_app; [exact Hsame|].
    generalize (List.removelast (splitNotLast "-" k)).
    intros l. induction l as [|a l IH]; [constructor|constructor; [reflexivity|exact IH]]. }
  rewrite (readModifiers_same_kinds platform _ _ Hs _ _ Hm).
  intros H. exact H.
Qed.

Lemma normalizeKeyName_modifier_aliases_witness :
  normalizeKeyName "Mod-b" onMac = Ok "Meta-b"%string /\
  normalizeKeyName "Mod-SHIFT-b" onLinux = Ok "Shift-Ctrl-b"%string /\
  normalizeKeyName "c-s-b" onLinux = Ok "Shift-Ctrl-b"%string.
Proof.
  split; [|split].
  - apply (normalizeKeyName_modifier_aliases onMac ["Cmd"]%string ["Mod"]%string "b");
      [repeat constructor|repeat constructor|repeat constructor|discriminate|reflexivity].
  - apply (normalizeKeyName_modifier_aliases onLinux ["Control"; "s"]%string
             ["Mod"; "SHIFT"]%string "b");
      [repeat constructor|repeat constructor|repeat constructor|discriminate|reflexivity].
  - reflexivity.
Defined.

(** ** Normalized names are fixed points *)

(** The last piece of a split is not split further, and is empty only for
    the empty string. *)
Lemma splitNotLast_last (c : ascii) (s : string) :
  splitNotLast c (List.last (splitNotLast c s) EmptyString)
  = [List.last (splitNotLast c s) EmptyString] /\
  (List.last (splitNotLast c s) EmptyString = EmptyString -> s = EmptyString).
Proof.
  induction s as [|a rest IH]; [split; reflexivity|].
  destruct IH as [IH1 IH2].
  cbn [splitNotLast].
  destruct (Ascii.eqb a c && negb (String.eqb rest EmptyString)) eqn:Hsplit.
  - pose proof (splitNotLast_nonempty c rest) as Hne.
    destruct (splitNotLast c rest) as [|p ps] eqn:E; [contradiction|].
    change (List.last (EmptyString :: p :: ps) EmptyString) with (List.last (p :: ps) EmptyString).
    split; [exact IH1|].
    intros H. apply IH2 in H. subst rest.
    rewrite andb_comm in Hsplit. discriminate Hsplit.
  - pose proof (splitNotLast_nonempty c rest) as Hne.
    destruct (splitNotLast c rest) as [|p ps] eqn:E; [contradiction|].
    destruct ps as [|q qs].
    + cbn [List.last] in *. split; [|discriminate].
      cbn [splitNotLast].
      destruct (Ascii.eqb a c) eqn:Ha; cbn [andb] in *.
      * apply negb_false_iff in Hsplit. apply String.eqb_eq in Hsplit. subst rest.
        cbn in E. injection E as <-. reflexivity.
      * rewrite IH1. reflexivity.
    + change (List.last (String a p :: q :: qs) EmptyString)
        with (List.last (p :: q :: qs) EmptyString).
      split; [exact IH1|].
      intros H. apply IH2 in H. subst rest. discriminate E.
Qed.

Lemma splitNotLast_written (m : Modifiers) (k : string) :
  k <> EmptyString ->
  splitNotLast "-" (withModifiers (writtenModifiers m) k)
  = writtenModifiers m ++ splitNotLast "-" k.
Proof.
  intros Hk. apply splitNotLast_withModifiers; [|exact Hk].
  unfold writtenModifiers. destruct (mShift m), (mMeta m), (mCtrl m), (mAlt m);
    repeat constructor.
Qed.

Lemma readModifiers_written (platform : PlatformName) (m : Modifiers) :
  readModifiers platform (writtenModifiers m) (mkModifiers false false false false) = Ok m.
Proof.
  destruct m as [a c s mt]. unfold writtenModifiers. cbn [mAlt mCtrl mShift mMeta].
  destruct a, c, s, mt; reflexivity.
Qed.

Lemma normalized_written (m : Modifiers) (k : string) :
  (let result := if mAlt m then "Alt-" +:+ k else k in
   let result := if mCtrl m then "Ctrl-" +:+ result else result in
   let result := if mMeta m then "Meta-" +:+ result else result in
   let result := if mShift m then "Shift-" +:+ result else result in
   result) = withModifiers (writtenModifiers m) k.
Proof.
  unfold writtenModifiers. destruct (mShift m), (mMeta m), (mCtrl m), (mAlt m); reflexivity.
Qed.

(** X11.  A normalized key name is a fixed point of [normalizeKeyName]:
    normalizing it again gives the same name. *)
Theorem normalizeKeyName_idempotent (platform : PlatformName) (name r : string) :
  normalizeKeyName name platform = Ok r ->
  normalizeKeyName r platform = Ok r.
Proof.
  unfold normalizeKeyName at 1. cbn zeta.
  destruct (readModifiers platform _ _) as [m|e] eqn:Hm; [|discriminate].
  cbn [bind]. rewrite normalized_written. intros H. injection H as <-.
  destruct (splitNotLast_last "-" name) as [Hlast Hempty].
  set (k0 := List.last (splitNotLast "-" name) EmptyString) in *.
  set (k := if String.eqb k0 "Space" then " "%string else k0).
  assert (Hk1 : splitNotLast "-" k = [k]).
  { subst k. destruct (String.eqb k0 "Space"); [reflexivity|exact Hlast]. }
  assert (Hk2 : String.eqb k "Space" = false).
  { subst k. destruct (String.eqb k0 "Space") eqn:E; [reflexivity|exact E]. }
  destruct (String.eqb k EmptyString) eqn:Hke.
  - (* the key is empty: so was the name, and there is no modifier *)
    apply String.eqb_eq in Hke.
    assert (Hk0 : k0 = EmptyString).
    { subst k. destruct (String.eqb k0 "Space"); [discriminate Hke|exact Hke]. }
    rewrite (Hempty Hk0) in Hm. cbn in Hm. injection Hm as <-.
    rewrite Hke. reflexivity.
  - assert (Hne : k <> EmptyString).
    { intros E. rewrite E in Hke. discriminate Hke. }
    unfold normalizeKeyName. rewrite (splitNotLast_written m k Hne), Hk1.
    rewrite (last_app_nonempty _ [k] EmptyString ltac:(discriminate)).
    rewrite (removelast_app_nonempty _ [k] ltac:(discriminate)).
    cbn [List.last List.removelast]. rewrite app_nil_r, Hk2, readModifiers_written.
    cbn [bind]. rewrite normalized_written. reflexivity.
Qed.

Lemma normalizeKeyName_idempotent_witness :
  normalizeKeyName "a-Mod-c-Space" onMac = Ok "Meta-Ctrl-Alt- "%string /\
  normalizeKeyName "Meta-Ctrl-Alt- " onMac = Ok "Meta-Ctrl-Alt- "%string.
Proof.
  split; [reflexivity|].
  apply (normalizeKeyName_idempotent onMac "a-Mod-c-Space"). reflexivity.
Defined.

(** ** Bindings that do not apply *)

Lemma foldM_app {A S} (f : A -> S -> Result S) (l l' : list A) :
  forall st, foldM f (l ++ l') st
             = match foldM f l st with
               | Ok st' => foldM f l' st'
               | Error e => Error e
               end.
Proof.
  induction l as [|a l IH]; intros st; [reflexivity|]. cbn [app foldM].
  destruct (f a st); cbn [bind]; [apply IH|reflexivity].
Qed.

(** X12.  A binding that names no key for the platform -- neither the
    platform's own property nor [key], or only empty strings -- is skipped:
    the keymap built is the one built without it. *)
Theorem buildKeymap_skips_unbound (platform : PlatformName) (before after : list KeyBinding)
  (b : KeyBinding) :
  effectiveName platform b = None ->
  buildKeymap (before ++ b :: after) platform = buildKeymap (before ++ after) platform.
Proof.
  intros Hb. unfold buildKeymap. rewrite !foldM_app. f_equal.
  destruct (foldM (addBindings platform) before _) as [st|e]; [|reflexivity].
  cbn [foldM]. unfold addBindings at 1. rewrite Hb. reflexivity.
Qed.

Lemma buildKeymap_skips_unbound_witness :
  effectiveName onLinux (mkKeyBinding None (Some "Cmd-k"%string) None (Some ""%string)
                           (UserCommand 7) None None None) = None /\
  buildKeymap [plain "a" 1;
               mkKeyBinding None (Some "Cmd-k"%string) None (Some ""%string)
                 (UserCommand 7) None None None;
               plain "b" 2] onLinux
  = buildKeymap [plain "a" 1; plain "b" 2] onLinux.
Proof.
  split; [reflexivity|].
  apply (buildKeymap_skips_unbound onLinux [plain "a" 1] [plain "b" 2]). reflexivity.
Defined.

(** * What a keymap holds *)

Lemma foldM_ext {A S} (f g : A -> S -> Result S) (l : list A) :
  (forall a st, f a st = g a st) -> forall st, foldM f l st = foldM g l st.
Proof.
  intros Hfg. induction l as [|a l IH]; intros st; [reflexivity|].
  cbn [foldM]. rewrite Hfg. destruct (g a st); cbn [bind]; [apply IH|reflexivity].
Qed.

Lemma foldM_flat_map {A B S} (f : B -> S -> Result S) (g : A -> list B) (l : list A) :
  forall st, foldM f (flat_map g l) st = foldM (fun a st => foldM f (g a) st) l st.
Proof.
  induction l as [|a l IH]; intros st; [reflexivity|].
  cbn [flat_map foldM]. rewrite foldM_app.
  destruct (foldM f (g a) st); cbn [bind]; [apply IH|reflexivity].
Qed.

Lemma addBindings_additions (platform : PlatformName) (b : KeyBinding) (st : Builder) :
  addBindings platform b st = foldM (addOne platform) (additionsOf platform b) st.
Proof.
  unfold addBindings, additionsOf.
  destruct (effectiveName platform b) as [name|]; [|reflexivity].
  rewrite foldM_flat_map. apply foldM_ext. intros sc st'.
  unfold addBinding, additionsIn, addOne.
  cbn [foldM addScope addKey addCommand addPrevent].
  destruct (add platform sc name (run b) (preventDefault b) st') as [st1|e]; cbn [bind];
    [|reflexivity].
  destruct (shift b) as [command|]; cbn [foldM addScope addKey addCommand addPrevent];
    [|reflexivity].
  destruct (add platform sc _ command (preventDefault b) st1); reflexivity.
Qed.

(** The two loops of [buildKeymap] are one loop over the additions. *)
Lemma buildKeymap_additions (platform : PlatformName) (bindings : list KeyBinding) :
  buildKeymap bindings platform
  = bind (foldM (addOne platform) (additions platform bindings) (mkBuilder ∅ ∅))
      (fun st => Ok (bound st)).
Proof.
  unfold buildKeymap, additions. rewrite foldM_flat_map. f_equal.
  apply foldM_ext. intros b st. apply addBindings_additions.
Qed.

Lemma existsb_eqb_In (name : string) (l : list string) :
  existsb (String.eqb name) l = true <-> In name l.
Proof.
  rewrite existsb_exists. split.
  - intros (x & Hin & Heq). apply String.eqb_eq in Heq. subst x. exact Hin.
  - intros Hin. exists name. split; [exact Hin|apply String.eqb_refl].
Qed.

Lemma checkPrefix_bound (name : string) (isP : bool) (st st' : Builder) :
  checkPrefix name isP st = Ok st' -> bound st' = bound st.
Proof.
  unfold checkPrefix. destruct (isPrefix st !! name) as [current|].
  - destruct (Bool.eqb current isP); [|discriminate]. intros H. injection H as <-. reflexivity.
  - intros H. injection H as <-. reflexivity.
Qed.

(** The loop over the prefixes fills the holes of the scope object and
    nothing else. *)
Lemma addPrefixes_scope (scopeName : string) (prefixes : list string) :
  forall scopeObj st scopeObj' st',
    foldM (addPrefix scopeName) prefixes (scopeObj, st) = Ok (scopeObj', st') ->
    bound st' = bound st /\
    forall name,
      scopeObj' !! name =
      match scopeObj !! name with
      | Some b => Some b
      | None => if existsb (String.eqb name) prefixes
                then Some (mkBinding true [StorePrefix name scopeName])
                else None
      end.
Proof.
  induction prefixes as [|p rest IH]; intros scopeObj st scopeObj' st'.
  - cbn [foldM existsb]. intros H. injection H as <- <-. split; [reflexivity|].
    intros name. destruct (scopeObj !! name); reflexivity.
  - cbn [foldM]. unfold addPrefix at 1.
    destruct (checkPrefix p true st) as [st1|e] eqn:Hc; cbn [bind]; [|discriminate].
    apply checkPrefix_bound in Hc.
    destruct (scopeObj !! p) as [b|] eqn:Hp; cbn [bind]; intros H;
      destruct (IH _ _ _ _ H) as [Hb Hl]; (split; [congruence|]); intros name; rewrite Hl;
      cbn [existsb].
    + destruct (String.eqb_spec name p) as [->|Hne]; cbn [orb]; [rewrite Hp|]; reflexivity.
    + destruct (String.eqb_spec name p) as [->|Hne]; cbn [orb].
      * rewrite lookup_insert_eq, Hp. reflexivity.
      * rewrite lookup_insert_ne by congruence. reflexivity.
Qed.

(** What [add] leaves in [bound], key by key. *)
Lemma add_lookup (platform : PlatformName) (sc0 keyName : string) (command : Command)
  (prevent : option bool) (st st' : Builder) :
  add platform sc0 keyName command prevent st = Ok st' ->
  forall sc name,
    bindingFor (bound st') sc name =
    if String.eqb sc0 sc then
      let old := match bindingFor (bound st) sc0 name with
                 | Some b => Some b
                 | None => if existsb (String.eqb name) (prefixesOf (strokes platform keyName))
                           then Some (mkBinding true [StorePrefix name sc0])
                           else None
                 end in
      if String.eqb (String.concat " " (strokes platform keyName)) name
      then let b := default (mkBinding false []) old in
           Some (mkBinding match prevent with
                           | Some true => true
                           | _ => bindingPreventDefault b
                           end (commands b ++ [command]))
      else old
    else bindingFor (bound st) sc name.
Proof.
  unfold add. cbn zeta. unfold strokes.
  destruct (mapM _ (splitNotLast " " keyName)) as [parts|e] eqn:Hparts; cbn [bind]; [|discriminate].
  destruct (foldM (addPrefix sc0) (prefixesOf parts) _) as [[scopeObj st1]|e] eqn:Hfold;
    cbn [bind]; [|discriminate].
  destruct (checkPrefix _ false st1) as [st2|e] eqn:Hcheck; cbn [bind]; [|discriminate].
  intros H. injection H as <-. intros sc name. cbn [bound].
  destruct (addPrefixes_scope _ _ _ _ _ _ Hfold) as [Hb1 Hl].
  apply checkPrefix_bound in Hcheck. rewrite Hcheck, Hb1.
  assert (Hold : forall k, default ∅ (bound st !! sc0) !! k = bindingFor (bound st) sc0 k).
  { intros k. unfold bindingFor. destruct (bound st !! sc0); [reflexivity|apply lookup_empty]. }
  unfold bindingFor at 1.
  destruct (String.eqb_spec sc0 sc) as [<-|Hsc].
  - rewrite lookup_insert_eq.
    destruct (String.eqb_spec (String.concat " " parts) name) as [<-|Hname].
    + rewrite lookup_insert_eq. rewrite Hl, Hold. destruct prevent as [[|]|]; reflexivity.
    + rewrite lookup_insert_ne by exact Hname. rewrite Hl, Hold. reflexivity.
  - rewrite lookup_insert_ne by exact Hsc. reflexivity.
Qed.

Lemma filter_snoc {A} (f : A -> bool) (l : list A) (a : A) :
  List.filter f (l ++ [a]) = List.filter f l ++ (if f a then [a] else []).
Proof. rewrite List.filter_app. reflexivity. Qed.

Lemma existsb_snoc {A} (f : A -> bool) (l : list A) (a : A) :
  existsb f (l ++ [a]) = existsb f l || f a.
Proof. rewrite existsb_app. cbn [existsb]. rewrite orb_false_r. reflexivity. Qed.

Lemma addOne_invariant (platform : PlatformName) (adds : list Addition) (a : Addition)
  (st st' : Builder) :
  keymapInvariant platform adds st ->
  addOne platform a st = Ok st' ->
  keymapInvariant platform (adds ++ [a]) st'.
Proof.
  intros [Hreg Hlook] Hadd. unfold addOne in Hadd.
  destruct (add_ok _ _ _ _ _ _ _ Hadd) as (Hext & parts & Hparts & Hnew).
  assert (Hs : strokes platform (addKey a) = parts) by (unfold strokes; rewrite Hparts; reflexivity).
  split.
  - intros a' Hin. apply in_app_or in Hin. destruct Hin as [Hin|[<-|[]]].
    + eapply registered_extends; [apply Hreg, Hin|exact Hext].
    + rewrite Hs. exact Hnew.
  - intros sc name. rewrite (add_lookup _ _ _ _ _ _ _ Hadd sc name), !Hlook.
    unfold expectedBinding. rewrite filter_snoc, existsb_snoc.
    assert (Hbk : bindsKey platform sc name a
                  = String.eqb (addScope a) sc && String.eqb (String.concat " " parts) name).
    { unfold bindsKey, fullName. rewrite Hs. reflexivity. }
    assert (Hpt : passesThrough platform sc name a
                  = String.eqb (addScope a) sc && existsb (String.eqb name) (prefixesOf parts)).
    { unfold passesThrough, prefixNames. rewrite Hs. reflexivity. }
    rewrite Hbk, Hpt, Hs. clear Hbk Hpt.
    destruct (String.eqb_spec (addScope a) sc) as [<-|Hsc]; cbn [andb].
    2:{ rewrite List.app_nil_r, orb_false_r. reflexivity. }
    destruct (String.eqb_spec (String.concat " " parts) name) as [<-|Hname].
    + (* the key bound by this addition *)
      destruct (List.filter _ adds) as [|d direct] eqn:Hd.
      * assert (Hpass : existsb (passesThrough platform (addScope a) (String.concat " " parts)) adds
                        = false).
        { apply not_true_is_false. intros Hex. apply existsb_exists in Hex.
          destruct Hex as (a' & Hin & Hpt). unfold passesThrough in Hpt.
          apply andb_prop in Hpt. destruct Hpt as [_ Hpt]. apply existsb_eqb_In in Hpt.
          destruct (Hreg a' Hin) as [_ Hpre]. apply Hpre, Hext in Hpt.
          destruct Hnew as [Hfull _]. congruence. }
        assert (Hown : existsb (String.eqb (String.concat " " parts)) (prefixesOf parts) = false).
        { apply not_true_is_false. intros Hex. apply existsb_eqb_In in Hex.
          destruct Hnew as [Hfull Hpre]. apply Hpre in Hex. congruence. }
        rewrite Hpass, Hown. cbn [app default existsb List.map orb commands bindingPreventDefault].
        unfold prevents. destruct (addPrevent a) as [[|]|]; reflexivity.
      * change ((d :: direct) ++ [a]) with (d :: (direct ++ [a])).
        cbn iota.
        change (d :: direct ++ [a]) with ((d :: direct) ++ [a]).
        rewrite existsb_snoc, List.map_app.
        cbn [default List.map commands bindingPreventDefault].
        replace (prevents a) with (match addPrevent a with Some true => true | _ => false end)
          by reflexivity.
        destruct (addPrevent a) as [[|]|]; rewrite ?orb_true_r, ?orb_false_r; reflexivity.
    + rewrite List.app_nil_r.
      destruct (List.filter _ adds) as [|d direct] eqn:Hd; [|reflexivity].
      destruct (existsb (passesThrough platform (addScope a) name) adds); [reflexivity|].
      cbn [orb]. destruct (existsb (String.eqb name) (prefixesOf parts)); reflexivity.
Qed.

Lemma additions_invariant (platform : PlatformName) (rest : list Addition) :
  forall done st st',
    keymapInvariant platform done st ->
    foldM (addOne platform) rest st = Ok st' ->
    keymapInvariant platform (done ++ rest) st'.
Proof.
  induction rest as [|a rest IH]; intros done st st' Hinv.
  - cbn [foldM]. intros H. injection H as <-. rewrite List.app_nil_r. exact Hinv.
  - cbn [foldM]. destruct (addOne platform a st) as [st1|e] eqn:Ha; cbn [bind]; [|discriminate].
    intros H. replace (done ++ a :: rest) with ((done ++ [a]) ++ rest)
      by (rewrite <- List.app_assoc; reflexivity).
    eapply IH; [|exact H]. eapply addOne_invariant; eassumption.
Qed.

(** ** When a keymap can be built *)

Lemma readModifiers_known (platform : PlatformName) (mods : list string) :
  existsb (fun modName => negb (recognised modName)) mods = false ->
  forall m, exists m', readModifiers platform mods m = Ok m'.
Proof.
  induction mods as [|modName rest IH]; cbn [existsb readModifiers]; [eauto|].
  intros H m. apply orb_false_elim in H. destruct H as [Hrec H].
  apply negb_false_iff in Hrec. rewrite recognised_cases in Hrec.
  destruct (matchesAny ["cmd"; "meta"; "m"]%string modName); [apply IH; exact H|].
  destruct (matchesAny ["a"; "alt"]%string modName); [apply IH; exact H|].
  destruct (matchesAny ["c"; "ctrl"; "control"]%string modName); [apply IH; exact H|].
  destruct (matchesAny ["s"; "shift"]%string modName); [apply IH; exact H|].
  destruct (matchesAny ["mod"]%string modName); [destruct platform; apply IH; exact H|].
  discriminate Hrec.
Qed.

Lemma normalizeKeyName_known (platform : PlatformName) (stroke : string) :
  strokeHasUnknownModifier stroke = false ->
  exists r, normalizeKeyName stroke platform = Ok r.
Proof.
  intros H. unfold normalizeKeyName. cbn zeta.
  destruct (readModifiers_known platform _ H (mkModifiers false false false false)) as [m ->].
  cbn [bind]. eauto.
Qed.

Lemma mapM_succeeds {A B} (f : A -> Result B) (l : list A) :
  (forall x, In x l -> exists b, f x = Ok b) -> exists bs, mapM f l = Ok bs.
Proof.
  induction l as [|a l IH]; intros H; cbn [mapM]; [eauto|].
  destruct (H a (or_introl eq_refl)) as [b ->].
  destruct IH as [bs ->]; [intros x Hx; apply H; right; exact Hx|].
  cbn [bind]. eauto.
Qed.

Lemma mapM_ok_each {A B} (f : A -> Result B) (l : list A) (bs : list B) :
  mapM f l = Ok bs -> forall x, In x l -> exists b, f x = Ok b.
Proof.
  intros H x Hin. destruct (f x) as [b|e] eqn:Hx; [eauto|].
  destruct (mapM_fails f l x e Hin Hx) as [e' He]. congruence.
Qed.

Lemma foldM_ok_each {A S} (f : A -> S -> Result S) (l : list A) :
  forall st st', foldM f l st = Ok st' ->
    forall a, In a l -> exists s1 s2, f a s1 = Ok s2.
Proof.
  induction l as [|x l IH]; intros st st'; cbn [foldM]; [intros _ a []|].
  destruct (f x st) as [st1|e] eqn:Hx; cbn [bind]; [|discriminate].
  intros H a [<-|Hin]; [eauto|]. eapply IH; eassumption.
Qed.

Lemma checkPrefix_succeeds (name : string) (isP : bool) (st : Builder) :
  isPrefix st !! name <> Some (negb isP) -> exists st', checkPrefix name isP st = Ok st'.
Proof.
  unfold checkPrefix. destruct (isPrefix st !! name) as [current|]; [|eauto].
  intros H. destruct current, isP; cbn in *; eauto; congruence.
Qed.

Lemma checkPrefix_new (name : string) (isP : bool) (st st' : Builder) :
  checkPrefix name isP st = Ok st' ->
  forall n v, isPrefix st' !! n = Some v ->
    isPrefix st !! n = Some v \/ (n = name /\ v = isP).
Proof.
  unfold checkPrefix. destruct (isPrefix st !! name) as [current|] eqn:Hl.
  - destruct (Bool.eqb current isP); [|discriminate]. intros H. injection H as <-. auto.
  - intros H. injection H as <-. intros n v. cbn [isPrefix].
    destruct (decide (name = n)) as [<-|Hne].
    + rewrite lookup_insert_eq. intros Hv. injection Hv as <-. auto.
    + rewrite lookup_insert_ne by exact Hne. auto.
Qed.

Lemma addPrefixes_succeed (scopeName : string) (prefixes : list string) :
  forall scopeObj st,
    (forall p, In p prefixes -> isPrefix st !! p <> Some false) ->
    exists scopeObj' st',
      foldM (addPrefix scopeName) prefixes (scopeObj, st) = Ok (scopeObj', st') /\
      forall n v, isPrefix st' !! n = Some v ->
        isPrefix st !! n = Some v \/ (In n prefixes /\ v = true).
Proof.
  induction prefixes as [|p rest IH]; intros scopeObj st Hfree.
  - exists scopeObj, st. split; [reflexivity|auto].
  - cbn [foldM]. unfold addPrefix at 1.
    destruct (checkPrefix_succeeds p true st) as [st1 Hc]; [apply Hfree; left; reflexivity|].
    rewrite Hc. cbn [bind].
    assert (Hfree1 : forall p', In p' rest -> isPrefix st1 !! p' <> Some false).
    { intros p' Hin Hp'. destruct (checkPrefix_new _ _ _ _ Hc _ _ Hp') as [Hold|[_ Hv]];
        [|discriminate]. exact (Hfree p' (or_intror Hin) Hold). }
    destruct (scopeObj !! p); cbn [bind];
      match goal with |- context [foldM _ rest (?o, st1)] =>
        destruct (IH o st1 Hfree1) as (scopeObj' & st' & Hfold & Hnew) end;
      exists scopeObj', st'; (split; [exact Hfold|]); intros n v Hv;
      (destruct (Hnew n v Hv) as [Hold|[Hin ->]]; [|right; split; [right; exact Hin|reflexivity]]);
      (destruct (checkPrefix_new _ _ _ _ Hc _ _ Hold) as [Hst|[-> ->]];
       [left; exact Hst|right; split; [left; reflexivity|reflexivity]]).
Qed.

Lemma addOne_succeeds (platform : PlatformName) (adds : list Addition) (a : Addition)
  (st : Builder) :
  soundPrefixes platform adds st ->
  (forall stroke, In stroke (splitNotLast " " (addKey a)) ->
                  strokeHasUnknownModifier stroke = false) ->
  noPrefixConflict platform (adds ++ [a]) ->
  exists st', addOne platform a st = Ok st' /\ soundPrefixes platform (adds ++ [a]) st'.
Proof.
  intros Hsound Hknown Hfree. unfold addOne, add. cbn zeta.
  destruct (mapM_succeeds (fun k => normalizeKeyName k platform) (splitNotLast " " (addKey a)))
    as [parts Hparts].
  { intros stroke Hin. apply normalizeKeyName_known, Hknown, Hin. }
  assert (Hs : strokes platform (addKey a) = parts) by (unfold strokes; rewrite Hparts; reflexivity).
  assert (Hlast : In a (adds ++ [a])) by (apply in_or_app; right; left; reflexivity).
  rewrite Hparts. cbn [bind].
  destruct (addPrefixes_succeed (addScope a) (prefixesOf parts)
              (default ∅ (bound st !! addScope a)) st) as (scopeObj & st1 & Hfold & Hnew1).
  { intros p Hin Hp. destruct (Hsound _ _ Hp) as (a' & Hin' & Hfull).
    apply (Hfree a' a); [apply in_or_app; left; exact Hin'|exact Hlast|].
    rewrite Hfull. unfold prefixNames. rewrite Hs. exact Hin. }
  rewrite Hfold. cbn [bind].
  destruct (checkPrefix_succeeds (String.concat " " parts) false st1) as [st2 Hc].
  { cbn [negb]. intros Hp. destruct (Hnew1 _ _ Hp) as [Hold|[Hin _]].
    - destruct (Hsound _ _ Hold) as (a' & Hin' & Hpre).
      apply (Hfree a a'); [exact Hlast|apply in_or_app; left; exact Hin'|].
      unfold fullName. rewrite Hs. exact Hpre.
    - apply (Hfree a a); [exact Hlast|exact Hlast|].
      unfold fullName, prefixNames. rewrite Hs. exact Hin. }
  rewrite Hc. cbn [bind]. eexists. split; [reflexivity|].
  intros n v Hv. cbn [isPrefix] in Hv.
  destruct (checkPrefix_new _ _ _ _ Hc _ _ Hv) as [H1|[-> ->]].
  - destruct (Hnew1 _ _ H1) as [Hold|[Hin ->]].
    + destruct (Hsound _ _ Hold) as (a' & Hin' & Ha'). exists a'.
      split; [apply in_or_app; left; exact Hin'|exact Ha'].
    + exists a. split; [exact Hlast|]. unfold prefixNames. rewrite Hs. exact Hin.
  - exists a. split; [exact Hlast|]. unfold fullName. rewrite Hs. reflexivity.
Qed.

Lemma additions_succeed (platform : PlatformName) (rest : list Addition) :
  forall done st,
    soundPrefixes platform done st ->
    knownModifiers rest ->
    noPrefixConflict platform (done ++ rest) ->
    exists st', foldM (addOne platform) rest st = Ok st'.
Proof.
  induction rest as [|a rest IH]; intros done st Hsound Hknown Hfree; cbn [foldM]; [eauto|].
  replace (done ++ a :: rest) with ((done ++ [a]) ++ rest) in Hfree
    by (rewrite <- List.app_assoc; reflexivity).
  destruct (addOne_succeeds platform done a st Hsound) as (st1 & -> & Hsound1).
  - intros stroke Hin. apply (Hknown a stroke); [left; reflexivity|exact Hin].
  - intros a1 a2 H1 H2. apply Hfree; apply in_or_app; left; assumption.
  - cbn [bind]. apply (IH (done ++ [a])); [exact Hsound1| |exact Hfree].
    intros a' stroke Hin. apply Hknown. right. exact Hin.
Qed.

(** X13.  [buildKeymap] returns a keymap exactly when every stroke of every
    addition has recognised modifiers only and no key sequence that is bound
    is also a proper beginning of a bound sequence; otherwise it throws. *)
Theorem buildKeymap_succeeds_iff (platform : PlatformName) (bindings : list KeyBinding) :
  (exists map, buildKeymap bindings platform = Ok map) <->
  knownModifiers (additions platform bindings) /\
  noPrefixConflict platform (additions platform bindings).
Proof.
  rewrite buildKeymap_additions. split.
  - intros [map H].
    destruct (foldM _ _ _) as [st|e] eqn:Hfold; cbn [bind] in H; [|discriminate].
    split.
    + intros a stroke Hin Hstroke.
      destruct (foldM_ok_each _ _ _ _ Hfold a Hin) as (s1 & s2 & Ha).
      destruct (add_ok _ _ _ _ _ _ _ Ha) as (_ & parts & Hparts & _).
      destruct (mapM_ok_each _ _ _ Hparts stroke Hstroke) as [r Hr].
      apply not_true_is_false. intros Hbad.
      destruct (normalizeKeyName_unknown platform stroke Hbad) as [modName He]. congruence.
    + apply (additions_invariant platform _ [] _ _) in Hfold.
      2:{ split; [intros a []|reflexivity]. }
      destruct Hfold as [Hreg _]. intros a1 a2 H1 H2 Hin.
      destruct (Hreg a1 H1) as [Hfull _]. destruct (Hreg a2 H2) as [_ Hpre].
      apply Hpre in Hin. unfold fullName in Hin. congruence.
  - intros [Hknown Hfree].
    destruct (additions_succeed platform (additions platform bindings) [] (mkBuilder ∅ ∅))
      as [st ->]; [|exact Hknown|exact Hfree|cbn [bind]; eauto].
    intros n v Hv. cbn [isPrefix] in Hv. rewrite lookup_empty in Hv. discriminate.
Qed.

(** ** What a built keymap holds *)

Lemma buildKeymap_invariant (platform : PlatformName) (bindings : list KeyBinding)
  (map : gmap string (gmap string Binding)) :
  buildKeymap bindings platform = Ok map ->
  exists st, map = bound st /\ keymapInvariant platform (additions platform bindings) st.
Proof.
  rewrite buildKeymap_additions.
  destruct (foldM _ _ _) as [st|e] eqn:Hfold; cbn [bind]; [|discriminate].
  intros H. injection H as <-. exists st. split; [reflexivity|].
  apply (additions_invariant platform _ [] _ _ ) in Hfold; [exact Hfold|].
  split; [intros a []|reflexivity].
Qed.

Lemma invariant_prefix_binding (platform : PlatformName) (adds : list Addition) (st : Builder)
  (a : Addition) (name : string) :
  keymapInvariant platform adds st -> In a adds -> In name (prefixNames platform a) ->
  bindingFor (bound st) (addScope a) name
  = Some (mkBinding true [StorePrefix name (addScope a)]).
Proof.
  intros [Hreg Hlook] Ha Hname. rewrite Hlook. unfold expectedBinding.
  destruct (List.filter _ _) as [|d direct] eqn:Hd.
  - replace (existsb _ _) with true; [reflexivity|]. symmetry.
    apply existsb_exists. exists a. split; [exact Ha|]. unfold passesThrough.
    rewrite String.eqb_refl. apply existsb_eqb_In. exact Hname.
  - exfalso. assert (Hin : In d (List.filter (bindsKey platform (addScope a) name) adds))
      by (rewrite Hd; left; reflexivity).
    apply List.filter_In in Hin. destruct Hin as [Hin Hb]. unfold bindsKey in Hb.
    apply andb_prop in Hb. destruct Hb as [_ Hb]. apply String.eqb_eq in Hb.
    destruct (Hreg d Hin) as [Hfull _]. destruct (Hreg a Ha) as [_ Hpre].
    apply Hpre in Hname. unfold fullName in Hb. congruence.
Qed.

Lemma invariant_direct_binding (platform : PlatformName) (adds : list Addition) (st : Builder)
  (a : Addition) :
  keymapInvariant platform adds st -> In a adds ->
  let direct := List.filter (bindsKey platform (addScope a) (fullName platform a)) adds in
  In a direct /\
  bindingFor (bound st) (addScope a) (fullName platform a)
  = Some (mkBinding (existsb prevents direct) (List.map addCommand direct)).
Proof.
  intros [_ Hlook] Ha direct.
  assert (Hin : In a direct).
  { apply List.filter_In. split; [exact Ha|]. unfold bindsKey. rewrite !String.eqb_refl.
    reflexivity. }
  split; [exact Hin|]. rewrite Hlook. unfold expectedBinding. fold direct.
  destruct direct as [|d rest]; [destruct Hin|reflexivity].
Qed.

(** ** When malformed bindings are rejected *)

Lemma built_known_modifiers (platform : PlatformName) (bindings : list KeyBinding)
  (map : gmap string (gmap string Binding)) :
  buildKeymap bindings platform = Ok map -> knownModifiers (additions platform bindings).
Proof.
  rewrite buildKeymap_additions.
  destruct (foldM _ _ _) as [st|e] eqn:Hfold; cbn [bind]; [|discriminate].
  intros _ a stroke Hin Hstroke.
  destruct (foldM_ok_each _ _ _ _ Hfold a Hin) as (s1 & s2 & Ha).
  destruct (add_ok _ _ _ _ _ _ _ Ha) as (_ & parts & Hparts & _).
  destruct (mapM_ok_each _ _ _ Hparts stroke Hstroke) as [r Hr].
  apply not_true_is_false. intros Hbad.
  destruct (normalizeKeyName_unknown platform stroke Hbad) as [modName He]. congruence.
Qed.

Lemma buildKeymap_unknown_modifier (platform : PlatformName) (bindings : list KeyBinding) :
  hasUnknownModifier platform bindings ->
  exists e, buildKeymap bindings platform = Error e.
Proof.
  intros (a & stroke & Hin & Hstroke & Hbad).
  destruct (buildKeymap bindings platform) as [map|e] eqn:Hb; [exfalso|eauto].
  pose proof (built_known_modifiers _ _ _ Hb a stroke Hin Hstroke) as Hknown. congruence.
Qed.

Lemma buildKeymap_prefix_conflict (platform : PlatformName) (bindings : list KeyBinding) :
  hasPrefixConflict platform bindings ->
  exists e, buildKeymap bindings platform = Error e.
Proof.
  intros (a1 & a2 & parts1 & parts2 & H1 & H2 & Hp1 & Hp2 & Hin).
  destruct (buildKeymap bindings platform) as [map|e] eqn:Hb; [exfalso|eauto].
  destruct (buildKeymap_invariant _ _ _ Hb) as (st & _ & Hreg & _).
  destruct (Hreg a1 H1) as [Hfull _]. destruct (Hreg a2 H2) as [_ Hpre].
  unfold strokes in Hfull, Hpre. rewrite Hp1 in Hfull. rewrite Hp2 in Hpre.
  apply Hpre in Hin. congruence.
Qed.

Lemma getKeymap_error (platform : PlatformName) (state : EditorState)
  (Keymaps : gmap nat (gmap string (gmap string Binding))) (e : string) :
  Keymaps !! facetId state = None ->
  buildKeymap (concat (keymapFacet state)) platform = Error e ->
  getKeymap platform state Keymaps = (Error e, Keymaps).
Proof. intros Hnone He. unfold getKeymap. rewrite Hnone, He. reflexivity. Qed.

Lemma keydowns_error {Ev : Type}
  (runHandlers : gmap string (gmap string Binding) -> Ev -> string -> bool)
  (platform : PlatformName) (state : EditorState)
  (Keymaps : gmap nat (gmap string (gmap string Binding))) (e : string) :
  getKeymap platform state Keymaps = (Error e, Keymaps) ->
  forall events,
    keydowns runHandlers platform state Keymaps events
    = (List.map (fun _ => Error e) events, Keymaps).
Proof.
  intros Hg events. induction events as [|event rest IH]; [reflexivity|].
  cbn [keydowns List.map]. unfold keydown at 1. rewrite Hg, IH. reflexivity.
Qed.

(** C9, as the code has it.  Installing bindings never fails and builds
    nothing.  Malformed bindings -- an unrecognised modifier name, or a key
    sequence bound as a command and used as the beginning of a longer
    sequence, in a binding's own key name or in the [Shift-] name of its
    [shift] command -- are rejected when the keymap is first built: by the
    first [keydown] event handled for that editor state (or the first call of
    [runScopeHandlers]), whatever keymaps of other states the cache holds.
    That event raises one of the two descriptive errors, runs no handler and
    stores nothing in the cache, so every later key event raises it
    again. *)
Theorem malformed_bindings_rejected_at_first_key {Ev : Type}
  (runHandlers : gmap string (gmap string Binding) -> Ev -> string -> bool)
  (platform : PlatformName) (id : nat) (keymaps : list (list KeyBinding))
  (Keymaps : gmap nat (gmap string (gmap string Binding))) :
  malformed platform (concat keymaps) ->
  Keymaps !! id = None ->
  configure id keymaps = Ok (mkEditorState id keymaps) /\
  exists message,
    descriptive message /\
    buildKeymap (concat keymaps) platform = Error message /\
    getKeymap platform (mkEditorState id keymaps) Keymaps = (Error message, Keymaps) /\
    (forall event,
       keydown runHandlers platform (mkEditorState id keymaps) Keymaps event
       = (Error message, Keymaps)) /\
    (forall event scopeName,
       runScopeHandlers runHandlers platform (mkEditorState id keymaps) Keymaps event scopeName
       = (Error message, Keymaps)) /\
    (forall events,
       keydowns runHandlers platform (mkEditorState id keymaps) Keymaps events
       = (List.map (fun _ => Error message) events, Keymaps)).
Proof.
  intros Hbad Hnone. split; [reflexivity|].
  assert (Herr : exists e, buildKeymap (concat keymaps) platform = Error e).
  { destruct Hbad as [Hm | Hc];
      [apply buildKeymap_unknown_modifier|apply buildKeymap_prefix_conflict]; assumption. }
  destruct Herr as [e He]. exists e.
  split; [eapply buildKeymap_error; exact He|]. split; [exact He|].
  assert (Hg : getKeymap platform (mkEditorState id keymaps) Keymaps = (Error e, Keymaps)).
  { apply getKeymap_error; [exact Hnone|exact He]. }
  split; [exact Hg|].
  split; [intros event; unfold keydown; rewrite Hg; reflexivity|].
  split; [intros event scopeName; unfold runScopeHandlers; rewrite Hg; reflexivity|].
  apply keydowns_error. exact Hg.
Qed.

Lemma unknownModifierBinding_malformed : malformed onKey (concat [[unknownModifierBinding]]).
Proof.
  left. exists (mkAddition "editor" "Hyper-x" (UserCommand 0) None), "Hyper-x"%string.
  split; [left; reflexivity|]. split; [left; reflexivity|reflexivity].
Defined.

Lemma saveChord_malformed : malformed onKey (concat [saveChord]).
Proof.
  right.
  exists (mkAddition "editor" "Ctrl-x" (UserCommand 1) None),
         (mkAddition "editor" "Ctrl-x Ctrl-s" (UserCommand 2) None),
         ["Ctrl-x"%string], ["Ctrl-x"%string; "Ctrl-s"%string].
  split; [left; reflexivity|]. split; [right; left; reflexivity|].
  split; [reflexivity|]. split; [reflexivity|left; reflexivity].
Defined.

Lemma shiftConflict_malformed : malformed onKey (concat [shiftConflict]).
Proof.
  right.
  exists (mkAddition "editor" "Shift-x" (UserCommand 2) None),
         (mkAddition "editor" "Shift-x y" (UserCommand 3) None),
         ["Shift-x"%string], ["Shift-x"%string; "y"%string].
  split; [right; left; reflexivity|]. split; [right; right; left; reflexivity|].
  split; [reflexivity|]. split; [reflexivity|left; reflexivity].
Defined.

Lemma malformed_bindings_rejected_at_first_key_witness :
  malformed onKey (concat [[unknownModifierBinding]]) /\
  configure 0 [[unknownModifierBinding]] = Ok (mkEditorState 0 [[unknownModifierBinding]]) /\
  fst (keydown (fun _ (_ : unit) _ => false) onKey
         (mkEditorState 0 [[unknownModifierBinding]]) ∅ tt)
  = Error "Unrecognized modifier name: Hyper" /\
  malformed onKey (concat [saveChord]) /\
  fst (keydown (fun _ (_ : unit) _ => false) onKey (mkEditorState 1 [saveChord]) ∅ tt)
  = Error (conflictMessage "Ctrl-x") /\
  malformed onKey (concat [shiftConflict]) /\
  keydowns (fun _ (_ : unit) _ => false) onKey (mkEditorState 2 [shiftConflict])
    (<[1%nat := built chords]> ∅) [tt; tt]
  = ([Error (conflictMessage "Shift-x"); Error (conflictMessage "Shift-x")],
     <[1%nat := built chords]> ∅).
Proof.
  split; [exact unknownModifierBinding_malformed|].
  destruct (malformed_bindings_rejected_at_first_key (fun _ (_ : unit) _ => false) onKey 0
              [[unknownModifierBinding]] ∅ unknownModifierBinding_malformed (lookup_empty _))
    as (Hconf & message & _ & Hb & _ & Hk & _).
  split; [exact Hconf|]. split.
  { rewrite Hk. cbn [fst]. vm_compute in Hb. injection Hb as <-. reflexivity. }
  split; [exact saveChord_malformed|].
  destruct (malformed_bindings_rejected_at_first_key (fun _ (_ : unit) _ => false) onKey 1
              [saveChord] ∅ saveChord_malformed (lookup_empty _))
    as (_ & message' & _ & Hb' & _ & Hk' & _).
  split; [rewrite Hk'; cbn [fst]; vm_compute in Hb'; injection Hb' as <-; reflexivity|].
  split; [exact shiftConflict_malformed|].
  destruct (malformed_bindings_rejected_at_first_key (fun _ (_ : unit) _ => false) onKey 2
              [shiftConflict] (<[1%nat := built chords]> ∅) shiftConflict_malformed)
    as (_ & message'' & _ & Hb'' & _ & _ & _ & Hall).
  { rewrite lookup_insert_ne by discriminate. apply lookup_empty. }
  rewrite Hall. vm_compute in Hb''. injection Hb'' as <-. reflexivity.
Defined.

(** C9, as the documentation has it, fails: bindings with the unknown
    modifier [Hyper] are installed without any error; the error is raised by
    the first key event. *)
Lemma malformed_bindings_installed_counterexample :
  malformed onKey (concat [[unknownModifierBinding]]) /\
  configure 0 [[unknownModifierBinding]] = Ok (mkEditorState 0 [[unknownModifierBinding]]) /\
  ~ rejectedAtSetup [[unknownModifierBinding]] /\
  fst (keydown (fun _ (_ : unit) _ => false) onKey
         (mkEditorState 0 [[unknownModifierBinding]]) ∅ tt)
  = Error "Unrecognized modifier name: Hyper".
Proof.
  split; [exact unknownModifierBinding_malformed|]. split; [reflexivity|].
  split; [|vm_compute; reflexivity].
  intros H. destruct (H 0%nat) as (message & Hm & _). discriminate Hm.
Qed.

Lemma builds (bindings : list KeyBinding) (platform : PlatformName) :
  match buildKeymap bindings platform with Ok _ => true | Error _ => false end = true ->
  exists map, buildKeymap bindings platform = Ok map.
Proof. destruct (buildKeymap bindings platform) as [map|e]; [eauto|discriminate]. Qed.

(** X14.  In a keymap that [buildKeymap] returns, the binding stored for a
    key in a scope holds the commands of all additions to exactly that
    normalized key in that scope, in the order of the bindings, and prevents
    the default when one of them asks for it; a key that is only a proper
    beginning of bound sequences holds the prefix command; every other key
    is unbound. *)
Theorem buildKeymap_lookup (platform : PlatformName) (bindings : list KeyBinding)
  (map : gmap string (gmap string Binding)) :
  buildKeymap bindings platform = Ok map ->
  forall scopeName name,
    bindingFor map scopeName name
    = expectedBinding platform (additions platform bindings) scopeName name.
Proof.
  intros H. destruct (buildKeymap_invariant _ _ _ H) as (st & -> & _ & Hlook). exact Hlook.
Qed.

Lemma buildKeymap_lookup_witness :
  exists map,
    buildKeymap chords onLinux = Ok map /\
    bindingFor map "editor" "Ctrl-x Ctrl-s"
    = Some (mkBinding false [UserCommand 2; UserCommand 6]) /\
    bindingFor map "search" "Shift-Ctrl-s" = Some (mkBinding true [UserCommand 5]) /\
    bindingFor map "search" "Ctrl-x" = None.
Proof.
  destruct (builds chords onLinux) as [map H]; [vm_compute; reflexivity|].
  exists map. split; [exact H|].
  rewrite !(buildKeymap_lookup onLinux chords map H). repeat split; reflexivity.
Defined.

(** X15.  A key sequence that is a proper beginning of a bound multi-stroke
    sequence holds, in that scope, exactly the command that stores the
    prefix, with [preventDefault] set -- no command of the caller's. *)
Theorem buildKeymap_prefix_keys (platform : PlatformName) (bindings : list KeyBinding)
  (map : gmap string (gmap string Binding)) (a : Addition) (name : string) :
  buildKeymap bindings platform = Ok map ->
  In a (additions platform bindings) ->
  In name (prefixNames platform a) ->
  bindingFor map (addScope a) name
  = Some (mkBinding true [StorePrefix name (addScope a)]).
Proof.
  intros H Ha Hname. destruct (buildKeymap_invariant _ _ _ H) as (st & -> & Hinv).
  exact (invariant_prefix_binding _ _ _ _ _ Hinv Ha Hname).
Qed.

Lemma buildKeymap_prefix_keys_witness :
  exists map,
    buildKeymap chords onKey = Ok map /\
    bindingFor map "editor" "Ctrl-x" = Some (mkBinding true [StorePrefix "Ctrl-x" "editor"]).
Proof.
  destruct (builds chords onKey) as [map H]; [vm_compute; reflexivity|].
  exists map. split; [exact H|].
  apply (buildKeymap_prefix_keys onKey chords map
           (mkAddition "editor" "c-x C-f" (UserCommand 3) None) "Ctrl-x" H).
  - vm_compute. auto 10.
  - vm_compute. auto.
Defined.

Lemma buildKeymap_succeeds_iff_witness :
  knownModifiers (additions onMac chords) /\ noPrefixConflict onMac (additions onMac chords).
Proof.
  apply (proj1 (buildKeymap_succeeds_iff onMac chords)).
  destruct (builds chords onMac) as [map H]; [vm_compute; reflexivity|].
  exists map. exact H.
Defined.

(** * Running the handlers *)

Lemma splitNotLast_none (c : ascii) (s : string) :
  hasChar c s = false -> splitNotLast c s = [s].
Proof.
  induction s as [|a rest IH]; [reflexivity|]. cbn [hasChar splitNotLast].
  intros H. apply orb_false_elim in H. destruct H as [Ha Hrest].
  rewrite Ha, (IH Hrest). reflexivity.
Qed.

(** X16.  The name [modifiers] builds for an event is the name under which
    [normalizeKeyName] files a binding for the same key with the modifiers
    that are down, in whatever order and spelling the binding lists them. *)
Theorem bound_name_matches_event (platform : PlatformName) (mods : list string) (k : string)
  (event : KeyboardEvent) (m : Modifiers) :
  Forall (fun modName => hasChar "-" modName = false) mods ->
  hasChar "-" k = false -> k <> EmptyString -> String.eqb k "Space" = false ->
  readModifiers platform mods (mkModifiers false false false false) = Ok m ->
  mAlt m = altKey event -> mCtrl m = ctrlKey event ->
  mMeta m = metaKey event -> mShift m = shiftKey event ->
  normalizeKeyName (withModifiers mods k) platform = Ok (modifiers k event true).
Proof.
  intros Hmods Hdash Hk Hspace Hm Ha Hc Hme Hs.
  rewrite (normalizeKeyName_withModifiers platform mods k Hmods Hk).
  rewrite (splitNotLast_none _ _ Hdash). cbn [List.last List.removelast].
  rewrite List.app_nil_r, Hspace, Hm. cbn [bind]. unfold modifiers.
  rewrite Ha, Hc, Hme, Hs. reflexivity.
Qed.

Lemma bound_name_matches_event_witness :
  normalizeKeyName "s-Mod-a-k" onMac
  = Ok (modifiers "k" (mkKeyboardEvent 75 true false true true "K") true).
Proof.
  apply (bound_name_matches_event onMac ["s"; "Mod"; "a"]%string "k"
           (mkKeyboardEvent 75 true false true true "K")
           (mkModifiers true false true true)); try reflexivity.
  - repeat constructor.
  - discriminate.
Defined.

Lemma append_assoc (a b c : string) : (a +:+ b) +:+ c = a +:+ (b +:+ c).
Proof.
  induction a as [|x a IH]; [reflexivity|].
  change (String x ((a +:+ b) +:+ c) = String x (a +:+ (b +:+ c))). f_equal. exact IH.
Qed.

Section RunHandlersProperties.

Context {World : Type}.
Variable runUser : nat -> nat -> World -> World * bool.
Variable keyName : KeyboardEvent -> string.
Variable codePointAt : string -> nat.
Variable codePointSize : nat -> nat.
Variable base : nat -> option string.
Variable shiftTable : nat -> option string.
Variable modifierCodes : list nat.

Local Abbreviation runCommand := (runCommand runUser).
Local Abbreviation runCommands := (runCommands runUser).
Local Abbreviation runFor := (runFor runUser).
Local Abbreviation isChar := (isChar keyName codePointAt codePointSize).
Local Abbreviation takePrefix := (takePrefix modifierCodes).
Local Abbreviation candidates := (candidates keyName codePointAt codePointSize base shiftTable).
Local Abbreviation runHandlers :=
  (runHandlers runUser keyName codePointAt codePointSize base shiftTable modifierCodes).

(** Every path through [runHandlers] is a chain of [runFor] calls on
    bindings of the scope, left at the first that handles the key. *)
Lemma runHandlers_cases (P Q : Handlers World -> bool -> Prop)
  (map : gmap string (gmap string Binding)) (event : KeyboardEvent) (view : nat)
  (scopeName : string) (st : Handlers World) :
  (forall prefix ft st0, takePrefix event view scopeName st = (prefix, ft, st0) -> P st0 ft) ->
  (forall key s ft s' ft',
      In key (candidates event) ->
      P s ft ->
      runFor view (bindingFor map scopeName
                     (fst (fst (takePrefix event view scopeName st)) +:+ key)) s ft
      = (s', ft', false) ->
      P s' ft') ->
  (forall key s ft s' ft',
      In key (candidates event) ->
      P s ft ->
      runFor view (bindingFor map scopeName
                     (fst (fst (takePrefix event view scopeName st)) +:+ key)) s ft
      = (s', ft', true) ->
      Q s' true) ->
  (forall s ft, P s ft -> Q s ft) ->
  Q (fst (runHandlers map event view scopeName st))
    (snd (runHandlers map event view scopeName st)).
Proof.
  intros Hstart Hmiss Hhit Hend. unfold Keymap.runHandlers. cbn zeta.
  destruct (takePrefix event view scopeName st) as [[prefix ft] st0] eqn:Htake.
  specialize (Hstart _ _ _ eq_refl). cbn [fst] in Hmiss, Hhit.
  destruct (map !! scopeName) as [scopeObj|] eqn:Hmap; [|apply Hend, Hstart].
  assert (Hb : forall name, scopeObj !! name = bindingFor map scopeName name).
  { intros name. unfold bindingFor. rewrite Hmap. reflexivity. }
  assert (C1 : In (modifiers (keyName event) event (negb (isChar event))) (candidates event))
    by (left; reflexivity).
  assert (C2 : In (modifiers (keyName event) event true) (candidates event))
    by (right; left; reflexivity).
  assert (C3 : In (modifiers (jsText (shiftTable (keyCode event))) event false)
                 (candidates event))
    by (right; right; left; reflexivity).
  rewrite !Hb.
  destruct (runFor view (bindingFor map scopeName _) st0 ft) as [[s1 f1] [|]] eqn:H1;
    [exact (Hhit _ _ _ _ _ C1 Hstart H1)|].
  pose proof (Hmiss _ _ _ _ _ C1 Hstart H1) as P1.
  assert (Hother :
    let r := if isChar event && shiftKey event
             then let '(st, fallthrough, handled) :=
                    runFor view (bindingFor map scopeName
                                   (prefix +:+ modifiers (keyName event) event true)) s1 f1 in
                  if handled then (st, true) else (st, fallthrough)
             else (s1, f1) in
    Q (fst r) (snd r)).
  { cbn zeta. destruct (isChar event && shiftKey event); [|apply Hend, P1].
    destruct (runFor view _ s1 f1) as [[s2 f2] [|]] eqn:H2;
      [exact (Hhit _ _ _ _ _ C2 P1 H2)|apply Hend; exact (Hmiss _ _ _ _ _ C2 P1 H2)]. }
  cbn zeta in Hother.
  destruct (isChar event && (shiftKey event || altKey event || metaKey event
                             || Nat.ltb 127 (codePointAt (keyName event))));
    [|exact Hother].
  destruct (truthy (base (keyCode event))) as [baseName|] eqn:Hbase; [|exact Hother].
  destruct (negb (String.eqb baseName (keyName event))); [|exact Hother].
  clear Hother. rewrite ?Hb.
  assert (C4 : In (modifiers baseName event true) (candidates event)).
  { unfold Keymap.candidates. cbn zeta. rewrite Hbase. do 3 right. left. reflexivity. }
  destruct (runFor view _ s1 f1) as [[s2 f2] [|]] eqn:H2;
    [exact (Hhit _ _ _ _ _ C4 P1 H2)|].
  pose proof (Hmiss _ _ _ _ _ C4 P1 H2) as P2.
  destruct (shiftKey event && negb (sameText (shiftTable (keyCode event)) (Some baseName)));
    [|apply Hend, P2].
  destruct (runFor view _ s2 f2) as [[s3 f3] [|]] eqn:H3;
    [exact (Hhit _ _ _ _ _ C3 P2 H3)|apply Hend; exact (Hmiss _ _ _ _ _ C3 P2 H3)].
Qed.

(** *** Which commands are called *)

Lemma runCommand_called (view : nat) (cmd : Command) (st : Handlers World) :
  called (fst (runCommand view cmd st)) = called st ++ [(cmd, view)].
Proof.
  destruct cmd as [id|prefix sc]; cbn; [|reflexivity].
  destruct (runUser id view (world st)); reflexivity.
Qed.

Lemma runCommands_called (view : nat) (cmds : list Command) :
  forall st, exists ran,
    called (fst (runCommands view cmds st)) = called st ++ List.map (fun c => (c, view)) ran /\
    (forall c, In c ran -> In c cmds) /\
    (snd (runCommands view cmds st) = false -> ran = cmds).
Proof.
  induction cmds as [|cmd rest IH]; intros st.
  - exists []. cbn. rewrite List.app_nil_r. auto.
  - cbn [Keymap.runCommands]. pose proof (runCommand_called view cmd st) as Hc.
    destruct (runCommand view cmd st) as [st1 [|]]; cbn [fst snd] in *.
    + exists [cmd]. cbn. split; [exact Hc|]. split; [intros c [<-|[]]; left; reflexivity|].
      discriminate.
    + destruct (IH st1) as (ran & Hran & Hin & Hall). exists (cmd :: ran).
      rewrite Hran, Hc, <- List.app_assoc. cbn. split; [reflexivity|].
      split; [intros c [<-|H]; [left; reflexivity|right; apply Hin, H]|].
      intros Hf. rewrite (Hall Hf). reflexivity.
Qed.

Lemma runFor_called (map : gmap string (gmap string Binding)) (view : nat)
  (scopeName name : string) (st : Handlers World) (ft : bool) :
  exists ran,
    called (fst (fst (runFor view (bindingFor map scopeName name) st ft)))
    = called st ++ ran /\
    fromScope map view scopeName ran.
Proof.
  unfold Keymap.runFor. destruct (bindingFor map scopeName name) as [b|] eqn:Hb.
  - destruct (runCommands_called view (commands b) st) as (ran & Hran & Hin & _).
    exists (List.map (fun c => (c, view)) ran).
    split.
    + destruct (runCommands view (commands b) st) as [st1 [|]]; exact Hran.
    + intros cmd v Hcv. apply List.in_map_iff in Hcv. destruct Hcv as (c & Heq & Hc).
      injection Heq as <- <-. split; [reflexivity|]. exists name, b. auto.
  - exists []. cbn. rewrite List.app_nil_r. split; [reflexivity|]. intros cmd v [].
Qed.

Lemma takePrefix_called (event : KeyboardEvent) (view : nat) (scopeName : string)
  (st : Handlers World) :
  called (snd (takePrefix event view scopeName st)) = called st /\
  world (snd (takePrefix event view scopeName st)) = world st /\
  objects (snd (takePrefix event view scopeName st)) = objects st /\
  timeouts (snd (takePrefix event view scopeName st)) = timeouts st.
Proof.
  unfold Keymap.takePrefix. destruct (storedPrefix st) as [sp|]; [|auto].
  destruct (Nat.eqb (spView sp) view && String.eqb (spScope sp) scopeName); [|auto].
  destruct (negb _); auto.
Qed.

(** X17.  Whatever the event, [runHandlers] calls only commands that the
    keymap binds in the scope it was asked for, and calls them on the view
    it was given: no command of another scope runs. *)
Theorem only_commands_of_the_scope_run (map : gmap string (gmap string Binding))
  (event : KeyboardEvent) (view : nat) (scopeName : string) (st : Handlers World) :
  exists ran,
    called (fst (runHandlers map event view scopeName st)) = called st ++ ran /\
    fromScope map view scopeName ran.
Proof.
  apply (runHandlers_cases
           (fun s _ => exists ran, called s = called st ++ ran /\ fromScope map view scopeName ran)
           (fun s _ => exists ran, called s = called st ++ ran /\ fromScope map view scopeName ran)
           map event view scopeName st).
  - intros prefix ft st0 Htake. exists []. rewrite List.app_nil_r.
    destruct (takePrefix_called event view scopeName st) as [Hc _]. rewrite Htake in Hc.
    split; [exact Hc|]. intros cmd v [].
  - intros key s ft s' ft' _ (ran & Hran & Hok) Hrun.
    destruct (runFor_called map view scopeName
                  (fst (fst (takePrefix event view scopeName st)) +:+ key) s ft) as (ran' & Hran' & Hok').
    rewrite Hrun in Hran'. cbn [fst] in Hran'. exists (ran ++ ran').
    rewrite Hran', Hran, List.app_assoc. split; [reflexivity|].
    intros cmd v Hin. apply in_app_or in Hin. destruct Hin; [apply Hok|apply Hok']; assumption.
  - intros key s ft s' ft' _ (ran & Hran & Hok) Hrun.
    destruct (runFor_called map view scopeName
                  (fst (fst (takePrefix event view scopeName st)) +:+ key) s ft) as (ran' & Hran' & Hok').
    rewrite Hrun in Hran'. cbn [fst] in Hran'. exists (ran ++ ran').
    rewrite Hran', Hran, List.app_assoc. split; [reflexivity|].
    intros cmd v Hin. apply in_app_or in Hin. destruct Hin; [apply Hok|apply Hok']; assumption.
  - intros s ft H. exact H.
Qed.

(** *** The stored prefix *)

Lemma prefixFrom_refl (st : Handlers World) : prefixFrom st st.
Proof. split; [lia|]. split; [left; reflexivity|]. intros t Ht. left. exact Ht. Qed.

Lemma prefixFrom_trans (st1 st2 st3 : Handlers World) :
  prefixFrom st1 st2 -> prefixFrom st2 st3 -> prefixFrom st1 st3.
Proof.
  intros (Ho12 & Hp12 & Ht12) (Ho23 & Hp23 & Ht23). split; [lia|]. split.
  - destruct Hp23 as [Heq|(sp & Hsp & Hb)].
    + rewrite Heq. destruct Hp12 as [Heq'|(sp & Hsp & Hb)]; [left; exact Heq'|].
      right. exists sp. split; [exact Hsp|lia].
    + right. exists sp. split; [exact Hsp|lia].
  - intros t Ht. destruct (Ht23 t Ht) as [H2|Hb]; [|right; lia].
    destruct (Ht12 t H2) as [H1|Hb]; [left; exact H1|right; lia].
Qed.

Lemma runCommand_prefixFrom (view : nat) (cmd : Command) (st : Handlers World) :
  prefixFrom st (fst (runCommand view cmd st)).
Proof.
  destruct cmd as [id|prefix sc]; cbn.
  - destruct (runUser id view (world st)). split; cbn; [lia|]. split; [left; reflexivity|].
    intros t Ht. left. exact Ht.
  - split; cbn; [lia|]. split.
    + right. eexists. split; [reflexivity|]. cbn. lia.
    + intros t Ht. apply in_app_or in Ht. destruct Ht as [Ht|[<-|[]]]; [left; exact Ht|].
      right. cbn. lia.
Qed.

Lemma runCommands_prefixFrom (view : nat) (cmds : list Command) :
  forall st, prefixFrom st (fst (runCommands view cmds st)).
Proof.
  induction cmds as [|cmd rest IH]; intros st; [apply prefixFrom_refl|].
  cbn [Keymap.runCommands]. pose proof (runCommand_prefixFrom view cmd st) as Hc.
  destruct (runCommand view cmd st) as [st1 [|]]; cbn [fst] in *; [exact Hc|].
  eapply prefixFrom_trans; [exact Hc|apply IH].
Qed.

Lemma runFor_prefixFrom (view : nat) (binding : option Binding) (st : Handlers World)
  (ft : bool) :
  prefixFrom st (fst (fst (runFor view binding st ft))).
Proof.
  unfold Keymap.runFor. destruct binding as [b|]; [|apply prefixFrom_refl].
  pose proof (runCommands_prefixFrom view (commands b) st) as Hc.
  destruct (runCommands view (commands b) st) as [st1 [|]]; exact Hc.
Qed.

Lemma runFor_keeps_fallthrough (view : nat) (binding : option Binding) (st : Handlers World) :
  snd (fst (runFor view binding st true)) = true.
Proof.
  unfold Keymap.runFor. destruct binding as [b|]; [|reflexivity].
  destruct (runCommands view (commands b) st) as [st1 [|]]; [reflexivity|].
  cbn. destruct (bindingPreventDefault b); reflexivity.
Qed.

(** From the state left by the first block on, the handlers only add. *)
Lemma runHandlers_prefixFrom (map : gmap string (gmap string Binding)) (event : KeyboardEvent)
  (view : nat) (scopeName : string) (st : Handlers World) :
  prefixFrom (snd (takePrefix event view scopeName st))
    (fst (runHandlers map event view scopeName st)).
Proof.
  apply (runHandlers_cases
           (fun s _ => prefixFrom (snd (takePrefix event view scopeName st)) s)
           (fun s _ => prefixFrom (snd (takePrefix event view scopeName st)) s)
           map event view scopeName st).
  - intros prefix ft st0 ->. apply prefixFrom_refl.
  - intros key s ft s' ft' _ H Hrun. eapply prefixFrom_trans; [exact H|].
    pose proof (runFor_prefixFrom view
                  (bindingFor map scopeName (fst (fst (takePrefix event view scopeName st)) +:+ key)) s ft) as Hf.
    rewrite Hrun in Hf. exact Hf.
  - intros key s ft s' ft' _ H Hrun. eapply prefixFrom_trans; [exact H|].
    pose proof (runFor_prefixFrom view
                  (bindingFor map scopeName (fst (fst (takePrefix event view scopeName st)) +:+ key)) s ft) as Hf.
    rewrite Hrun in Hf. exact Hf.
  - intros s ft H. exact H.
Qed.

Lemma runHandlers_fallthrough (map : gmap string (gmap string Binding)) (event : KeyboardEvent)
  (view : nat) (scopeName : string) (st : Handlers World) :
  snd (fst (takePrefix event view scopeName st)) = true ->
  snd (runHandlers map event view scopeName st) = true.
Proof.
  intros Hft.
  apply (runHandlers_cases (fun _ ft => ft = true) (fun _ r => r = true)
           map event view scopeName st).
  - intros prefix ft st0 Htake. rewrite Htake in Hft. exact Hft.
  - intros key s ft s' ft' _ -> Hrun.
    pose proof (runFor_keeps_fallthrough view
                  (bindingFor map scopeName (fst (fst (takePrefix event view scopeName st)) +:+ key)) s) as Hf.
    rewrite Hrun in Hf. exact Hf.
  - reflexivity.
  - intros s ft H. exact H.
Qed.

(** X18.  A key pressed while a prefix is stored for the view and scope,
    and which is not a modifier key, is always reported as handled, whether
    or not the keymap binds the sequence; and it uses the prefix up: what is
    stored afterwards, if anything, was stored by a command run for this
    key. *)
Theorem key_after_prefix_is_consumed (map : gmap string (gmap string Binding))
  (event : KeyboardEvent) (view : nat) (scopeName : string) (st : Handlers World)
  (sp : StoredPrefix) :
  storedPrefix st = Some sp -> spView sp = view -> spScope sp = scopeName ->
  existsb (Nat.eqb (keyCode event)) modifierCodes = false ->
  snd (runHandlers map event view scopeName st) = true /\
  match storedPrefix (fst (runHandlers map event view scopeName st)) with
  | Some sp' => (objects st <= spObject sp')%nat
  | None => True
  end.
Proof.
  intros Hsp Hview Hscope Hkey.
  assert (Htake : takePrefix event view scopeName st
                  = (spPrefix sp +:+ " ", true, setStoredPrefix None st)).
  { unfold Keymap.takePrefix. rewrite Hsp, Hview, Hscope, Nat.eqb_refl, String.eqb_refl, Hkey.
    reflexivity. }
  split; [apply runHandlers_fallthrough; rewrite Htake; reflexivity|].
  pose proof (runHandlers_prefixFrom map event view scopeName st) as (_ & Hp & _).
  rewrite Htake in Hp. cbn [snd setStoredPrefix storedPrefix objects] in Hp.
  destruct Hp as [->|(sp' & -> & Hb)]; [exact I|lia].
Qed.

(** X19.  A modifier key pressed in the middle of a multi-stroke binding
    does not cancel it: when a prefix is stored for the view and scope, the
    event is that of a modifier key, and none of the names looked up for it
    is bound after the prefix, [runHandlers] changes nothing -- the prefix
    stays stored -- and reports the key as not handled. *)
Theorem modifier_key_keeps_prefix (map : gmap string (gmap string Binding))
  (event : KeyboardEvent) (view : nat) (scopeName : string) (st : Handlers World)
  (sp : StoredPrefix) :
  storedPrefix st = Some sp -> spView sp = view -> spScope sp = scopeName ->
  existsb (Nat.eqb (keyCode event)) modifierCodes = true ->
  (forall key, In key (candidates event) ->
               bindingFor map scopeName ((spPrefix sp +:+ " ") +:+ key) = None) ->
  runHandlers map event view scopeName st = (st, false).
Proof.
  intros Hsp Hview Hscope Hkey Hfree.
  assert (Htake : takePrefix event view scopeName st = (spPrefix sp +:+ " ", false, st)).
  { unfold Keymap.takePrefix. rewrite Hsp, Hview, Hscope, Nat.eqb_refl, String.eqb_refl, Hkey.
    reflexivity. }
  pose proof (runHandlers_cases (fun s ft => s = st /\ ft = false)
                (fun s r => s = st /\ r = false) map event view scopeName st) as H.
  rewrite Htake in H. cbn [fst] in H.
  destruct (runHandlers map event view scopeName st) as [s r]. cbn [fst snd] in H.
  destruct H as [-> ->]; [| | | |reflexivity].
  - intros prefix ft st0 Heq. injection Heq as <- <- <-. split; reflexivity.
  - intros key s0 ft s' ft' Hin [-> ->]. rewrite (Hfree key Hin). cbn.
    intros Heq. injection Heq as <- <-. split; reflexivity.
  - intros key s0 ft s' ft' Hin [-> ->]. rewrite (Hfree key Hin). cbn. discriminate.
  - intros s0 ft H. exact H.
Qed.

(** *** The first command that handles the key *)

Lemma runCommands_app (view : nat) (before rest : list Command) :
  forall st st1,
    runCommands view before st = (st1, false) ->
    runCommands view (before ++ rest) st = runCommands view rest st1.
Proof.
  induction before as [|cmd before IH]; intros st st1; cbn [Keymap.runCommands app].
  - intros H. injection H as <-. reflexivity.
  - destruct (runCommand view cmd st) as [st' [|]]; [discriminate|]. apply IH.
Qed.

(** X20.  When a handler has returned true for a key no further handlers are
    called: if the binding found first holds a command that handles the key
    after the ones before it declined, then [runHandlers] returns true in
    the state that command left, and the commands called are exactly those
    up to it -- none of the later ones, and none of another binding. *)
Theorem first_handling_command_ends_the_search (map : gmap string (gmap string Binding))
  (event : KeyboardEvent) (view : nat) (scopeName : string) (st st0 st1 st2 : Handlers World)
  (scopeObj : gmap string Binding) (prefix : string) (ft : bool) (b : Binding)
  (before after : list Command) (cmd : Command) :
  map !! scopeName = Some scopeObj ->
  takePrefix event view scopeName st = (prefix, ft, st0) ->
  scopeObj !! (prefix +:+ modifiers (keyName event) event (negb (isChar event))) = Some b ->
  commands b = before ++ cmd :: after ->
  runCommands view before st0 = (st1, false) ->
  runCommand view cmd st1 = (st2, true) ->
  runHandlers map event view scopeName st = (st2, true) /\
  called st2 = called st ++ List.map (fun c => (c, view)) (before ++ [cmd]).
Proof.
  intros Hmap Htake Hb Hcmds Hbefore Hcmd. split.
  - unfold Keymap.runHandlers. cbn zeta. rewrite Htake, Hmap, Hb.
    unfold Keymap.runFor. rewrite Hcmds, (runCommands_app _ _ _ _ _ Hbefore).
    cbn [Keymap.runCommands]. rewrite Hcmd. reflexivity.
  - destruct (runCommands_called view before st0) as (ran & Hran & _ & Hall).
    rewrite Hbefore in Hran, Hall. cbn [fst snd] in Hran, Hall. rewrite (Hall eq_refl) in Hran.
    pose proof (runCommand_called view cmd st1) as Hc. rewrite Hcmd in Hc. cbn [fst] in Hc.
    destruct (takePrefix_called event view scopeName st) as [Hst0 _].
    rewrite Htake in Hst0. cbn [snd] in Hst0.
    rewrite Hc, Hran, Hst0, List.map_app, List.app_assoc. reflexivity.
Qed.

(** *** Timeouts *)

Lemma prefixTimeout_fresh (ourObj : nat) (st : Handlers World) :
  freshObjects st -> freshObjects (prefixTimeout ourObj st).
Proof.
  intros [Hsp Ht]. unfold prefixTimeout. cbn [storedPrefix].
  assert (Hfilter : forall t, In t (List.filter (fun t => negb (Nat.eqb (fst t) ourObj))
                                      (timeouts st)) -> (fst t < objects st)%nat).
  { intros t Hin. apply List.filter_In in Hin. apply Ht, Hin. }
  destruct (storedPrefix st) as [sp|] eqn:Hs.
  - destruct (Nat.eqb (spObject sp) ourObj); split; cbn; try exact Hfilter.
    + discriminate.
    + intros sp' H. injection H as <-. apply (Hsp sp eq_refl).
  - split; cbn; [discriminate|exact Hfilter].
Qed.

Lemma takePrefix_fresh (event : KeyboardEvent) (view : nat) (scopeName : string)
  (st : Handlers World) :
  freshObjects st -> freshObjects (snd (takePrefix event view scopeName st)).
Proof.
  intros Hf. unfold Keymap.takePrefix. destruct (storedPrefix st) as [sp|]; [|exact Hf].
  destruct (Nat.eqb (spView sp) view && String.eqb (spScope sp) scopeName); [|exact Hf].
  destruct (negb _); [|exact Hf]. destruct Hf as [_ Ht]. split; cbn; [discriminate|exact Ht].
Qed.

Lemma takePrefix_stored (event : KeyboardEvent) (view : nat) (scopeName : string)
  (st : Handlers World) :
  storedPrefix (snd (takePrefix event view scopeName st)) = storedPrefix st \/
  storedPrefix (snd (takePrefix event view scopeName st)) = None.
Proof.
  unfold Keymap.takePrefix. destruct (storedPrefix st) as [sp|] eqn:Hs; [|left; exact Hs].
  destruct (Nat.eqb (spView sp) view && String.eqb (spScope sp) scopeName); [|left; exact Hs].
  destruct (negb _); [right; reflexivity|left; exact Hs].
Qed.

Lemma prefixFrom_fresh (st st' : Handlers World) :
  freshObjects st -> prefixFrom st st' -> freshObjects st'.
Proof.
  intros [Hsp Ht] (Ho & Hp & Hts). split.
  - intros sp Hs. destruct Hp as [Heq|(sp' & Hs' & Hb)].
    + rewrite Heq in Hs. specialize (Hsp sp Hs). lia.
    + rewrite Hs' in Hs. injection Hs as <-. lia.
  - intros t Hin. destruct (Hts t Hin) as [Hold|Hb]; [specialize (Ht t Hold)|]; lia.
Qed.

Lemma handleAll_fresh (evs : list HandlerEvent) :
  forall st : Handlers World,
    freshObjects st ->
    freshObjects (handleAll runUser keyName codePointAt codePointSize base shiftTable
                    modifierCodes evs st).
Proof.
  induction evs as [|ev evs IH]; intros st Hf; [exact Hf|].
  cbn [handleAll fold_left]. apply IH. destruct ev as [map event view scopeName|ourObj]; cbn.
  - eapply prefixFrom_fresh; [|apply runHandlers_prefixFrom]. apply takePrefix_fresh, Hf.
  - apply prefixTimeout_fresh, Hf.
Qed.

(** X21.  A timeout clears only the prefix it was set for: after any
    history of key events and timeouts, a prefix that a key event newly
    stores survives every timeout that was already pending. *)
Theorem stale_timeout_keeps_newer_prefix (evs : list HandlerEvent) (w : World)
  (map : gmap string (gmap string Binding)) (event : KeyboardEvent) (view : nat)
  (scopeName : string) (ourObj : nat) (delay : Z) (sp : StoredPrefix) :
  let st := handleAll runUser keyName codePointAt codePointSize base shiftTable modifierCodes
              evs (initialHandlers w) in
  let st' := fst (runHandlers map event view scopeName st) in
  In (ourObj, delay) (timeouts st) ->
  storedPrefix st' = Some sp ->
  storedPrefix st <> Some sp ->
  storedPrefix (prefixTimeout ourObj st') = Some sp.
Proof.
  intros st st' Hpending Hsp Hnew.
  assert (Hfresh : freshObjects st).
  { apply handleAll_fresh. split; cbn; [discriminate|intros t []]. }
  destruct Hfresh as [_ Ht]. specialize (Ht _ Hpending). cbn [fst] in Ht.
  pose proof (runHandlers_prefixFrom map event view scopeName st) as (_ & Hp & _).
  fold st' in Hp. destruct (takePrefix_called event view scopeName st) as (_ & _ & Hobj & _).
  rewrite Hobj in Hp.
  assert (Hge : (objects st <= spObject sp)%nat).
  { destruct Hp as [Heq|(sp' & Hs' & Hb)].
    - exfalso. rewrite Hsp in Heq.
      destruct (takePrefix_stored event view scopeName st) as [H|H]; rewrite H in Heq;
        [apply Hnew; symmetry; exact Heq|discriminate].
    - rewrite Hsp in Hs'. injection Hs' as <-. lia. }
  unfold prefixTimeout. cbn [storedPrefix]. rewrite Hsp.
  replace (Nat.eqb (spObject sp) ourObj) with false; [reflexivity|].
  symmetry. apply Nat.eqb_neq. lia.
Qed.

(** *** Multi-stroke bindings, from the bindings to the commands *)

(** X22.  A two-stroke binding works as documented.  In the keymap built
    from bindings that contain it, the event of its first stroke is handled
    by storing the prefix, without calling any command of the caller's; the
    event of its second stroke, on the same view and scope, then runs the
    commands bound to the whole sequence, in the order of the bindings, and
    stops at the first that handles it. *)
Theorem chord_runs_its_commands (platform : PlatformName) (bindings : list KeyBinding)
  (map : gmap string (gmap string Binding)) (a : Addition) (p1 p2 : string)
  (e1 e2 : KeyboardEvent) (view : nat) (st : Handlers World) :
  buildKeymap bindings platform = Ok map ->
  In a (additions platform bindings) ->
  strokes platform (addKey a) = [p1; p2] ->
  storedPrefix st = None ->
  modifiers (keyName e1) e1 (negb (isChar e1)) = p1 ->
  modifiers (keyName e2) e2 (negb (isChar e2)) = p2 ->
  existsb (Nat.eqb (keyCode e2)) modifierCodes = false ->
  let direct := List.filter (bindsKey platform (addScope a) (p1 +:+ " " +:+ p2))
                  (additions platform bindings) in
  let st1 := fst (runCommand view (StorePrefix p1 (addScope a)) st) in
  let run2 := runCommands view (List.map addCommand direct) (setStoredPrefix None st1) in
  runHandlers map e1 view (addScope a) st = (st1, true) /\
  world st1 = world st /\
  In a direct /\
  (snd run2 = true -> runHandlers map e2 view (addScope a) st1 = (fst run2, true)).
Proof.
  intros Hbuild Ha Hstrokes Hnone He1 He2 Hkey direct st1 run2.
  destruct (buildKeymap_invariant _ _ _ Hbuild) as (bst & -> & Hinv).
  assert (Hfull : fullName platform a = p1 +:+ " " +:+ p2).
  { unfold fullName. rewrite Hstrokes. reflexivity. }
  assert (Hpre : bindingFor (bound bst) (addScope a) p1
                 = Some (mkBinding true [StorePrefix p1 (addScope a)])).
  { apply (invariant_prefix_binding platform _ bst a p1 Hinv Ha).
    unfold prefixNames. rewrite Hstrokes. left. reflexivity. }
  destruct (invariant_direct_binding platform _ bst a Hinv Ha) as [Hin Hdir].
  rewrite Hfull in Hin, Hdir. fold direct in Hin, Hdir.
  unfold bindingFor in Hpre, Hdir.
  destruct (bound bst !! addScope a) as [scopeObj|] eqn:Hmap; [|discriminate].
  split; [|split; [reflexivity|split; [exact Hin|]]].
  - unfold Keymap.runHandlers, Keymap.takePrefix. cbn zeta. rewrite Hnone, Hmap, He1.
    change (EmptyString +:+ p1) with p1. rewrite Hpre. reflexivity.
  - intros Hrun.
    assert (Hst1 : storedPrefix st1 = Some (mkStoredPrefix (objects st) view p1 (addScope a)))
      by reflexivity.
    unfold Keymap.runHandlers, Keymap.takePrefix. cbn zeta.
    rewrite Hst1. cbn [spView spScope spPrefix].
    rewrite Nat.eqb_refl, String.eqb_refl, Hkey. cbn [andb negb].
    rewrite Hmap, He2, append_assoc, Hdir. unfold Keymap.runFor. cbn [commands].
    change (runCommands view (List.map addCommand direct) (setStoredPrefix None st1)) with run2.
    destruct run2 as [st2 handled]. cbn [snd] in Hrun. rewrite Hrun. reflexivity.
Qed.

End RunHandlersProperties.

Lemma key_after_prefix_is_consumed_witness :
  snd (sampleRunHandlers (built chords) (press 81 false "q") 0 "editor" afterCtrlX) = true /\
  match storedPrefix (fst (sampleRunHandlers (built chords) (press 81 false "q") 0 "editor"
                             afterCtrlX)) with
  | Some sp' => (objects afterCtrlX <= spObject sp')%nat
  | None => True
  end.
Proof.
  apply (key_after_prefix_is_consumed sampleRunUser sampleKeyName sampleCodePointAt
           sampleCodePointSize sampleTable sampleTable sampleModifierCodes
           (built chords) (press 81 false "q") 0 "editor" afterCtrlX
           (mkStoredPrefix 0 0 "Ctrl-x" "editor")); reflexivity.
Defined.

Lemma first_handling_command_ends_the_search_witness :
  world (fst (sampleRunHandlers (built saves) (press 83 true "s") 0 "editor"
                (initialHandlers []))) = [1; 4]%nat /\
  snd (sampleRunHandlers (built saves) (press 83 true "s") 0 "editor" (initialHandlers []))
  = true.
Proof.
  destruct (first_handling_command_ends_the_search sampleRunUser sampleKeyName
              sampleCodePointAt sampleCodePointSize sampleTable sampleTable
              sampleModifierCodes
              (built saves) (press 83 true "s") 0 "editor" (initialHandlers [])
              (initialHandlers [])
              (fst (runCommands sampleRunUser 0 [UserCommand 1] (initialHandlers [])))
              (fst (runCommand sampleRunUser 0 (UserCommand 4)
                      (fst (runCommands sampleRunUser 0 [UserCommand 1] (initialHandlers [])))))
              (default ∅ (built saves !! "editor")) EmptyString false
              (mkBinding false [UserCommand 1; UserCommand 4; UserCommand 6])
              [UserCommand 1] [UserCommand 6] (UserCommand 4))
    as [Hrun _]; try (vm_compute; reflexivity).
  unfold sampleRunHandlers. rewrite Hrun. split; reflexivity.
Defined.


Lemma chord_runs_its_commands_witness :
  exists map,
    buildKeymap chords onKey = Ok map /\
    let st1 := fst (sampleRunHandlers map (press 88 true "x") 0 "editor" (initialHandlers [])) in
    storedPrefix st1 = Some (mkStoredPrefix 0 0 "Ctrl-x" "editor") /\
    world st1 = [] /\
    world (fst (sampleRunHandlers map (press 83 true "s") 0 "editor" st1)) = [2%nat] /\
    snd (sampleRunHandlers map (press 83 true "s") 0 "editor" st1) = true.
Proof.
  destruct (builds chords onKey) as [map H]; [vm_compute; reflexivity|].
  exists map. split; [exact H|].
  destruct (chord_runs_its_commands sampleRunUser sampleKeyName sampleCodePointAt
              sampleCodePointSize sampleTable sampleTable sampleModifierCodes
              onKey chords map (mkAddition "editor" "Ctrl-x Ctrl-s" (UserCommand 2) None)
              "Ctrl-x" "Ctrl-s" (press 88 true "x") (press 83 true "s") 0 (initialHandlers [])
              H) as (H1 & _ & _ & H2); try reflexivity.
  { vm_compute. auto. }
  cbn [addScope] in H1, H2. unfold sampleRunHandlers. cbn zeta. rewrite H1. cbn [fst].
  rewrite H2 by (vm_compute; reflexivity).
  repeat split; vm_compute; reflexivity.
Defined.

Lemma stale_timeout_keeps_newer_prefix_witness :
  let evs := [KeyDown (built chords) (press 88 true "x") 0 "editor";
              KeyDown (built chords) (press 81 false "q") 0 "editor";
              KeyDown (built chords) (press 88 true "x") 0 "editor"] in
  let st := handleAll sampleRunUser sampleKeyName sampleCodePointAt sampleCodePointSize
              sampleTable sampleTable sampleModifierCodes evs (initialHandlers []) in
  timeouts st = [(0%nat, PrefixTimeout); (1%nat, PrefixTimeout)] /\
  storedPrefix (prefixTimeout 0 st) = Some (mkStoredPrefix 1 0 "Ctrl-x" "editor").
Proof.
  split; [vm_compute; reflexivity|].
  apply (stale_timeout_keeps_newer_prefix sampleRunUser sampleKeyName sampleCodePointAt
           sampleCodePointSize sampleTable sampleTable sampleModifierCodes
           [KeyDown (built chords) (press 88 true "x") 0 "editor";
            KeyDown (built chords) (press 81 false "q") 0 "editor"]
           [] (built chords) (press 88 true "x") 0 "editor" 0%nat PrefixTimeout
           (mkStoredPrefix 1 0 "Ctrl-x" "editor")).
  - vm_compute. left. reflexivity.
  - vm_compute. reflexivity.
  - vm_compute. discriminate.
Defined.

(** * The cache of keymaps *)

(** X23.  [getKeymap] is idempotent on the cache: asking again for the same
    state, with the cache the first call left, gives the same answer -- the
    stored keymap without building it again, or the same error, since a
    failed build stores nothing -- and leaves the cache as it is; entries of
    other facet values are never touched. *)
Theorem getKeymap_idempotent (platform : PlatformName) (state : EditorState)
  (Keymaps : gmap nat (gmap string (gmap string Binding))) :
  getKeymap platform state (snd (getKeymap platform state Keymaps))
  = getKeymap platform state Keymaps /\
  forall other, other <> facetId state ->
    snd (getKeymap platform state Keymaps) !! other = Keymaps !! other.
Proof.
  unfold getKeymap. destruct (Keymaps !! facetId state) as [map|] eqn:Hcached.
  - cbn [snd]. rewrite Hcached. split; reflexivity.
  - destruct (buildKeymap (concat (keymapFacet state)) platform) as [map|e] eqn:Hbuild;
      cbn [snd].
    + rewrite lookup_insert_eq. split; [reflexivity|].
      intros other Hother. apply lookup_insert_ne. congruence.
    + rewrite Hcached, ?Hbuild. split; reflexivity.
Qed.

Lemma modifier_key_keeps_prefix_witness :
  sampleRunHandlers (built chords) pressShift 0 "editor" afterCtrlX = (afterCtrlX, false).
Proof.
  apply (modifier_key_keeps_prefix sampleRunUser sampleKeyName sampleCodePointAt
           sampleCodePointSize sampleTable sampleTable sampleModifierCodes
           (built chords) pressShift 0 "editor" afterCtrlX
           (mkStoredPrefix 0 0 "Ctrl-x" "editor")); try reflexivity.
  intros key Hin. vm_compute in Hin.
  destruct Hin as [<-|[<-|[<-|[]]]]; vm_compute; reflexivity.
Defined.

Lemma getKeymap_idempotent_witness :
  getKeymap onKey (mkEditorState 1 [chords])
    (snd (getKeymap onKey (mkEditorState 1 [chords]) ∅))
  = getKeymap onKey (mkEditorState 1 [chords]) ∅ /\
  snd (getKeymap onKey (mkEditorState 1 [chords]) ∅) !! 2%nat = None.
Proof.
  destruct (getKeymap_idempotent onKey (mkEditorState 1 [chords]) ∅) as [Hsame Hother].
  split; [exact Hsame|]. rewrite (Hother 2%nat) by (cbn [facetId]; discriminate).
  apply lookup_empty.
Defined.
